(** * SplatNet shop alerts: the check-and-notify cycle

    A shallow embedding of [pages/api/check-and-notify.ts] and of the
    parts of [lib/database_utils] it calls, with the properties of the
    detect / match / dispatch / commit pipeline.

    Conventions.
    - JavaScript numbers that hold timestamps, rarities and row ids are
      integers in the program; they are [Z] here.
    - Strings are strings of ASCII characters.
    - A table of the Postgres database is the list of its rows, in the
      order in which a scan returns them: an INSERT adds a row at the end.
      The rows of [Users] are read by id, or sorted by id, and keep their
      place when they are updated.
    - A JavaScript [Map<number, V>] is an association list in insertion
      order (iteration order matters in the handler).
    - An [await] on the database or on the push service is a point where
      other pending operations of the same request may make progress; the
      handler is therefore a state machine driven by a schedule, which
      also says what the push service answers.
    - Queries reach the database.  A query whose text is built from the
      values it is about can be refused ([stringConstant], [insertedRow],
      [queryWellFormed]); a query that passes its values as parameters
      succeeds, the values being taken to fit their columns.  What Node
      does with a rejection nobody handles is left out.
    - Requests share the database: one request is a run of [handler], any
      number of them, overlapping or not, a run of [System].
    - [lib/gear], [lib/filter], [lib/notifications] and [lib/gear_loader]
      are not among the sources: records follow the fields the code uses,
      and the functions of [lib/gear_loader] are an interface. *)

From stdpp Require Import base decidable option list gmap strings.
From Stdlib Require Import ZArith Lia Ascii.

Local Open Scope Z_scope.

(** ** Strings *)

Module Str.

Definition code (c : ascii) : N := N_of_ascii c.

Definition between (lo hi : N) (c : ascii) : bool :=
  ((lo <=? code c) && (code c <=? hi))%N.

Definition isUpper : ascii -> bool := between 65 90.
Definition isLower : ascii -> bool := between 97 122.
Definition isDigit : ascii -> bool := between 48 57.

Definition isAscii (c : ascii) : bool := (code c <? 128)%N.

(** [String.prototype.toLowerCase] on ASCII characters.  Other bytes are
    left as they are, which is not what JavaScript does with the letters
    outside ASCII: what is stated of [lower] is stated for ASCII
    strings. *)
Definition lower (c : ascii) : ascii :=
  if isUpper c then ascii_of_N (code c + 32) else c.

Fixpoint isOneOf (cs : string) (c : ascii) : bool :=
  match cs with
  | EmptyString => false
  | String c' cs' => Ascii.eqb c c' || isOneOf cs' c
  end.

Fixpoint all (p : ascii -> bool) (s : string) : bool :=
  match s with
  | EmptyString => true
  | String c s' => p c && all p s'
  end.

Fixpoint remove (p : ascii -> bool) (s : string) : string :=
  match s with
  | EmptyString => EmptyString
  | String c s' => if p c then remove p s' else String c (remove p s')
  end.

Fixpoint map (f : ascii -> ascii) (s : string) : string :=
  match s with
  | EmptyString => EmptyString
  | String c s' => String (f c) (map f s')
  end.

Fixpoint take (n : nat) (s : string) : string :=
  match n, s with
  | S n', String c s' => String c (take n' s')
  | _, _ => EmptyString
  end.

Fixpoint drop (n : nat) (s : string) : string :=
  match n, s with
  | S n', String _ s' => drop n' s'
  | _, _ => s
  end.

End Str.

(** [formatCol]: [input.replace(/\(| |\)|-/g, "").toLowerCase()], on
    strings of ASCII characters (see [Str.lower]). *)
Definition formatCol (input : string) : string :=
  Str.map Str.lower (Str.remove (Str.isOneOf "( )-") input).

(** The test [/^[A-Za-z0-9-+()&' ]*$/.test(name)] of [getUsersToBeNotified]:
    every character is a letter, a digit or one of [-+()&' ]. *)
Definition allowedChar (c : ascii) : bool :=
  Str.isUpper c || Str.isLower c || Str.isDigit c || Str.isOneOf "-+()&' " c.

Definition allowedCharsPattern (name : string) : bool := Str.all allowedChar name.

(** ** Constants ([constants/index.tsx], [constants/db]) *)

Definition GEAR_TYPES : list string :=
  ["HeadGear"; "ClothingGear"; "ShoesGear"]%string.

Definition GEAR_BRANDS : list string :=
  ["Annaki"; "Barazushi"; "Emberz"; "Enperry"; "Firefin"; "Forge"; "Inkline";
   "Krak-On"; "Rockenberg"; "Skalop"; "Splash Mob"; "SquidForce"; "Takoroka";
   "Tentatek"; "Toni Kensa"; "Zekko"; "Zink"]%string.

Definition GEAR_ABILITIES : list string :=
  ["Ink Saver (Main)"; "Ink Saver (Sub)"; "Ink Recovery Up"; "Run Speed Up";
   "Swim Speed Up"; "Special Charge Up"; "Special Saver"; "Special Power Up";
   "Quick Respawn"; "Quick Super Jump"; "Sub Power Up"; "Ink Resistance Up";
   "Sub Resistance Up"; "Intensify Action"; "Opening Gambit";
   "Last-Ditch Effort"; "Tenacity"; "Comeback"; "Ninja Squid"; "Haunt";
   "Thermal Ink"; "Respawn Punisher"; "Stealth Jump"; "Object Shredder";
   "Drop Roller"]%string.

Definition DB_GEAR_TYPE_WILDCARD : string := "typewildcard".
Definition DB_GEAR_BRAND_WILDCARD : string := "brandwildcard".
Definition DB_GEAR_ABILITY_WILDCARD : string := "abilitywildcard".

Definition MILLISECONDS_PER_SECOND : Z := 1000.

(** ** Data *)

(** A gear item.  The class lives in [lib/gear], which is not part of the
    sources at hand; the fields are the ones the handler and the matcher
    read. *)
Record Gear := {
  g_id : string;
  g_name : string;
  g_brand : string;
  g_type : string;
  g_ability : string;
  g_rarity : Z;
  g_expiration : Z;
  g_image : string
}.

(** A filter as the front end builds it ([lib/filter], constructor
    [Filter(name, rarity, types, brands, abilities)]); an empty array means
    "any". *)
Record Filter := {
  gearName : string;
  minimumRarity : Z;
  gearTypes : list string;
  gearBrands : list string;
  gearAbilities : list string
}.

(** A row of the [Filters] table: the scalar columns and the boolean
    columns, one per formatted type, ability and brand name. *)
Record FilterRow := {
  f_name : string;
  f_rarity : Z;
  f_typewildcard : bool;
  f_abilitywildcard : bool;
  f_brandwildcard : bool;
  f_flags : gmap string bool
}.

Record UserRow := {
  u_userid : Z;
  u_usercode : string;
  u_lastnotifiedexpiration : option Z
}.

(** A push subscription ([lib/notifications]). *)
Record Subscription := {
  endpoint : string;
  expirationTime : string;
  key_auth : string;
  key_p256dh : string
}.

Record SubscriptionRow := {
  s_userid : Z;
  s_subscription : Subscription
}.

(** The raw gear data of the cache and of the API is JSON text. *)
Definition RawGearData := string.

Record DB := {
  users : list UserRow;
  filters : list (Z * FilterRow);          (* filterid, row *)
  usersToFilters : list (Z * Z);           (* userid, filterid *)
  subscriptions : list SubscriptionRow;
  serverCache : option RawGearData
}.

Definition with_users (db : DB) (us : list UserRow) : DB :=
  {| users := us; filters := filters db; usersToFilters := usersToFilters db;
     subscriptions := subscriptions db; serverCache := serverCache db |}.

Definition with_subscriptions (db : DB) (ss : list SubscriptionRow) : DB :=
  {| users := users db; filters := filters db; usersToFilters := usersToFilters db;
     subscriptions := ss; serverCache := serverCache db |}.

Definition with_serverCache (db : DB) (c : option RawGearData) : DB :=
  {| users := users db; filters := filters db; usersToFilters := usersToFilters db;
     subscriptions := subscriptions db; serverCache := c |}.

(** ** JavaScript [Map<number, V>] *)

Module JsMap.

Definition t (V : Type) := list (Z * V).

(** [m.set(k, v)]: an existing key keeps its place. *)
Fixpoint set {V} (k : Z) (v : V) (m : t V) : t V :=
  match m with
  | [] => [(k, v)]
  | (k', v') :: m' =>
      if decide (k = k') then (k, v) :: m' else (k', v') :: set k v m'
  end.

(** [m.has(k)] *)
Definition has {V} (k : Z) (m : t V) : bool := bool_decide (k ∈ m.*1).

(** [new Map(entries)] *)
Definition ofEntries {V} (entries : list (Z * V)) : t V :=
  foldl (fun m e => set e.1 e.2 m) [] entries.

End JsMap.

(** ** Filters in the database ([lib/database_utils]) *)

Definition arrayEqual (arr1 arr2 : list string) : bool := bool_decide (arr1 = arr2).

(** The loops [data[formatCol(x)] = selected.includes(x)] of
    [filterToTableData]. *)
Definition setFlags (names selected : list string) (data : gmap string bool)
  : gmap string bool :=
  foldl (fun d x => <[formatCol x := bool_decide (x ∈ selected)]> d) data names.

(** [`'${s}'`]: the text of a string constant. *)
Definition sqlQuote (s : string) : string := "'" +:+ s +:+ "'".

(** [filterToTableData]: the values that [getMatchingFilterID] and
    [tryAddFilter] splice into the text of their queries.  The name is the
    text of a string constant; a number and a boolean are spliced as they
    print. *)
Definition filterToTableData (filter : Filter) : FilterRow :=
  {| f_name := sqlQuote (gearName filter);
     f_rarity := minimumRarity filter;
     f_typewildcard := arrayEqual (gearTypes filter) [];
     f_abilitywildcard := arrayEqual (gearAbilities filter) [];
     f_brandwildcard := arrayEqual (gearBrands filter) [];
     f_flags :=
       setFlags GEAR_TYPES (gearTypes filter)
         (setFlags GEAR_BRANDS (gearBrands filter)
            (setFlags GEAR_ABILITIES (gearAbilities filter) ∅)) |}.

(** How Postgres reads the text spliced for the name.  Between two
    apostrophes a text without an apostrophe is a string constant, and its
    value is that text.  With an apostrophe inside, the constant ends
    early and what follows is read as SQL: Postgres refuses the query or
    runs another one.  That case is not modelled: the result is [None],
    and the functions below take it as a query that is refused.  A query
    with the character of code 0 in it is refused. *)
Definition sqlChar (c : ascii) : bool :=
  negb (Ascii.eqb c "'"%char) && negb (Ascii.eqb c zero).

Definition sqlPlain (s : string) : bool := Str.all sqlChar s.

Fixpoint constantBody (s : string) : option string :=
  match s with
  | EmptyString => None
  | String c s' =>
      if Ascii.eqb c "'"%char
      then match s' with EmptyString => Some EmptyString | _ => None end
      else if Ascii.eqb c zero then None
      else String c <$> constantBody s'
  end.

Definition stringConstant (text : string) : option string :=
  match text with
  | String c s => if Ascii.eqb c "'"%char then constantBody s else None
  | EmptyString => None
  end.

(** The range of the column type [int2] of [minimumrarity]. *)
Definition int2 (n : Z) : bool := (-32768 <=? n) && (n <=? 32767).

Definition withName (name : string) (row : FilterRow) : FilterRow :=
  {| f_name := name; f_rarity := f_rarity row; f_typewildcard := f_typewildcard row;
     f_abilitywildcard := f_abilitywildcard row; f_brandwildcard := f_brandwildcard row;
     f_flags := f_flags row |}.

(** What a column of type [varchar(255)] stores for a value: the value
    when it has at most 255 characters; the first 255 characters when the
    characters after them are all spaces; a longer value is refused. *)
Definition varchar255 (value : string) : option string :=
  if (String.length value <=? 255)%nat then Some value
  else if Str.all (Ascii.eqb " "%char) (Str.drop 255 value)
       then Some (Str.take 255 value)
       else None.

(** The row that [INSERT INTO Filters (columns) VALUES (values)] adds for
    the values of [filterToTableData]: the name is what [varchar(255)]
    stores for the value of the string constant, and the rarity has to fit
    [int2].  [None]: the query is refused. *)
Definition insertedRow (data : FilterRow) : option FilterRow :=
  match stringConstant (f_name data) with
  | Some value =>
      match varchar255 value with
      | Some name => if int2 (f_rarity data) then Some (withName name data) else None
      | None => None
      end
  | None => None
  end.

(** The row of the table for a filter whose name is stored as it is. *)
Definition storedRow (filter : Filter) : FilterRow :=
  withName (gearName filter) (filterToTableData filter).

(** The boolean columns of the [Filters] table, as [setupDatabaseTables]
    creates them. *)
Definition filterBoolColumns : list string :=
  [DB_GEAR_TYPE_WILDCARD; DB_GEAR_BRAND_WILDCARD; DB_GEAR_ABILITY_WILDCARD]
  ++ (formatCol <$> (GEAR_TYPES ++ GEAR_ABILITIES ++ GEAR_BRANDS)).

(** The value of a boolean column in a row; a missing value is NULL, which
    the [WHERE] clause below treats as false. *)
Definition columnValue (row : FilterRow) (col : string) : bool :=
  if decide (col = DB_GEAR_TYPE_WILDCARD) then f_typewildcard row
  else if decide (col = DB_GEAR_BRAND_WILDCARD) then f_brandwildcard row
  else if decide (col = DB_GEAR_ABILITY_WILDCARD) then f_abilitywildcard row
  else default false (f_flags row !! col).

(** The texts [formatCol(gear.ability)], [formatCol(gear.type)] and
    [formatCol(gear.brand)] are spliced where the query expects a boolean.
    Postgres reads the name of a boolean column of the table as the value
    of the column, and [true], [false] and [null] as constants. *)
Definition sqlConstants : list string := ["true"; "false"; "null"]%string.

Definition sqlBoolean (text : string) : bool :=
  bool_decide (text ∈ filterBoolColumns ++ sqlConstants).

(** A word: letters only, at least one. *)
Definition sqlWord (text : string) : bool :=
  negb (bool_decide (text = ""%string)) && Str.all Str.isLower text.

(** The value of a spliced text in a row; NULL counts as false in the
    [WHERE] clause. *)
Definition splicedValue (row : FilterRow) (text : string) : bool :=
  if decide (text = "true"%string) then true
  else if decide (text ∈ sqlConstants) then false
  else columnValue row text.

(** The [WHERE] clause of the [matchingFilters] sub-query. *)
Definition matchingFilter (gear : Gear) (row : FilterRow) : bool :=
  (f_rarity row <=? g_rarity gear)
  && (bool_decide (f_name row = ""%string) || bool_decide (f_name row = g_name gear))
  && (f_abilitywildcard row || splicedValue row (formatCol (g_ability gear)))
  && (f_typewildcard row || splicedValue row (formatCol (g_type gear)))
  && (f_brandwildcard row || splicedValue row (formatCol (g_brand gear))).

(** When one of the three spliced texts is neither a boolean column nor a
    constant, the query is refused.  That is what Postgres does with a
    word ([sqlWord]): there is no such column, or the word names something
    that is not a boolean, or it is a keyword out of place.  A text with
    other characters is SQL that is not modelled; it is taken as refused
    as well, and the statements that rest on a refusal ask for words. *)
Definition queryWellFormed (gear : Gear) : bool :=
  sqlBoolean (formatCol (g_ability gear))
  && sqlBoolean (formatCol (g_type gear))
  && sqlBoolean (formatCol (g_brand gear)).

Inductive Error := IllegalArgumentError | QueryError.

(** How the promise returned by an [async] function ends. *)
Inductive Promise (A : Type) :=
  | Fulfilled (a : A)
  | Rejected (e : Error).
Arguments Fulfilled {A} a.
Arguments Rejected {A} e.

(** [SELECT DISTINCT ON (userid)]: Postgres sorts the rows by [userid] to
    keep one row per user, and returns them in that order. *)
Fixpoint insertByUserid (r : UserRow) (rows : list UserRow) : list UserRow :=
  match rows with
  | [] => [r]
  | r' :: rows' =>
      if u_userid r <=? u_userid r' then r :: r' :: rows'
      else r' :: insertByUserid r rows'
  end.

Definition sortByUserid (rows : list UserRow) : list UserRow :=
  foldr insertByUserid [] rows.

(** [getUsersToBeNotified]: the users that own a filter matching the gear,
    as a map from user id to user code, in the order of the user ids. *)
Definition getUsersToBeNotified (db : DB) (gear : Gear) : Promise (JsMap.t string) :=
  if negb (allowedCharsPattern (g_name gear)) then Rejected IllegalArgumentError
  else if negb (queryWellFormed gear) then Rejected QueryError
  else
    let matchingFilters :=
      (filter (fun fr => matchingFilter gear fr.2 = true) (filters db)).*1 in
    let matchingUserIDs :=
      (filter (fun p => p.2 ∈ matchingFilters) (usersToFilters db)).*1 in
    let rows :=
      sortByUserid (filter (fun r => u_userid r ∈ matchingUserIDs) (users db)) in
    Fulfilled (foldl (fun m r => JsMap.set (u_userid r) (u_usercode r) m) [] rows).

(** ** Users, subscriptions and the cache *)

(** [getLastNotifiedExpiration]: -1 without a row or with NULL. *)
Definition getLastNotifiedExpiration (db : DB) (userID : Z) : Z :=
  match filter (fun r => u_userid r = userID) (users db) with
  | r :: _ => default (-1) (u_lastnotifiedexpiration r)
  | [] => -1
  end.

(** [updateLastNotifiedExpiration]: [UPDATE Users SET ... WHERE userid = $2]. *)
Definition updateLastNotifiedExpiration (db : DB) (userID latestExpiration : Z) : DB :=
  with_users db
    ((fun r => if decide (u_userid r = userID)
               then {| u_userid := u_userid r; u_usercode := u_usercode r;
                       u_lastnotifiedexpiration := Some latestExpiration |}
               else r) <$> users db).

Definition getUserSubscriptions (db : DB) (userID : Z) : list Subscription :=
  s_subscription <$> filter (fun r => s_userid r = userID) (subscriptions db).

(** [deletePushSubscription]: every row with the endpoint, whoever owns it. *)
Definition deletePushSubscription (db : DB) (subscription : Subscription) : DB :=
  with_subscriptions db
    (filter (fun r => endpoint (s_subscription r) ≠ endpoint subscription)
       (subscriptions db)).

(** [fetchCachedRawGearData] and [updateCachedRawGearData] are in
    [lib/gear_loader], which is not at hand; they read and write the one
    cache entry through [getCachedData] and [setCachedData]. *)
Definition fetchCachedRawGearData (db : DB) : option RawGearData := serverCache db.

Definition updateCachedRawGearData (db : DB) (raw : RawGearData) : DB :=
  with_serverCache db (Some raw).

(** The rest of [lib/gear_loader], taken as an interface:
    [rawGearDataToGearList] ([None] when it throws) and [getNewGearItems]. *)
Class GearLoader := {
  rawGearDataToGearList : RawGearData -> option (list Gear);
  getNewGearItems : list Gear -> list Gear -> list Gear
}.

(** ** The handler's helpers ([pages/api/check-and-notify.ts]) *)

(** [Map<Gear, Map<number, string>>], keyed by object identity: the gear
    objects of one cycle are distinct, so the map is the list of its
    entries in insertion order. *)
Definition GearToUsers := list (Gear * JsMap.t string).

Definition getUserGear (gearToUsers : GearToUsers) (userID : Z) : list Gear :=
  (filter (fun e => JsMap.has userID e.2 = true) gearToUsers).*1.

Definition aggregateUsers (gearToUserMap : GearToUsers) : JsMap.t string :=
  foldl (fun allUserMap userMap => JsMap.ofEntries (allUserMap ++ userMap))
    [] (gearToUserMap.*2).

(** Replies arrive in the order of their latencies; equal latencies keep
    the order of the requests. *)
Fixpoint insertBy {A} (key : A -> nat) (x : A) (l : list A) : list A :=
  match l with
  | [] => [x]
  | y :: l' => if (key y <=? key x)%nat then y :: insertBy key x l' else x :: y :: l'
  end.

Definition arrivalOrder {A} (key : A -> nat) (l : list A) : list A :=
  foldl (fun acc x => insertBy key x acc) [] l.

(** [getUsersToNotify].  Each lookup is wrapped in [new Promise]; the
    wrapper resolves in the [then] of the lookup.  A lookup that rejects
    (it is an [async] function, so its errors are rejections and do not
    reach the [catch] around the call) leaves its wrapper pending for ever,
    and so [Promise.all]: the result is [None].  [latency i] is the time
    the i-th lookup takes. *)
Definition getUsersToNotify (db : DB) (newGear : list Gear) (latency : nat -> nat)
  : option GearToUsers :=
  let lookups := imap (fun i gear => (latency i, gear, getUsersToBeNotified db gear)) newGear in
  foldr (fun l acc =>
           match l.2, acc with
           | Fulfilled value, Some m => Some ((l.1.2, value) :: m)
           | _, _ => None
           end)
        (Some []) (arrivalOrder (fun l => l.1.1) lookups).

Record NotificationOptions := { TTL : Z }.

(** [generateNotificationOptions]; [now] is the value of [Date.now()]. *)
Definition generateNotificationOptions (now : Z) (gear : Gear) : NotificationOptions :=
  let timeDiffMilliseconds := g_expiration gear - now in
  let timeDiffSeconds := timeDiffMilliseconds / MILLISECONDS_PER_SECOND in
  {| TTL := timeDiffSeconds |}.

(** [generateNotificationPayload], without the URL fields, which are
    constants of the deployment. *)
Record Payload := {
  p_title : string;
  p_body : string;
  p_iconURL : string;
  p_gearID : string;
  p_userCode : string;
  p_tag : string;
  p_expiration : Z
}.

Definition generateNotificationPayload (userCode : string) (gear : Gear) : Payload :=
  {| p_title := "Now on SplatNet!";
     p_body := g_name gear +:+ ": " +:+ g_ability gear;
     p_iconURL := g_image gear;
     p_gearID := g_id gear;
     p_userCode := userCode;
     p_tag := g_id gear;
     p_expiration := g_expiration gear |}.

(** ** The dispatch loop as a state machine *)

(** What [webpush.sendNotification] answers. *)
Inductive PushOutcome :=
  | Delivered
  | WebPushError (statusCode : Z)
  | OtherError.

(** Where one call of [trySendNotification] stands.  [Returned true] is a
    result of the push service, [Returned false] is [undefined] (after the
    subscription was deleted), [Threw] a rejection. *)
Inductive SendPhase :=
  | AwaitPush
  | AwaitDelete
  | Returned (result : bool)
  | Threw.

Definition permanentFailure (statusCode : Z) : bool :=
  (statusCode =? 404) || (statusCode =? 410) || (statusCode =? 403).

(** The [try]/[catch] of [trySendNotification], once the push service has
    answered. *)
Definition trySendNotification (outcome : PushOutcome) : SendPhase :=
  match outcome with
  | Delivered => Returned true
  | WebPushError statusCode =>
      if permanentFailure statusCode then AwaitDelete else Threw
  | OtherError => Threw
  end.

Record Send := {
  sd_subscription : Subscription;
  sd_notification : Payload;
  sd_options : NotificationOptions;
  sd_phase : SendPhase
}.

Definition withPhase (s : Send) (ph : SendPhase) : Send :=
  {| sd_subscription := sd_subscription s; sd_notification := sd_notification s;
     sd_options := sd_options s; sd_phase := ph |}.

(** One entry of [promises]:
    [Promise.all(notificationPromises).then(() => updateLastNotifiedExpiration(..))]. *)
Inductive TaskState := Pending | Resolved | Failed.

Record Task := {
  t_userID : Z;
  t_latestExpiration : Z;
  t_sends : list Send;
  t_state : TaskState
}.

Definition withSends (t : Task) (sends : list Send) : Task :=
  {| t_userID := t_userID t; t_latestExpiration := t_latestExpiration t;
     t_sends := sends; t_state := t_state t |}.

Definition withState (t : Task) (s : TaskState) : Task :=
  {| t_userID := t_userID t; t_latestExpiration := t_latestExpiration t;
     t_sends := t_sends t; t_state := s |}.

(** What the request does to the outside, in order. *)
Inductive Event :=
  | EvFetchAPI
  | EvPush (userID : Z) (endpoint : string) (gearID : string) (ttl : Z)
  | EvDeleteIssued (endpoint : string)
  | EvDeleteStored (endpoint : string)
  | EvWatermarkIssued (userID expiration : Z)
  | EvWatermarkStored (userID expiration : Z)
  | EvSnapshotIssued
  | EvSnapshotStored.

(** The [await] at which the handler stands. *)
Inductive PC :=
  | AwaitUsersToNotify
  | AwaitLastNotified (userID : Z) (notifications : list (Payload * NotificationOptions))
      (latestExpiration : Z) (rest : list (Z * string))
  | AwaitSubscriptions (userID : Z) (notifications : list (Payload * NotificationOptions))
      (latestExpiration : Z) (rest : list (Z * string))
  | AwaitAll
  | AwaitCacheUpdate
  | CacheUpdated
  | Responded (status : Z).

Record Counters := {
  numAlreadyNotified : nat;
  numNoSubscriber : nat;
  devicesNotified : nat;
  devicesFailed : nat
}.

Record State := {
  st_db : DB;
  st_pc : PC;
  st_promises : list Task;
  st_updates : list (Z * Z);      (* calls of updateLastNotifiedExpiration in flight *)
  st_trace : list Event;
  st_counters : Counters
}.

(** What stays fixed during the loop. *)
Record Cycle := {
  gearToUserMap : GearToUsers;
  fetchedRawGearData : RawGearData
}.

Definition setDb (db : DB) (st : State) : State :=
  {| st_db := db; st_pc := st_pc st; st_promises := st_promises st;
     st_updates := st_updates st; st_trace := st_trace st; st_counters := st_counters st |}.

Definition setPc (pc : PC) (st : State) : State :=
  {| st_db := st_db st; st_pc := pc; st_promises := st_promises st;
     st_updates := st_updates st; st_trace := st_trace st; st_counters := st_counters st |}.

Definition setPromises (ps : list Task) (st : State) : State :=
  {| st_db := st_db st; st_pc := st_pc st; st_promises := ps;
     st_updates := st_updates st; st_trace := st_trace st; st_counters := st_counters st |}.

Definition setUpdates (us : list (Z * Z)) (st : State) : State :=
  {| st_db := st_db st; st_pc := st_pc st; st_promises := st_promises st;
     st_updates := us; st_trace := st_trace st; st_counters := st_counters st |}.

Definition logEvents (es : list Event) (st : State) : State :=
  {| st_db := st_db st; st_pc := st_pc st; st_promises := st_promises st;
     st_updates := st_updates st; st_trace := st_trace st ++ es; st_counters := st_counters st |}.

Definition setCounters (c : Counters) (st : State) : State :=
  {| st_db := st_db st; st_pc := st_pc st; st_promises := st_promises st;
     st_updates := st_updates st; st_trace := st_trace st; st_counters := c |}.

Definition alreadyNotified (c : Counters) : Counters :=
  {| numAlreadyNotified := S (numAlreadyNotified c); numNoSubscriber := numNoSubscriber c;
     devicesNotified := devicesNotified c; devicesFailed := devicesFailed c |}.

Definition noSubscriber (c : Counters) : Counters :=
  {| numAlreadyNotified := numAlreadyNotified c; numNoSubscriber := S (numNoSubscriber c);
     devicesNotified := devicesNotified c; devicesFailed := devicesFailed c |}.

Definition notified (n : nat) (c : Counters) : Counters :=
  {| numAlreadyNotified := numAlreadyNotified c; numNoSubscriber := numNoSubscriber c;
     devicesNotified := (n + devicesNotified c)%nat; devicesFailed := devicesFailed c |}.

Definition failed (c : Counters) : Counters :=
  {| numAlreadyNotified := numAlreadyNotified c; numNoSubscriber := numNoSubscriber c;
     devicesNotified := devicesNotified c; devicesFailed := S (devicesFailed c) |}.

Definition isReturned (s : Send) : bool :=
  match sd_phase s with Returned _ => true | _ => false end.

Definition isThrew (s : Send) : bool :=
  match sd_phase s with Threw => true | _ => false end.

(** [Promise.all(notificationPromises).then(...)] after one of the sends
    has moved: it rejects with the first send that throws, and once every
    send has returned the callback calls [updateLastNotifiedExpiration]
    and returns without waiting for it. *)
Definition settle (t : Task) : Task * list (Z * Z) :=
  match t_state t with
  | Pending =>
      if existsb isThrew (t_sends t) then (withState t Failed, [])
      else if forallb isReturned (t_sends t)
           then (withState t Resolved, [(t_userID t, t_latestExpiration t)])
           else (t, [])
  | _ => (t, [])
  end.

Definition issued (us : list (Z * Z)) : list Event :=
  (fun u => EvWatermarkIssued u.1 u.2) <$> us.

(** The task at index [j] after its sends were replaced. *)
Definition updateTask (j : nat) (t : Task) (sends : list Send) (st : State) : State :=
  let '(t', us) := settle (withSends t sends) in
  logEvents (issued us)
    (setUpdates (st_updates st ++ us) (setPromises (<[j := t']> (st_promises st)) st)).

(** The head of the [for] loop, up to its first [await]: the notifications
    of the next user and the expiration of the last gear item.  An empty
    [userGear] makes [userGear[userGear.length - 1].expiration] throw,
    which the handler's [catch] turns into a 500. *)
Definition nextUser (cy : Cycle) (now : Z) (rest : list (Z * string)) (st : State) : State :=
  match rest with
  | [] => setPc AwaitAll st
  | (userID, userCode) :: rest' =>
      let userGear := getUserGear (gearToUserMap cy) userID in
      let notifications :=
        (fun gear => (generateNotificationPayload userCode gear,
                      generateNotificationOptions now gear)) <$> userGear in
      match last userGear with
      | None => setPc (Responded 500) st
      | Some gear =>
          setPc (AwaitLastNotified userID notifications (g_expiration gear) rest') st
      end
  end.

(** The sends of one user: for every subscription, one per notification. *)
Definition startSends (subs : list Subscription)
    (notifications : list (Payload * NotificationOptions)) : list Send :=
  subs ≫= fun subscription =>
    (fun n => {| sd_subscription := subscription; sd_notification := n.1;
                 sd_options := n.2; sd_phase := AwaitPush |}) <$> notifications.

Definition pushed (userID : Z) (sends : list Send) : list Event :=
  (fun s => EvPush userID (endpoint (sd_subscription s)) (p_gearID (sd_notification s))
              (TTL (sd_options s))) <$> sends.

Definition isFailed (t : Task) : bool :=
  match t_state t with Failed => true | _ => false end.

Definition isResolved (t : Task) : bool :=
  match t_state t with Resolved => true | _ => false end.

(** The handler's own continuation, resumed at time [now]. *)
Definition main (cy : Cycle) (now : Z) (st : State) : State :=
  match st_pc st with
  | AwaitUsersToNotify => st
  | AwaitLastNotified userID notifications latestExpiration rest =>
      if latestExpiration <=? getLastNotifiedExpiration (st_db st) userID
      then nextUser cy now rest (setCounters (alreadyNotified (st_counters st)) st)
      else setPc (AwaitSubscriptions userID notifications latestExpiration rest) st
  | AwaitSubscriptions userID notifications latestExpiration rest =>
      let userSubscriptions := getUserSubscriptions (st_db st) userID in
      match userSubscriptions with
      | [] => nextUser cy now rest (setCounters (noSubscriber (st_counters st)) st)
      | _ =>
          let sends := startSends userSubscriptions notifications in
          let task := {| t_userID := userID; t_latestExpiration := latestExpiration;
                         t_sends := sends; t_state := Pending |} in
          let st1 := setCounters (notified (length userSubscriptions) (st_counters st))
                       (logEvents (pushed userID sends)
                          (setPromises (st_promises st ++ [task]) st)) in
          nextUser cy now rest (updateTask (length (st_promises st)) task sends st1)
      end
  | AwaitAll =>
      if existsb isFailed (st_promises st) then setPc (Responded 500) st
      else if forallb isResolved (st_promises st)
           then setPc AwaitCacheUpdate (logEvents [EvSnapshotIssued] st)
           else st
  | AwaitCacheUpdate => st
  | CacheUpdated => setPc (Responded 200) st
  | Responded _ => st
  end.

(** What can happen next: the handler resumes, the push service answers
    send [i] of task [j], the database performs the DELETE that send is
    waiting for, the database performs the [k]-th UPDATE in flight, or the
    database performs the write of the cache entry that the handler is
    waiting for. *)
Inductive Choice :=
  | Main (now : Z)
  | PushReplies (j i : nat) (outcome : PushOutcome)
  | DbDeletes (j i : nat)
  | DbUpdates (k : nat)
  | DbCaches.

Definition step (cy : Cycle) (c : Choice) (st : State) : State :=
  match c with
  | Main now => main cy now st
  | PushReplies j i outcome =>
      match st_promises st !! j with
      | Some t =>
          match t_sends t !! i with
          | Some s =>
              match sd_phase s with
              | AwaitPush =>
                  let ph := trySendNotification outcome in
                  let ev := match ph with
                            | AwaitDelete => [EvDeleteIssued (endpoint (sd_subscription s))]
                            | _ => []
                            end in
                  updateTask j t (<[i := withPhase s ph]> (t_sends t)) (logEvents ev st)
              | _ => st
              end
          | None => st
          end
      | None => st
      end
  | DbDeletes j i =>
      match st_promises st !! j with
      | Some t =>
          match t_sends t !! i with
          | Some s =>
              match sd_phase s with
              | AwaitDelete =>
                  let st1 :=
                    setCounters (failed (st_counters st))
                      (logEvents [EvDeleteStored (endpoint (sd_subscription s))]
                         (setDb (deletePushSubscription (st_db st) (sd_subscription s)) st)) in
                  updateTask j t (<[i := withPhase s (Returned false)]> (t_sends t)) st1
              | _ => st
              end
          | None => st
          end
      | None => st
      end
  | DbUpdates k =>
      match st_updates st !! k with
      | Some (userID, latestExpiration) =>
          setUpdates (delete k (st_updates st))
            (logEvents [EvWatermarkStored userID latestExpiration]
               (setDb (updateLastNotifiedExpiration (st_db st) userID latestExpiration) st))
      | None => st
      end
  | DbCaches =>
      match st_pc st with
      | AwaitCacheUpdate =>
          setPc CacheUpdated
            (logEvents [EvSnapshotStored]
               (setDb (updateCachedRawGearData (st_db st) (fetchedRawGearData cy)) st))
      | _ => st
      end
  end.

Definition exec (cy : Cycle) (sched : list Choice) (st : State) : State :=
  foldl (fun st c => step cy c st) st sched.

(** ** The handler *)

Record Env := {
  ACTION_SECRET : option string;          (* getEnvWithDefault(ENV_KEY_ACTION_SECRET, null) *)
  apiRawGearData : option RawGearData;    (* fetchAPIRawGearData(); None when it throws *)
  latency : nat -> nat;                   (* of the lookups of getUsersToNotify *)
  nowCheck : Z;                           (* Date.now() in the expiry test *)
  startTime : Z                           (* Date.now() when the loop starts *)
}.

Record Request := { authorization : option string }.

(** Step 0 of the handler: a missing or empty secret skips the check. *)
Definition authenticated (secretKey providedKey : option string) : bool :=
  match secretKey with
  | None => true
  | Some EmptyString => true
  | Some key => bool_decide (providedKey = Some key)
  end.

(** [cachedGear.length > 0 && Date.now() < cachedGear[0].expiration] *)
Definition cacheNotExpired (now : Z) (cachedGear : list Gear) : bool :=
  match cachedGear with
  | gear :: _ => now <? g_expiration gear
  | [] => false
  end.

Definition noCounters : Counters :=
  {| numAlreadyNotified := 0; numNoSubscriber := 0; devicesNotified := 0; devicesFailed := 0 |}.

Definition initial (db : DB) : State :=
  {| st_db := db; st_pc := AwaitUsersToNotify; st_promises := []; st_updates := [];
     st_trace := []; st_counters := noCounters |}.

(** Steps 0 to 4 of the handler, up to the first [await] of the loop.
    The result is the state reached and, when the loop was entered, the
    data of the cycle.  A state left at [AwaitUsersToNotify] is a request
    that never gets an answer. *)
Definition prepare `{GearLoader} (env : Env) (req : Request) (db : DB)
  : option Cycle * State :=
  let st := initial db in
  if negb (authenticated (ACTION_SECRET env) (authorization req))
  then (None, setPc (Responded 401) st)
  else
    let cached :=
      match fetchCachedRawGearData db with
      | None => Some []
      | Some cachedRawGearData => rawGearDataToGearList cachedRawGearData
      end in
    match cached with
    | None => (None, setPc (Responded 500) st)
    | Some cachedGear =>
        if cacheNotExpired (nowCheck env) cachedGear
        then (None, setPc (Responded 425) st)
        else
          let st1 := logEvents [EvFetchAPI] st in
          match apiRawGearData env with
          | None => (None, setPc (Responded 500) st1)
          | Some fetched =>
              match rawGearDataToGearList fetched with
              | None => (None, setPc (Responded 500) st1)
              | Some fetchedGear =>
                  let newGear := getNewGearItems cachedGear fetchedGear in
                  match getUsersToNotify db newGear (latency env) with
                  | None => (None, st1)
                  | Some gearToUsers =>
                      let cy := {| gearToUserMap := gearToUsers;
                                   fetchedRawGearData := fetched |} in
                      (Some cy,
                       nextUser cy (startTime env) (aggregateUsers gearToUsers) st1)
                  end
              end
          end
    end.

(** One request, with the schedule of what happens after the loop is
    entered. *)
Definition handler `{GearLoader} (env : Env) (req : Request) (db : DB)
    (sched : list Choice) : State :=
  match prepare env req db with
  | (Some cy, st) => exec cy sched st
  | (None, st) => st
  end.

Definition status (st : State) : option Z :=
  match st_pc st with
  | Responded s => Some s
  | _ => None
  end.

(** ** Several requests *)

(** Requests share the database and nothing else.  What a request has
    left in flight when it answers (the handler does not wait for its
    UPDATEs, and a failed request does not wait for anything) is still
    performed, possibly after a later request has arrived.  A move is the
    arrival of a request, which reads the database and runs up to the
    first [await] of its loop, or a choice for one of the requests that
    have arrived, taken on the database as it is then. *)
Inductive Move :=
  | Arrives (env : Env) (req : Request)
  | Acts (r : nat) (c : Choice).

Record System := {
  sys_db : DB;
  sys_requests : list (option Cycle * State)
}.

Definition boot (db : DB) : System := {| sys_db := db; sys_requests := [] |}.

Definition move `{GearLoader} (sys : System) (m : Move) : System :=
  match m with
  | Arrives env req =>
      {| sys_db := sys_db sys;
         sys_requests := sys_requests sys ++ [prepare env req (sys_db sys)] |}
  | Acts r c =>
      match sys_requests sys !! r with
      | Some (Some cy, st) =>
          let st' := step cy c (setDb (sys_db sys) st) in
          {| sys_db := st_db st';
             sys_requests := <[r := (Some cy, st')]> (sys_requests sys) |}
      | _ => sys
      end
  end.

Definition run `{GearLoader} (moves : list Move) (sys : System) : System :=
  foldl move sys moves.

(** Requests that do not overlap: every choice is for the request that
    arrived last ([n] requests have arrived so far). *)
Fixpoint serial (n : nat) (moves : list Move) : Prop :=
  match moves with
  | [] => True
  | Arrives _ _ :: moves' => serial (S n) moves'
  | Acts r _ :: moves' => S r = n /\ serial n moves'
  end.

(** ** Predicates of the statements *)

(** No row of [Subscriptions] has the endpoint. *)
Definition unsubscribed (ep : string) (db : DB) : Prop :=
  Forall (fun r => endpoint (s_subscription r) ≠ ep) (subscriptions db).

Definition isPushTo (userID : Z) (e : Event) : Prop :=
  match e with
  | EvPush u _ _ _ => u = userID
  | _ => False
  end.

Definition isWatermarkIssued (e : Event) : Prop :=
  match e with
  | EvWatermarkIssued _ _ => True
  | _ => False
  end.

Definition isWatermarkStored (e : Event) : Prop :=
  match e with
  | EvWatermarkStored _ _ => True
  | _ => False
  end.

(** Every event of the trace that satisfies [P] comes before the first
    occurrence of [e]. *)
Definition allBefore (P : Event -> Prop) (e : Event) (trace : list Event) : Prop :=
  forall l1 l2, trace = l1 ++ e :: l2 -> Forall (fun x => ~ P x) l2.

(** The expiration the handler takes as the watermark of the batch of a
    user: that of the last gear item matched for the user. *)
Definition latestExpiration (cy : Cycle) (userID : Z) : option Z :=
  g_expiration <$> last (getUserGear (gearToUserMap cy) userID).

(** The matching rule in the words of the specification. *)
Definition filterAdmits (filter : Filter) (gear : Gear) : Prop :=
  minimumRarity filter <= g_rarity gear
  /\ (gearName filter = ""%string \/ gearName filter = g_name gear)
  /\ (gearTypes filter = [] \/ g_type gear ∈ gearTypes filter)
  /\ (gearBrands filter = [] \/ g_brand gear ∈ gearBrands filter)
  /\ (gearAbilities filter = [] \/ g_ability gear ∈ gearAbilities filter).

(** ** Invariants of the loop *)

Definition committing (pc : PC) : Prop :=
  pc = AwaitCacheUpdate \/ pc = CacheUpdated \/ pc = Responded 200.

Definition isCommit (e : Event) : Prop := e = EvSnapshotIssued \/ e = EvSnapshotStored.

(** Tasks and the answer: the cache is written only once every task has
    resolved, and a resolved task has all its sends returned. *)
Definition settled (st : State) : Prop :=
  (committing (st_pc st) -> Forall (fun t => t_state t = Resolved) (st_promises st))
  /\ Forall (fun t => t_state t = Resolved -> Forall (fun s => isReturned s = true) (t_sends t))
       (st_promises st).

Definition ordered (st : State) : Prop :=
  (forall e, isCommit e -> e ∈ st_trace st -> committing (st_pc st))
  /\ forall e, isCommit e -> allBefore isWatermarkIssued e (st_trace st).

(** Where the loop stands after [nextUser]. *)
Definition NextPc (cy : Cycle) (rest : list (Z * string)) (pc : PC) : Prop :=
  (rest = [] /\ pc = AwaitAll)
  \/ pc = Responded 500
  \/ exists u code ns l rest',
       rest = (u, code) :: rest' /\ pc = AwaitLastNotified u ns l rest'
       /\ latestExpiration cy u = Some l.

Definition sendEvents (s : Send) (ph : SendPhase) : list Event :=
  match ph with
  | AwaitDelete => [EvDeleteIssued (endpoint (sd_subscription s))]
  | Returned false => [EvDeleteStored (endpoint (sd_subscription s))]
  | _ => []
  end.

(** The steps of the machine, one constructor per branch of [step], as
    equations on the components of the state. *)
Inductive Trans (cy : Cycle) (st st' : State) : Prop :=
  | TrNone (Hst : st' = st)
  | TrSkip u ns l rest
      (Hpc : (st_pc st = AwaitLastNotified u ns l rest
              /\ l <= getLastNotifiedExpiration (st_db st) u)
             \/ (st_pc st = AwaitSubscriptions u ns l rest
                 /\ getUserSubscriptions (st_db st) u = []))
      (Hpc' : NextPc cy rest (st_pc st'))
      (Hdb : st_db st' = st_db st)
      (Hps : st_promises st' = st_promises st)
      (Hus : st_updates st' = st_updates st)
      (Htr : st_trace st' = st_trace st)
  | TrCheck u ns l rest
      (Hpc : st_pc st = AwaitLastNotified u ns l rest)
      (Hlt : getLastNotifiedExpiration (st_db st) u < l)
      (Hpc' : st_pc st' = AwaitSubscriptions u ns l rest)
      (Hdb : st_db st' = st_db st)
      (Hps : st_promises st' = st_promises st)
      (Hus : st_updates st' = st_updates st)
      (Htr : st_trace st' = st_trace st)
  | TrSend u ns l rest sends t' us
      (Hpc : st_pc st = AwaitSubscriptions u ns l rest)
      (Hsends : sends = startSends (getUserSubscriptions (st_db st) u) ns)
      (Hsettle : settle {| t_userID := u; t_latestExpiration := l; t_sends := sends;
                           t_state := Pending |} = (t', us))
      (Hpc' : NextPc cy rest (st_pc st'))
      (Hdb : st_db st' = st_db st)
      (Hps : st_promises st' = st_promises st ++ [t'])
      (Hus : st_updates st' = st_updates st ++ us)
      (Htr : st_trace st' = st_trace st ++ pushed u sends ++ issued us)
  | TrFail
      (Hpc : st_pc st = AwaitAll)
      (Hex : Exists (fun t => t_state t = Failed) (st_promises st))
      (Hpc' : st_pc st' = Responded 500)
      (Hdb : st_db st' = st_db st)
      (Hps : st_promises st' = st_promises st)
      (Hus : st_updates st' = st_updates st)
      (Htr : st_trace st' = st_trace st)
  | TrCommit
      (Hpc : st_pc st = AwaitAll)
      (Hall : Forall (fun t => t_state t = Resolved) (st_promises st))
      (Hpc' : st_pc st' = AwaitCacheUpdate)
      (Hdb : st_db st' = st_db st)
      (Hps : st_promises st' = st_promises st)
      (Hus : st_updates st' = st_updates st)
      (Htr : st_trace st' = st_trace st ++ [EvSnapshotIssued])
  | TrStored
      (Hpc : st_pc st = AwaitCacheUpdate)
      (Hpc' : st_pc st' = CacheUpdated)
      (Hdb : st_db st' = updateCachedRawGearData (st_db st) (fetchedRawGearData cy))
      (Hps : st_promises st' = st_promises st)
      (Hus : st_updates st' = st_updates st)
      (Htr : st_trace st' = st_trace st ++ [EvSnapshotStored])
  | TrAnswer
      (Hpc : st_pc st = CacheUpdated)
      (Hpc' : st_pc st' = Responded 200)
      (Hdb : st_db st' = st_db st)
      (Hps : st_promises st' = st_promises st)
      (Hus : st_updates st' = st_updates st)
      (Htr : st_trace st' = st_trace st)
  | TrSendMoves j i t s ph t' us
      (Hj : st_promises st !! j = Some t)
      (Hi : t_sends t !! i = Some s)
      (Hph : (sd_phase s = AwaitPush /\ (exists o, ph = trySendNotification o)
              /\ st_db st' = st_db st)
             \/ (sd_phase s = AwaitDelete /\ ph = Returned false
                 /\ st_db st' = deletePushSubscription (st_db st) (sd_subscription s)))
      (Hsettle : settle (withSends t (<[i := withPhase s ph]> (t_sends t))) = (t', us))
      (Hpc' : st_pc st' = st_pc st)
      (Hps : st_promises st' = <[j := t']> (st_promises st))
      (Hus : st_updates st' = st_updates st ++ us)
      (Htr : st_trace st' = st_trace st ++ sendEvents s ph ++ issued us)
  | TrUpdate k u x
      (Hk : st_updates st !! k = Some (u, x))
      (Hpc' : st_pc st' = st_pc st)
      (Hdb : st_db st' = updateLastNotifiedExpiration (st_db st) u x)
      (Hps : st_promises st' = st_promises st)
      (Hus : st_updates st' = delete k (st_updates st))
      (Htr : st_trace st' = st_trace st ++ [EvWatermarkStored u x]).

(** The state in which the loop is entered. *)
Definition Start (cy : Cycle) (db : DB) (st : State) : Prop :=
  st_db st = db /\ st_promises st = [] /\ st_updates st = []
  /\ st_trace st = [EvFetchAPI]
  /\ NextPc cy (aggregateUsers (gearToUserMap cy)) (st_pc st).

(** The state of a request that does not enter the loop. *)
Definition Idle (db : DB) (st : State) : Prop :=
  st_db st = db /\ st_promises st = [] /\ st_updates st = []
  /\ (st_trace st = [] \/ st_trace st = [EvFetchAPI])
  /\ ~ committing (st_pc st).

(** The cycle a request starts, when it gets as far as the loop. *)
Definition cycleOf `{GearLoader} (env : Env) (req : Request) (db : DB) : option Cycle :=
  (prepare env req db).1.

(** The expiration kept with the user in the loop is the one computed from
    the cycle's gear. *)
Definition coherent (cy : Cycle) (st : State) : Prop :=
  match st_pc st with
  | AwaitLastNotified u _ l _ | AwaitSubscriptions u _ l _ => latestExpiration cy u = Some l
  | _ => True
  end.

(** Nothing of the request concerns the user: no push, no task, no update
    in flight, and the stored expiration is the one of [db0]. *)
Definition untouched (db0 : DB) (userID : Z) (st : State) : Prop :=
  getLastNotifiedExpiration (st_db st) userID = getLastNotifiedExpiration db0 userID
  /\ Forall (fun e => ~ isPushTo userID e) (st_trace st)
  /\ Forall (fun t => t_userID t <> userID) (st_promises st)
  /\ Forall (fun w => w.1 <> userID) (st_updates st)
  /\ match st_pc st with
     | AwaitSubscriptions u _ _ _ => u <> userID
     | _ => True
     end.

(** [x] is the batch expiration of the user and is above what [db0] has
    stored for the user. *)
Definition raises (cy : Cycle) (db0 : DB) (u x : Z) : Prop :=
  latestExpiration cy u = Some x /\ getLastNotifiedExpiration db0 u < x.

Definition raisesEvent (cy : Cycle) (db0 : DB) (e : Event) : Prop :=
  match e with
  | EvWatermarkIssued u x | EvWatermarkStored u x => raises cy db0 u x
  | _ => True
  end.

Definition advancing (cy : Cycle) (db0 : DB) (st : State) : Prop :=
  (forall u, getLastNotifiedExpiration (st_db st) u = getLastNotifiedExpiration db0 u
             \/ raises cy db0 u (getLastNotifiedExpiration (st_db st) u))
  /\ Forall (fun w => raises cy db0 w.1 w.2) (st_updates st)
  /\ Forall (fun t => raises cy db0 (t_userID t) (t_latestExpiration t)) (st_promises st)
  /\ Forall (raisesEvent cy db0) (st_trace st)
  /\ match st_pc st with
     | AwaitSubscriptions u _ l _ => raises cy db0 u l
     | _ => True
     end.

Definition isPending (t : Task) : bool :=
  match t_state t with Pending => true | _ => false end.

(** The users the loop has still to deal with. *)
Definition waiting (pc : PC) : list Z :=
  match pc with
  | AwaitLastNotified u _ _ rest | AwaitSubscriptions u _ _ rest => u :: rest.*1
  | _ => []
  end.

Definition pendingUsers (ps : list Task) : list Z :=
  t_userID <$> filter (fun t => isPending t) ps.

(** The users for whom an UPDATE may still come: it is in flight, their
    task is pending, or the loop has not reached them. *)
Definition tickets (st : State) : list Z :=
  (st_updates st).*1 ++ pendingUsers (st_promises st) ++ waiting (st_pc st).

(** No user has two tickets, and every expiration about to be written is
    above the stored one. *)
Definition fresh (st : State) : Prop :=
  NoDup (tickets st)
  /\ Forall (fun w => getLastNotifiedExpiration (st_db st) w.1 < w.2) (st_updates st)
  /\ Forall (fun t => isPending t ->
                      getLastNotifiedExpiration (st_db st) (t_userID t) < t_latestExpiration t)
       (st_promises st)
  /\ match st_pc st with
     | AwaitSubscriptions u _ l _ => getLastNotifiedExpiration (st_db st) u < l
     | _ => True
     end.

(** Send [i] of task [j] goes to endpoint [ep] and is past a permanent
    failure: it waits for its DELETE, or it has returned and no row has
    the endpoint. *)
Definition pruning (j i : nat) (ep : string) (st : State) : Prop :=
  exists t s,
    st_promises st !! j = Some t /\ t_sends t !! i = Some s
    /\ endpoint (sd_subscription s) = ep
    /\ (sd_phase s = AwaitDelete
        \/ (sd_phase s = Returned false /\ unsubscribed ep (st_db st))).

(** The earliest expiration of a snapshot. *)
Definition earliestExpiration (snapshot : list Gear) : option Z :=
  match snapshot with
  | [] => None
  | gear :: rest => Some (foldr (fun g m => Z.min (g_expiration g) m) (g_expiration gear) rest)
  end.

(** The request that arrived last runs on the database of the system. *)
Definition lastRunsAlone (sys : System) : Prop :=
  forall cy st,
    sys_requests sys !! pred (length (sys_requests sys)) = Some (Some cy, st) ->
    st_db st = sys_db sys /\ fresh st.

(** ** Example data *)

Module Ex.

Definition hat : Gear :=
  {| g_id := "hat-1"; g_name := "Fresh Fish Head"; g_brand := "SquidForce";
     g_type := "HeadGear"; g_ability := "Ink Saver (Main)"; g_rarity := 1;
     g_expiration := 100000; g_image := "hat.png" |}.

Definition hoodie : Gear :=
  {| g_id := "hoodie-1"; g_name := "Annaki Flannel Hoodie"; g_brand := "Annaki";
     g_type := "ClothingGear"; g_ability := "Comeback"; g_rarity := 2;
     g_expiration := 200000; g_image := "hoodie.png" |}.

(** A name outside the allow-list (the full stop). *)
Definition jersey : Gear :=
  {| g_id := "jersey-1"; g_name := "Toni K. Baseball Jersey"; g_brand := "Toni Kensa";
     g_type := "ClothingGear"; g_ability := "Haunt"; g_rarity := 0;
     g_expiration := 200000; g_image := "jersey.png" |}.

(** An ability that has no column in the table. *)
Definition doubler : Gear :=
  {| g_id := "tee-1"; g_name := "Splatfest Tee"; g_brand := "SquidForce";
     g_type := "ClothingGear"; g_ability := "Ability Doubler"; g_rarity := 2;
     g_expiration := 200000; g_image := "tee.png" |}.

Definition catalog : list (RawGearData * list Gear) :=
  [("hat", [hat]); ("hat+hoodie", [hat; hoodie]); ("hat+jersey", [hat; jersey])]%string.

(** Modelled from the spec: [getNewGearItems] of [lib/gear_loader] is not
    at hand; by section 4.1 it returns the fetched items whose identity
    does not appear in the previous snapshot.  The raw data of the
    examples is looked up in [catalog]. *)
#[export] Instance loader : GearLoader :=
  {| rawGearDataToGearList raw :=
       snd <$> head (filter (fun e => e.1 = raw) catalog);
     getNewGearItems cachedGear fetchedGear :=
       filter (fun g => g_id g ∉ (g_id <$> cachedGear)) fetchedGear |}.

Definition anyGear : Filter :=
  {| gearName := ""; minimumRarity := 0; gearTypes := []; gearBrands := [];
     gearAbilities := [] |}.

Definition rareHats : Filter :=
  {| gearName := ""; minimumRarity := 1; gearTypes := ["HeadGear"%string];
     gearBrands := []; gearAbilities := ["Ink Saver (Main)"; "Haunt"]%string |}.

Definition subA : Subscription :=
  {| endpoint := "https://push.example/a"; expirationTime := ""; key_auth := "ka";
     key_p256dh := "pa" |}.

Definition subB : Subscription :=
  {| endpoint := "https://push.example/b"; expirationTime := ""; key_auth := "kb";
     key_p256dh := "pb" |}.

(** User 1 was never notified, user 2 was notified up to 200000. *)
Definition db : DB :=
  {| users := [ {| u_userid := 1; u_usercode := "code-1"; u_lastnotifiedexpiration := None |};
                {| u_userid := 2; u_usercode := "code-2"; u_lastnotifiedexpiration := Some 200000 |} ];
     filters := [(10, storedRow anyGear); (11, storedRow rareHats)];
     usersToFilters := [(1, 10); (2, 10); (2, 11)];
     subscriptions := [ {| s_userid := 1; s_subscription := subA |};
                        {| s_userid := 2; s_subscription := subB |} ];
     serverCache := None |}.

(** User 1 was notified up to 150000. *)
Definition dbHalf : DB :=
  with_users db
    [ {| u_userid := 1; u_usercode := "code-1"; u_lastnotifiedexpiration := Some 150000 |} ].

(** The cache holds the hat, which expires at 100000. *)
Definition dbCached : DB := with_serverCache db (Some "hat"%string).

Definition env (raw : RawGearData) : Env :=
  {| ACTION_SECRET := Some "s3cret"%string; apiRawGearData := Some raw;
     latency := fun _ => 0%nat; nowCheck := 1000; startTime := 1200 |}.

Definition req : Request := {| authorization := Some "s3cret"%string |}.
Definition reqWrongKey : Request := {| authorization := Some "guess"%string |}.

(** The cycle of the request [env "hat+hoodie"] on [db]. *)
Definition cycle : Cycle :=
  {| gearToUserMap :=
       [(hat, [(1, "code-1"); (2, "code-2")]); (hoodie, [(1, "code-1"); (2, "code-2")])]%string;
     fetchedRawGearData := "hat+hoodie" |}.

(** User 1 is checked and sent both notifications, user 2 is checked,
    the cache is written and the request answered; the UPDATE of user 1
    is performed after that. *)
Definition lateUpdate : list Choice :=
  [Main 1300; Main 1400; PushReplies 0 0 Delivered; PushReplies 0 1 Delivered;
   Main 1500; Main 1600; DbCaches; Main 1700; DbUpdates 0].

(** The loop up to the sends of user 1. *)
Definition firstSends : list Choice := [Main 1300; Main 1400].

(** After a 410 on the first send: the DELETE, the other send, the rest
    of the loop and the commit. *)
Definition afterGone : list Choice :=
  [DbDeletes 0 0; PushReplies 0 1 Delivered; DbUpdates 0; Main 1500; Main 1600; DbCaches;
   Main 1700].

(** After a 410 on the first send: the push service answers the other
    send with a 500, the loop ends and the request is answered, while the
    DELETE is still in flight. *)
Definition afterGoneError : list Choice :=
  [PushReplies 0 1 (WebPushError 500); Main 1500; Main 1600].

(** A trigger after the hat has expired. *)
Definition envLater (raw : RawGearData) : Env :=
  {| ACTION_SECRET := Some "s3cret"%string; apiRawGearData := Some raw;
     latency := fun _ => 0%nat; nowCheck := 101000; startTime := 101200 |}.

(** The request for the hat alone: user 1 is sent the notification, user 2
    is skipped, the cache is written and the request answered.  The UPDATE
    of user 1 stays in flight. *)
Definition hatOnly : list Choice :=
  [Main 1300; Main 1400; PushReplies 0 0 Delivered; Main 1500; Main 1600; DbCaches;
   Main 1700].

(** The next request, for the hoodie, with its UPDATE performed. *)
Definition hoodieLater : list Choice :=
  [Main 101300; Main 101400; PushReplies 0 0 Delivered; DbUpdates 0; Main 101500;
   Main 101600; DbCaches; Main 101700].

(** Two requests, the second one arriving after the first has answered. *)
Definition twoRequests : list Move :=
  [Arrives (env "hat") req] ++ (Acts 0 <$> hatOnly)
  ++ [Arrives (envLater "hat+hoodie") req] ++ (Acts 1 <$> hoodieLater).

(** The same two requests, the UPDATE of the first one performed before
    the second one arrives. *)
Definition oneAfterTheOther : list Move :=
  [Arrives (env "hat") req] ++ (Acts 0 <$> hatOnly ++ [DbUpdates 0])
  ++ [Arrives (envLater "hat+hoodie") req] ++ (Acts 1 <$> hoodieLater).

(** A request that fails after a 410, and the start of the next one. *)
Definition retryAfterGone : list Move :=
  [Arrives (env "hat+hoodie") req]
  ++ (Acts 0 <$> firstSends ++ PushReplies 0 0 (WebPushError 410) :: afterGoneError)
  ++ [Arrives (env "hat+hoodie") req; Acts 1 (Main 1300); Acts 1 (Main 1400)].

End Ex.

(** * The rest of the database layer ([lib/database_utils]) *)

(** ** JavaScript [Map<string, V>] *)

Module JsStrMap.

Definition t (V : Type) := list (string * V).

(** [m.set(k, v)]: an existing key keeps its place. *)
Fixpoint set {V} (k : string) (v : V) (m : t V) : t V :=
  match m with
  | [] => [(k, v)]
  | (k', v') :: m' =>
      if decide (k = k') then (k, v) :: m' else (k', v') :: set k v m'
  end.

(** [m.get(k)]; [None] is [undefined]. *)
Fixpoint get {V} (k : string) (m : t V) : option V :=
  match m with
  | [] => None
  | (k', v') :: m' => if decide (k = k') then Some v' else get k m'
  end.

(** [m.keys()], in insertion order. *)
Definition keys {V} (m : t V) : list string := m.*1.

End JsStrMap.

(** [mapGetWithDefault] is in [lib/shared_utils], which is not at hand; it
    is taken by its name: the value of the key, or the default value.  The
    code below only calls it with keys of the map. *)
Definition mapGetWithDefault {V} (map : JsStrMap.t V) (key : string) (defaultValue : V) : V :=
  default defaultValue (JsStrMap.get key map).

(** What [formatCol] leaves in a column name: none of the characters it
    removes, no capital letter. *)
Definition columnChar (c : ascii) : bool :=
  negb (Str.isOneOf "( )-" c) && negb (Str.isUpper c).

(** A selection that the table can hold: it is empty, or one of its names
    has a column. *)
Definition storable (names selected : list string) : Prop :=
  selected = [] \/ exists x, x ∈ selected /\ x ∈ names.

(** ** Reading filters back *)

Definition mapFromColumnName (unformattedColumns : list string) : JsStrMap.t string :=
  foldl (fun map col => JsStrMap.set (formatCol col) col map) [] unformattedColumns.

(** The loop
    [for (var x of map.keys()) if (rowData[x]) out.push(mapGetWithDefault(map, x, ""))]
    of [rowDataToFilter]. *)
Definition selectedNames (rowData : FilterRow) (unformattedColumns : list string)
  : list string :=
  let map := mapFromColumnName unformattedColumns in
  (fun col => mapGetWithDefault map col ""%string)
    <$> filter (fun col => columnValue rowData col = true) (JsStrMap.keys map).

Definition rowDataToFilter (rowData : FilterRow) : Filter :=
  {| gearName := f_name rowData;
     minimumRarity := f_rarity rowData;
     gearTypes :=
       if f_typewildcard rowData then [] else selectedNames rowData GEAR_TYPES;
     gearBrands :=
       if f_brandwildcard rowData then [] else selectedNames rowData GEAR_BRANDS;
     gearAbilities :=
       if f_abilitywildcard rowData then [] else selectedNames rowData GEAR_ABILITIES |}.

(** ** The [Filters] table *)

Definition with_filters (db : DB) (fs : list (Z * FilterRow)) : DB :=
  {| users := users db; filters := fs; usersToFilters := usersToFilters db;
     subscriptions := subscriptions db; serverCache := serverCache db |}.

Definition with_usersToFilters (db : DB) (ps : list (Z * Z)) : DB :=
  {| users := users db; filters := filters db; usersToFilters := ps;
     subscriptions := subscriptions db; serverCache := serverCache db |}.

(** What a call of the database layer throws: the two errors of
    [lib/shared_utils], or the error of [pg] when Postgres refuses a
    query. *)
Inductive DbError :=
  | NoSuchUserError (userID : Z)
  | NoSuchFilterError (filterID : Z)
  | DatabaseError.

(** How a call ends: it returns, or it throws. *)
Inductive Outcome (A : Type) :=
  | Done (a : A)
  | Thrown (e : DbError).
Arguments Done {A} a.
Arguments Thrown {A} e.

(** The [WHERE] clause of [getMatchingFilterID]: [key = value] for every
    entry of the filter's table data, joined by AND.  A column that is NULL
    in the row equals no value. *)
Definition sameFilterData (filterData row : FilterRow) : bool :=
  bool_decide (f_name row = f_name filterData)
  && (f_rarity row =? f_rarity filterData)
  && bool_decide (f_typewildcard row = f_typewildcard filterData)
  && bool_decide (f_abilitywildcard row = f_abilitywildcard filterData)
  && bool_decide (f_brandwildcard row = f_brandwildcard filterData)
  && bool_decide (map_Forall (fun col value => f_flags row !! col = Some value)
                    (f_flags filterData)).

(** The id of the first row, in table order, that the [WHERE] clause
    accepts, or -1. *)
Definition findFilterID (db : DB) (filterData : FilterRow) : Z :=
  match base.filter (fun fr => sameFilterData filterData fr.2 = true) (filters db) with
  | (filterID, _) :: _ => filterID
  | [] => -1
  end.

(** [getMatchingFilterID].  The name is compared with the value of the
    string constant spliced into the query; when the spliced text is not
    one string constant ([stringConstant]) the query is taken as
    refused. *)
Definition getMatchingFilterID (db : DB) (filter : Filter) : Outcome Z :=
  let filterData := filterToTableData filter in
  match stringConstant (f_name filterData) with
  | Some name => Done (findFilterID db (withName name filterData))
  | None => Thrown DatabaseError
  end.

Definition hasFilterID (db : DB) (filterID : Z) : bool :=
  bool_decide (filterID ∈ (filters db).*1).

(** [tryAddFilter].  [newFilterID] is the value that the sequence of the
    SERIAL column [filterid] gives to the inserted row; the column is
    UNIQUE, so an id that a row already has is refused, as is a row that
    the table cannot hold ([insertedRow]). *)
Definition tryAddFilter (db : DB) (newFilterID : Z) (filter : Filter) : Outcome (DB * Z) :=
  match getMatchingFilterID db filter with
  | Thrown e => Thrown e
  | Done filterID =>
      if decide (filterID = -1)
      then
        match insertedRow (filterToTableData filter) with
        | Some row =>
            if bool_decide (newFilterID ∈ (filters db).*1) then Thrown DatabaseError
            else Done (with_filters db (filters db ++ [(newFilterID, row)]), newFilterID)
        | None => Thrown DatabaseError
        end
      else Done (db, filterID)
  end.

(** ** Users and their filters *)

Definition hasUser (db : DB) (userID : Z) : bool :=
  bool_decide (userID ∈ u_userid <$> users db).

Definition doesUserHaveFilter (db : DB) (userID filterID : Z) : bool :=
  bool_decide ((userID, filterID) ∈ usersToFilters db).

Definition addFilterToUser (db : DB) (userID filterID : Z) : Outcome DB :=
  if negb (hasUser db userID) then Thrown (NoSuchUserError userID)
  else if negb (hasFilterID db filterID) then Thrown (NoSuchFilterError filterID)
  else if negb (doesUserHaveFilter db userID filterID)
       then Done (with_usersToFilters db (usersToFilters db ++ [(userID, filterID)]))
       else Done db.

Definition removeUserFilter (db : DB) (userID filterID : Z) : DB :=
  if doesUserHaveFilter db userID filterID
  then with_usersToFilters db
         (base.filter (fun p => ~ (p.1 = userID /\ p.2 = filterID)) (usersToFilters db))
  else db.

(** [getUserFilters]: the join of [Filters] with the filter ids paired with
    the user, one row per pairing; rows are taken filter by filter. *)
Definition getUserFilters (db : DB) (userID : Z) : Outcome (list Filter) :=
  if negb (hasUser db userID) then Thrown (NoSuchUserError userID)
  else
    let userFilters := (base.filter (fun p => p.1 = userID) (usersToFilters db)).*2 in
    let rows :=
      filters db ≫= fun fr =>
        (fun _ => fr.2) <$> base.filter (fun filterID => fr.1 = filterID) userFilters in
    Done (rowDataToFilter <$> rows).

(** ** Push subscriptions of a user *)

(** The columns of [Subscriptions]: [varchar(400)] for the endpoint and
    [varchar(255)] for the expiration and the two keys.
    [addUserPushSubscription] below is the function for subscriptions that
    fit them. *)
Definition fitsColumns (subscription : Subscription) : Prop :=
  (String.length (endpoint subscription) <= 400)%nat
  /\ (String.length (expirationTime subscription) <= 255)%nat
  /\ (String.length (key_auth subscription) <= 255)%nat
  /\ (String.length (key_p256dh subscription) <= 255)%nat.

(** The [UPDATE ... WHERE subscriptionid = $6] of [addUserPushSubscription]:
    the row it names is [rows[0]] of the preceding SELECT, the first row of
    the user with the endpoint.  Postgres writes the new version of a row
    after the rows of the table, so a later SELECT returns it last. *)
Fixpoint updateSubscription (userID : Z) (subscription : Subscription)
    (rows : list SubscriptionRow) : list SubscriptionRow :=
  match rows with
  | [] => []
  | r :: rows' =>
      if decide (s_userid r = userID
                 /\ endpoint (s_subscription r) = endpoint subscription)
      then rows' ++ [{| s_userid := s_userid r; s_subscription := subscription |}]
      else r :: updateSubscription userID subscription rows'
  end.

Definition addUserPushSubscription (db : DB) (userID : Z) (subscription : Subscription)
  : Outcome DB :=
  if negb (hasUser db userID) then Thrown (NoSuchUserError userID)
  else
    let result :=
      base.filter (fun r => s_userid r = userID
                       /\ endpoint (s_subscription r) = endpoint subscription)
        (subscriptions db) in
    match result with
    | _ :: _ =>
        Done (with_subscriptions db
                (updateSubscription userID subscription (subscriptions db)))
    | [] =>
        Done (with_subscriptions db
                (subscriptions db
                 ++ [{| s_userid := userID; s_subscription := subscription |}]))
    end.

Definition removeUserPushSubscription (db : DB) (userID : Z) (subscription : Subscription)
  : DB :=
  with_subscriptions db
    (base.filter (fun r => ~ (endpoint (s_subscription r) = endpoint subscription
                          /\ s_userid r = userID))
       (subscriptions db)).

(** * More invariants of the handler *)

(** The users that have a task, followed by those the loop has still to
    deal with. *)
Definition taskUsers (st : State) : list Z :=
  (t_userID <$> st_promises st) ++ waiting (st_pc st).

(** The cache entry: it holds the fetched data once the database has
    performed the write, which the handler awaits before it answers 200,
    and what [db0] had before that. *)
Definition snapshotKept (cy : Cycle) (db0 : DB) (st : State) : Prop :=
  ((st_pc st = CacheUpdated \/ st_pc st = Responded 200)
   /\ serverCache (st_db st) = Some (fetchedRawGearData cy)
   /\ EvSnapshotStored ∈ st_trace st)
  \/ (st_pc st <> CacheUpdated /\ st_pc st <> Responded 200
      /\ serverCache (st_db st) = serverCache db0
      /\ EvSnapshotStored ∉ st_trace st).

(** The user has a task all of whose sends have returned. *)
Definition hasResolvedTask (userID : Z) (st : State) : Prop :=
  Exists (fun t => t_userID t = userID /\ t_state t = Resolved) (st_promises st).

Definition isWatermarkOf (userID : Z) (e : Event) : Prop :=
  match e with
  | EvWatermarkIssued u _ | EvWatermarkStored u _ => u = userID
  | _ => False
  end.

(** An expiration is written, or about to be written, only for a user
    with a resolved task. *)
Definition earned (db0 : DB) (st : State) : Prop :=
  forall userID,
    getLastNotifiedExpiration (st_db st) userID <> getLastNotifiedExpiration db0 userID
    \/ userID ∈ (st_updates st).*1
    \/ Exists (isWatermarkOf userID) (st_trace st) ->
    hasResolvedTask userID st.

(** Task [j] has been rejected. *)
Definition rejectedTask (j : nat) (userID : Z) (st : State) : Prop :=
  exists t, st_promises st !! j = Some t /\ t_userID t = userID /\ t_state t = Failed.

(** The user has no subscription and nothing of the request concerns the
    user. *)
Definition quiet (db0 : DB) (userID : Z) (st : State) : Prop :=
  getUserSubscriptions (st_db st) userID = []
  /\ getLastNotifiedExpiration (st_db st) userID = getLastNotifiedExpiration db0 userID
  /\ Forall (fun e => ~ isPushTo userID e /\ ~ isWatermarkOf userID e) (st_trace st)
  /\ Forall (fun t => t_userID t <> userID) (st_promises st)
  /\ Forall (fun w => w.1 <> userID) (st_updates st).

Definition isDeleteStored (ep : string) (e : Event) : bool :=
  match e with
  | EvDeleteStored ep' => bool_decide (ep' = ep)
  | _ => false
  end.

(** The DELETE of the endpoint has been performed during the request. *)
Definition deletedEndpoint (ep : string) (trace : list Event) : bool :=
  existsb (isDeleteStored ep) trace.

(** The items that the matcher is sure to refuse when it does not accept
    them: the name fails the allow-list, or the three texts spliced into
    the query are words, one of which is then no boolean column and no
    constant (see [queryWellFormed]). *)
Definition refusalCertain (gear : Gear) : Prop :=
  allowedCharsPattern (g_name gear) = false
  \/ (sqlWord (formatCol (g_ability gear)) = true
      /\ sqlWord (formatCol (g_type gear)) = true
      /\ sqlWord (formatCol (g_brand gear)) = true).

(** Two rows of [Users] with the same id and code. *)
Definition sameUser (r r' : UserRow) : Prop :=
  u_userid r = u_userid r' /\ u_usercode r = u_usercode r'.

(** What the request leaves of [db0]: filters, pairings, user ids and
    codes as they were, and the subscriptions whose endpoint was not
    deleted. *)
Definition framed (db0 : DB) (st : State) : Prop :=
  filters (st_db st) = filters db0
  /\ usersToFilters (st_db st) = usersToFilters db0
  /\ (fun r => (u_userid r, u_usercode r)) <$> users (st_db st)
     = (fun r => (u_userid r, u_usercode r)) <$> users db0
  /\ subscriptions (st_db st)
     = filter (fun r => deletedEndpoint (endpoint (s_subscription r)) (st_trace st) = false)
         (subscriptions db0).

(** The notifications kept with the user in the loop are those of the
    gear matched for the user. *)
Definition notificationsOf (cy : Cycle) (userID : Z)
    (notifications : list (Payload * NotificationOptions)) : Prop :=
  exists now userCode,
    notifications
    = (fun gear => (generateNotificationPayload userCode gear,
                    generateNotificationOptions now gear))
        <$> getUserGear (gearToUserMap cy) userID.

Definition pcNotifications (cy : Cycle) (st : State) : Prop :=
  match st_pc st with
  | AwaitLastNotified u ns _ _ | AwaitSubscriptions u ns _ _ => notificationsOf cy u ns
  | _ => True
  end.

(** A push goes to a subscription that [db0] has for the user, about a
    gear item matched for the user. *)
Definition pushMatched (cy : Cycle) (db0 : DB) (e : Event) : Prop :=
  match e with
  | EvPush userID ep gearID ttl =>
      (exists sub, sub ∈ getUserSubscriptions db0 userID /\ endpoint sub = ep)
      /\ exists gear now,
           gear ∈ getUserGear (gearToUserMap cy) userID
           /\ g_id gear = gearID
           /\ ttl = TTL (generateNotificationOptions now gear)
  | _ => True
  end.

(** "Gear is sorted in order of expiration, ascending": no item expires
    before one that precedes it. *)
Fixpoint ascending (gears : list Gear) : Prop :=
  match gears with
  | [] => True
  | gear :: rest =>
      Forall (fun later => g_expiration gear <= g_expiration later) rest /\ ascending rest
  end.

(** What a send carries, whatever its phase. *)
Definition sendData (s : Send) : Subscription * Payload * NotificationOptions :=
  (sd_subscription s, sd_notification s, sd_options s).

(** The sends of a task are those of [subs] and of the gear matched for
    the user: for every subscription, one per gear item. *)
Definition taskShape (cy : Cycle) (db0 : DB) (t : Task) : Prop :=
  exists subs now userCode,
    subs <> []
    /\ subs ⊆ getUserSubscriptions db0 (t_userID t)
    /\ sendData <$> t_sends t
       = subs ≫= (fun sub =>
           (fun gear => (sub, generateNotificationPayload userCode gear,
                         generateNotificationOptions now gear))
             <$> getUserGear (gearToUserMap cy) (t_userID t))
    /\ latestExpiration cy (t_userID t) = Some (t_latestExpiration t).

(** The expiration of a task is on its way to the database, or it is
    what the database has for the user and nothing else is on its way. *)
Definition written (st : State) (t : Task) : Prop :=
  (t_userID t, t_latestExpiration t) ∈ st_updates st
  \/ ((t_userID t ∉ (st_updates st).*1)
      /\ getLastNotifiedExpiration (st_db st) (t_userID t) = t_latestExpiration t).

(** A task is waiting for the push service on all its sends, or it has
    resolved. *)
Definition inFlight (t : Task) : Prop :=
  (t_state t = Pending /\ t_sends t <> []
   /\ Forall (fun s => sd_phase s = AwaitPush) (t_sends t))
  \/ t_state t = Resolved.

(** The sends before [i] have been delivered, the others are with the push
    service. *)
Definition deliveredUpTo (i : nat) (sends : list Send) : Prop :=
  forall i' s, sends !! i' = Some s ->
    sd_phase s = if decide (i' < i)%nat then Returned true else AwaitPush.

(** What happens when nothing goes wrong: the handler resumes, the push
    service delivers, the database performs an UPDATE or the write of the
    cache entry. *)
Definition delivering (c : Choice) : Prop :=
  match c with
  | Main _ | DbUpdates _ | DbCaches => True
  | PushReplies _ _ outcome => outcome = Delivered
  | DbDeletes _ _ => False
  end.

(** ** More example data *)

Module ExMore.

(** The hat of the examples, as a rarer item. *)
Definition rarerHat : Gear :=
  {| g_id := "hat-2"; g_name := "Fresh Fish Head"; g_brand := "SquidForce";
     g_type := "HeadGear"; g_ability := "Ink Saver (Main)"; g_rarity := 2;
     g_expiration := 100000; g_image := "hat.png" |}.

(** A filter on one brand and one gear name. *)
Definition annakiHoodie : Filter :=
  {| gearName := "Annaki Flannel Hoodie"; minimumRarity := 0; gearTypes := [];
     gearBrands := ["Annaki"%string]; gearAbilities := [] |}.

(** User 1 has no subscription. *)
Definition dbNoDevice : DB :=
  with_subscriptions Ex.db [ {| s_userid := 2; s_subscription := Ex.subB |} ].

(** A request made when the cached hat has expired; the API still has the
    hat only. *)
Definition envLate : Env :=
  {| ACTION_SECRET := Some "s3cret"%string; apiRawGearData := Some "hat"%string;
     latency := fun _ => 0%nat; nowCheck := 100000; startTime := 100200 |}.

(** The first send of user 1. *)
Definition firstSend : Send :=
  {| sd_subscription := Ex.subA;
     sd_notification := generateNotificationPayload "code-1" Ex.hat;
     sd_options := generateNotificationOptions 1200 Ex.hat;
     sd_phase := AwaitPush |}.

(** The task of user 1 when its sends have started. *)
Definition firstTask : Task :=
  {| t_userID := 1; t_latestExpiration := 200000;
     t_sends := startSends [Ex.subA]
                  [(generateNotificationPayload "code-1" Ex.hat,
                    generateNotificationOptions 1200 Ex.hat);
                   (generateNotificationPayload "code-1" Ex.hoodie,
                    generateNotificationOptions 1200 Ex.hoodie)];
     t_state := Pending |}.

(** After a 500 of the push service on the first send: the other send,
    the rest of the loop. *)
Definition afterError : list Choice :=
  [PushReplies 0 1 Delivered; Main 1500; Main 1600; Main 1700].

End ExMore.

(** * Properties *)

(** ** JavaScript maps *)

Lemma JsMap_set_keys {V} (k : Z) (v : V) (m : JsMap.t V) (x : Z) :
  x ∈ (JsMap.set k v m).*1 <-> x = k \/ x ∈ m.*1.
Proof.
  induction m as [|[k' v'] m IH]; simpl.
  - rewrite list_elem_of_singleton, elem_of_nil. tauto.
  - destruct (decide (k = k')) as [->|Hne]; simpl.
    + rewrite !elem_of_cons. tauto.
    + rewrite !elem_of_cons, IH. tauto.
Qed.

Lemma JsMap_fold_set_keys {A V} (key : A -> Z) (val : A -> V)
    (l : list A) (m : JsMap.t V) (x : Z) :
  x ∈ (foldl (fun m e => JsMap.set (key e) (val e) m) m l).*1
  <-> x ∈ m.*1 \/ x ∈ key <$> l.
Proof.
  revert m. induction l as [|e l IH]; intros m; simpl.
  - rewrite elem_of_nil. tauto.
  - rewrite IH, JsMap_set_keys, elem_of_cons. tauto.
Qed.

Lemma insertByUserid_elem (r x : UserRow) (rows : list UserRow) :
  x ∈ insertByUserid r rows <-> x = r \/ x ∈ rows.
Proof.
  induction rows as [|r' rows IH]; cbn [insertByUserid].
  - rewrite list_elem_of_singleton, elem_of_nil. tauto.
  - destruct (u_userid r <=? u_userid r').
    + by rewrite elem_of_cons.
    + rewrite !elem_of_cons, IH. tauto.
Qed.

(** Sorting keeps the rows. *)
Lemma sortByUserid_elem (x : UserRow) (rows : list UserRow) :
  x ∈ sortByUserid rows <-> x ∈ rows.
Proof.
  unfold sortByUserid. induction rows as [|r rows IH]; cbn [foldr]; [done|].
  by rewrite insertByUserid_elem, IH, elem_of_cons.
Qed.

Lemma sortByUserid_keys (x : Z) (rows : list UserRow) :
  x ∈ u_userid <$> sortByUserid rows <-> x ∈ u_userid <$> rows.
Proof.
  rewrite !list_elem_of_fmap. by setoid_rewrite sortByUserid_elem.
Qed.

Lemma JsMap_ofEntries_keys {V} (entries : list (Z * V)) (x : Z) :
  x ∈ (JsMap.ofEntries entries).*1 <-> x ∈ entries.*1.
Proof.
  unfold JsMap.ofEntries. rewrite (JsMap_fold_set_keys fst snd).
  simpl. rewrite elem_of_nil. tauto.
Qed.

Lemma JsMap_has_true {V} (k : Z) (m : JsMap.t V) :
  JsMap.has k m = true <-> k ∈ m.*1.
Proof. unfold JsMap.has. rewrite bool_decide_eq_true. tauto. Qed.

(** ** The per-user work list *)

Lemma aggregateUsers_fold_keys (maps : list (JsMap.t string)) (acc : JsMap.t string) (x : Z) :
  x ∈ (foldl (fun allUserMap userMap => JsMap.ofEntries (allUserMap ++ userMap)) acc maps).*1
  <-> x ∈ acc.*1 \/ exists userMap, userMap ∈ maps /\ x ∈ userMap.*1.
Proof.
  revert acc. induction maps as [|m maps IH]; intros acc; simpl.
  - split; [tauto|]. intros [H|(um & H & _)]; [done|]. by apply elem_of_nil in H.
  - rewrite IH, JsMap_ofEntries_keys, fmap_app, elem_of_app. split.
    + intros [[H|H]|(um & Hum & H)]; [tauto| |].
      * right. exists m. split; [left|done].
      * right. exists um. split; [by right|done].
    + intros [H|(um & Hum & H)]; [tauto|].
      apply elem_of_cons in Hum as [->|Hum]; [tauto|].
      right. by exists um.
Qed.

Lemma aggregateUsers_keys (gearToUsers : GearToUsers) (x : Z) :
  x ∈ (aggregateUsers gearToUsers).*1
  <-> exists gear userMap, (gear, userMap) ∈ gearToUsers /\ JsMap.has x userMap = true.
Proof.
  unfold aggregateUsers. rewrite aggregateUsers_fold_keys. simpl. split.
  - intros [H|(um & Hum & H)]; [by apply elem_of_nil in H|].
    apply list_elem_of_fmap in Hum as ([g um'] & -> & Hin).
    exists g, um'. split; [done|]. by apply JsMap_has_true.
  - intros (g & um & Hin & H). right. exists um. split.
    + apply list_elem_of_fmap. by exists (g, um).
    + by apply JsMap_has_true.
Qed.

Lemma getUserGear_elem (gearToUsers : GearToUsers) (userID : Z) (gear : Gear) :
  gear ∈ getUserGear gearToUsers userID
  <-> exists userMap, (gear, userMap) ∈ gearToUsers /\ JsMap.has userID userMap = true.
Proof.
  unfold getUserGear. rewrite list_elem_of_fmap. split.
  - intros ([g um] & -> & Hin). apply list_elem_of_filter in Hin as [H Hin].
    by exists um.
  - intros (um & Hin & H). exists (gear, um). split; [done|].
    by apply list_elem_of_filter.
Qed.

Lemma last_is_Some {A} (l : list A) : l <> [] -> is_Some (last l).
Proof.
  intros H. destruct (last l) eqn:E; [by eexists|].
  by apply last_None in E.
Qed.

(** C10: a user of the aggregated map is in the user map of some new gear
    item, so the gear list built for the user is not empty, its last
    element exists, and the head of the loop does not fail on it. *)
Theorem C10_userGear_nonempty (gearToUsers : GearToUsers) (userID : Z) :
  userID ∈ (aggregateUsers gearToUsers).*1 ->
  (exists gear userMap, (gear, userMap) ∈ gearToUsers /\ JsMap.has userID userMap = true)
  /\ getUserGear gearToUsers userID <> []
  /\ is_Some (last (getUserGear gearToUsers userID))
  /\ forall cy now userCode rest st,
       gearToUserMap cy = gearToUsers ->
       exists notifications latest,
         st_pc (nextUser cy now ((userID, userCode) :: rest) st)
         = AwaitLastNotified userID notifications latest rest
         /\ latestExpiration cy userID = Some latest.
Proof.
  intros Hin. apply aggregateUsers_keys in Hin as (g & um & Hin & Hhas).
  assert (Hne : getUserGear gearToUsers userID <> []).
  { intros E. assert (H : g ∈ getUserGear gearToUsers userID).
    { apply getUserGear_elem. by exists um. }
    rewrite E in H. by apply elem_of_nil in H. }
  split; [by exists g, um|]. split; [done|].
  pose proof (last_is_Some _ Hne) as [g' Hlast].
  split; [by exists g'|].
  intros cy now userCode rest st <-. unfold nextUser, latestExpiration.
  rewrite Hlast. simpl. eauto.
Qed.

Lemma C10_userGear_nonempty_witness :
  1 ∈ (aggregateUsers [(Ex.hat, [(1, "code-1"%string)])]).*1
  /\ getUserGear [(Ex.hat, [(1, "code-1"%string)])] 1 <> [].
Proof.
  assert (H : 1 ∈ (aggregateUsers [(Ex.hat, [(1, "code-1"%string)])]).*1).
  { vm_compute. left. }
  split; [exact H|].
  exact (proj1 (proj2 (C10_userGear_nonempty _ 1 H))).
Defined.

(** ** The lifetime of a notification *)

(** C9, as the code has it: the TTL is the floor of the time left divided
    by 1000.  When the expiration is not in the past this is the number of
    whole seconds left; when it is in the past the TTL is negative, it is
    not brought back to zero. *)
Theorem C9_ttl_whole_seconds (now : Z) (gear : Gear) :
  let ttl := TTL (generateNotificationOptions now gear) in
  ttl = (g_expiration gear - now) / 1000
  /\ (now <= g_expiration gear ->
      0 <= ttl /\ 1000 * ttl <= g_expiration gear - now < 1000 * ttl + 1000)
  /\ (g_expiration gear < now -> ttl < 0).
Proof.
  simpl. unfold MILLISECONDS_PER_SECOND.
  split; [done|]. split; intros H.
  - split; [apply Z.div_pos; lia|].
    pose proof (Z.mul_div_le (g_expiration gear - now) 1000 ltac:(lia)).
    pose proof (Z.mul_succ_div_gt (g_expiration gear - now) 1000 ltac:(lia)).
    lia.
  - apply Z.div_lt_upper_bound; lia.
Qed.

(** C9 as stated fails: a past expiration does not give a TTL of zero. *)
Lemma C9_ttl_past_not_zero :
  g_expiration Ex.hat < 101500
  /\ TTL (generateNotificationOptions 101500 Ex.hat) = -2
  /\ TTL (generateNotificationOptions 101500 Ex.hat) <> 0.
Proof. by vm_compute. Qed.

(** ** The matcher *)

Lemma setFlags_lookup_other (names selected : list string) (data : gmap string bool)
    (col : string) :
  col ∉ formatCol <$> names ->
  setFlags names selected data !! col = data !! col.
Proof.
  unfold setFlags. revert data.
  induction names as [|n names IH]; intros data Hnot; simpl; [done|].
  rewrite fmap_cons, not_elem_of_cons in Hnot. destruct Hnot as [Hne Hnot].
  rewrite IH by done. by rewrite lookup_insert_ne.
Qed.

Lemma setFlags_lookup (names selected : list string) (data : gmap string bool)
    (x : string) :
  NoDup (formatCol <$> names) -> x ∈ names ->
  setFlags names selected data !! formatCol x = Some (bool_decide (x ∈ selected)).
Proof.
  unfold setFlags. revert data.
  induction names as [|n names IH]; intros data Hnd Hin; simpl.
  - by apply elem_of_nil in Hin.
  - rewrite fmap_cons in Hnd. apply NoDup_cons in Hnd as [Hn Hnd].
    apply elem_of_cons in Hin as [->|Hin].
    + fold (setFlags names selected (<[formatCol n:=bool_decide (n ∈ selected)]> data)).
      rewrite setFlags_lookup_other by done. by rewrite lookup_insert_eq.
    + by apply IH.
Qed.

Lemma filterBoolColumns_NoDup : NoDup filterBoolColumns.
Proof. apply (bool_decide_unpack _). by vm_compute. Qed.

(** The flag of a known type, brand or ability in a stored filter tells
    whether the filter lists it. *)
Lemma columnValue_stored (filter : Filter) :
  (forall x, x ∈ GEAR_TYPES ->
     columnValue (filterToTableData filter) (formatCol x) = bool_decide (x ∈ gearTypes filter))
  /\ (forall x, x ∈ GEAR_BRANDS ->
     columnValue (filterToTableData filter) (formatCol x) = bool_decide (x ∈ gearBrands filter))
  /\ (forall x, x ∈ GEAR_ABILITIES ->
     columnValue (filterToTableData filter) (formatCol x) = bool_decide (x ∈ gearAbilities filter)).
Proof.
  pose proof filterBoolColumns_NoDup as Hnd. unfold filterBoolColumns in Hnd.
  apply NoDup_app in Hnd as (_ & Hwild & Hnd).
  rewrite !fmap_app in Hnd.
  apply NoDup_app in Hnd as (HT & HTo & Hnd).
  apply NoDup_app in Hnd as (HA & HAo & HB).
  assert (Hcol : forall x, formatCol x ∈ formatCol <$> (GEAR_TYPES ++ GEAR_ABILITIES ++ GEAR_BRANDS) ->
    forall row, columnValue row (formatCol x) = default false (f_flags row !! formatCol x)).
  { intros x Hx row. unfold columnValue.
    destruct (decide (formatCol x = DB_GEAR_TYPE_WILDCARD)) as [E|_].
    { exfalso. apply (Hwild (formatCol x)); [|exact Hx].
      rewrite E. apply elem_of_cons. left. reflexivity. }
    destruct (decide (formatCol x = DB_GEAR_BRAND_WILDCARD)) as [E|_].
    { exfalso. apply (Hwild (formatCol x)); [|exact Hx].
      rewrite E. apply elem_of_cons. right. apply elem_of_cons. left. reflexivity. }
    destruct (decide (formatCol x = DB_GEAR_ABILITY_WILDCARD)) as [E|_].
    { exfalso. apply (Hwild (formatCol x)); [|exact Hx].
      rewrite E. do 2 (apply elem_of_cons; right). apply elem_of_cons. left. reflexivity. }
    reflexivity. }
  repeat split; intros x Hx.
  - rewrite Hcol by (rewrite !fmap_app; apply elem_of_app; left; by apply list_elem_of_fmap_2).
    unfold filterToTableData; cbn [f_flags]. by rewrite setFlags_lookup.
  - rewrite Hcol by (rewrite !fmap_app, !elem_of_app; right; right; by apply list_elem_of_fmap_2).
    unfold filterToTableData; cbn [f_flags]. assert (Hin : formatCol x ∈ formatCol <$> GEAR_BRANDS) by by apply list_elem_of_fmap_2.
    rewrite setFlags_lookup_other.
    + by rewrite setFlags_lookup.
    + intros H. apply (HTo _ H). apply elem_of_app. by right.
  - rewrite Hcol by (rewrite !fmap_app, !elem_of_app; right; left; by apply list_elem_of_fmap_2).
    unfold filterToTableData; cbn [f_flags]. assert (Hin : formatCol x ∈ formatCol <$> GEAR_ABILITIES) by by apply list_elem_of_fmap_2.
    rewrite setFlags_lookup_other.
    + rewrite setFlags_lookup_other; [by rewrite setFlags_lookup|].
      intros H. by apply (HAo _ Hin).
    + intros H. apply (HTo _ H). apply elem_of_app. by left.
Qed.

Lemma columnValue_withName (name : string) (row : FilterRow) (col : string) :
  columnValue (withName name row) col = columnValue row col.
Proof. reflexivity. Qed.

Lemma sqlConstants_no_column (text : string) :
  text ∈ filterBoolColumns -> text ∉ sqlConstants.
Proof.
  intros Hcol Hc.
  assert (Hdis : Forall (fun c => c ∉ filterBoolColumns) sqlConstants).
  { apply (bool_decide_unpack _). by vm_compute. }
  rewrite Forall_forall in Hdis. by apply (Hdis text).
Qed.

(** The name of a boolean column is read as the column. *)
Lemma splicedValue_column (row : FilterRow) (text : string) :
  text ∈ filterBoolColumns -> splicedValue row text = columnValue row text.
Proof.
  intros Hcol. pose proof (sqlConstants_no_column text Hcol) as Hno.
  unfold splicedValue. destruct (decide (text = "true"%string)) as [->|_].
  - exfalso. apply Hno. by left.
  - by rewrite decide_False.
Qed.

Lemma known_columns (gear : Gear) :
  g_type gear ∈ GEAR_TYPES -> g_brand gear ∈ GEAR_BRANDS ->
  g_ability gear ∈ GEAR_ABILITIES ->
  formatCol (g_ability gear) ∈ filterBoolColumns
  /\ formatCol (g_type gear) ∈ filterBoolColumns
  /\ formatCol (g_brand gear) ∈ filterBoolColumns.
Proof.
  intros HT HB HA. unfold filterBoolColumns.
  rewrite !fmap_app, !elem_of_app.
  repeat split; right.
  - right; left. by apply list_elem_of_fmap_2.
  - left. by apply list_elem_of_fmap_2.
  - right; right. by apply list_elem_of_fmap_2.
Qed.

Lemma matchingFilter_stored (filter : Filter) (gear : Gear) :
  g_type gear ∈ GEAR_TYPES -> g_brand gear ∈ GEAR_BRANDS ->
  g_ability gear ∈ GEAR_ABILITIES ->
  matchingFilter gear (storedRow filter) = true <-> filterAdmits filter gear.
Proof.
  intros HT HB HA. destruct (columnValue_stored filter) as (CT & CB & CA).
  destruct (known_columns gear HT HB HA) as (KA & KT & KB).
  unfold matchingFilter, filterAdmits.
  rewrite !splicedValue_column by done. unfold storedRow.
  rewrite !columnValue_withName, (CT _ HT), (CB _ HB), (CA _ HA).
  unfold filterToTableData, withName, arrayEqual.
  cbn [f_rarity f_name f_typewildcard f_abilitywildcard f_brandwildcard].
  rewrite !andb_true_iff, !orb_true_iff, !bool_decide_eq_true, Z.leb_le.
  tauto.
Qed.

Lemma queryWellFormed_known (gear : Gear) :
  g_type gear ∈ GEAR_TYPES -> g_brand gear ∈ GEAR_BRANDS ->
  g_ability gear ∈ GEAR_ABILITIES ->
  queryWellFormed gear = true.
Proof.
  intros HT HB HA. destruct (known_columns gear HT HB HA) as (KA & KT & KB).
  unfold queryWellFormed, sqlBoolean.
  rewrite !andb_true_iff, !bool_decide_eq_true, !elem_of_app. tauto.
Qed.

(** *** What the table holds for a filter *)

Lemma constantBody_plain (s : string) :
  sqlPlain s = true -> constantBody (s +:+ "'") = Some s.
Proof.
  unfold sqlPlain, sqlChar. induction s as [|c s IH]; [done|]. simpl.
  intros [[Hc Hz]%andb_true_iff Hs]%andb_true_iff.
  apply negb_true_iff in Hc, Hz. rewrite Hc, Hz.
  by rewrite (IH Hs).
Qed.

Lemma stringConstant_quote (s : string) :
  sqlPlain s = true -> stringConstant (sqlQuote s) = Some s.
Proof. intros Hs. unfold sqlQuote. cbn. by apply constantBody_plain. Qed.

Lemma varchar255_short (value : string) :
  (String.length value <= 255)%nat -> varchar255 value = Some value.
Proof. intros Hlen%Nat.leb_le. unfold varchar255. by rewrite Hlen. Qed.

(** The row added for a filter that the table can hold. *)
Lemma insertedRow_storedRow (filter : Filter) :
  sqlPlain (gearName filter) = true ->
  int2 (minimumRarity filter) = true ->
  (String.length (gearName filter) <= 255)%nat ->
  insertedRow (filterToTableData filter) = Some (storedRow filter).
Proof.
  intros Hplain Hint Hlen. unfold insertedRow.
  cbn [filterToTableData f_name f_rarity].
  by rewrite (stringConstant_quote _ Hplain), (varchar255_short _ Hlen), Hint.
Qed.

Lemma constantBody_Some (s name : string) :
  constantBody s = Some name -> s = name +:+ "'" /\ sqlPlain name = true.
Proof.
  revert name. induction s as [|c s IH]; intros name; [done|]. cbn [constantBody].
  destruct (Ascii.eqb c "'"%char) eqn:Hc.
  - apply Ascii.eqb_eq in Hc as ->. destruct s; [|done]. by intros [= <-].
  - destruct (Ascii.eqb c zero) eqn:Hz; [done|].
    destruct (constantBody s) as [body|]; [|done]. intros [= <-].
    destruct (IH body eq_refl) as [-> Hp]. split; [done|].
    unfold sqlPlain, sqlChar in *. cbn [Str.all]. by rewrite Hc, Hz, Hp.
Qed.

Lemma append_quote_inj (s name : string) :
  s +:+ "'" = name +:+ "'" -> name = s.
Proof.
  revert name. induction s as [|c s IH]; intros name.
  - destruct name as [|c' name]; [done|]. cbn. intros [= <- E]. by destruct name.
  - destruct name as [|c' name]; cbn.
    + intros [= -> E]. by destruct s.
    + intros [= <- E]. f_equal. by apply IH.
Qed.

(** The text spliced for a name is a string constant exactly when the name
    is plain, and its value is then the name. *)
Lemma stringConstant_Some (s value : string) :
  stringConstant (sqlQuote s) = Some value -> value = s /\ sqlPlain s = true.
Proof.
  unfold sqlQuote. cbn. intros [Heq Hp]%constantBody_Some.
  apply append_quote_inj in Heq. by subst.
Qed.

Lemma take_length (n : nat) (s : string) :
  (String.length (Str.take n s) <= n)%nat.
Proof.
  revert s. induction n as [|n IH]; intros [|c s]; cbn; try lia.
  specialize (IH s). lia.
Qed.

Lemma take_all (p : ascii -> bool) (n : nat) (s : string) :
  Str.all p s = true -> Str.all p (Str.take n s) = true.
Proof.
  revert s. induction n as [|n IH]; intros [|c s]; cbn; try done.
  intros [Hc Hs]%andb_true_iff. by rewrite Hc, IH.
Qed.

(** What is stored fits the column, and is plain when the value is. *)
Lemma varchar255_Some (value name : string) :
  varchar255 value = Some name ->
  (String.length name <= 255)%nat
  /\ (sqlPlain value = true -> sqlPlain name = true)
  /\ ((String.length value <= 255)%nat -> name = value).
Proof.
  unfold varchar255. destruct (_ <=? _)%nat eqn:Hlen.
  - intros [= <-]. by apply Nat.leb_le in Hlen.
  - destruct (Str.all _ _); [|done]. intros E.
    assert (name = Str.take 255 value) as -> by congruence. clear E.
    apply Nat.leb_gt in Hlen. split; [apply take_length|].
    split; [apply take_all|lia].
Qed.

(** Every row that an INSERT of [filterToTableData] adds: the row of the
    filter with the name that the column stores. *)
Lemma insertedRow_Some (filter : Filter) (row : FilterRow) :
  insertedRow (filterToTableData filter) = Some row ->
  sqlPlain (gearName filter) = true /\ int2 (minimumRarity filter) = true
  /\ exists name, varchar255 (gearName filter) = Some name
                  /\ row = withName name (filterToTableData filter).
Proof.
  unfold insertedRow. cbn [filterToTableData f_name f_rarity].
  destruct (stringConstant (sqlQuote (gearName filter))) as [value|] eqn:Hc; [|done].
  apply stringConstant_Some in Hc as [-> Hp].
  destruct (varchar255 (gearName filter)) as [name|] eqn:Hv; [|done].
  destruct (int2 (minimumRarity filter)) eqn:Hint; [|done].
  intros [= <-]. repeat split; [done|]. by exists name.
Qed.

(** With a name of at most 255 characters the row is [storedRow]. *)
Lemma insertedRow_short (filter : Filter) (row : FilterRow) :
  (String.length (gearName filter) <= 255)%nat ->
  insertedRow (filterToTableData filter) = Some row ->
  row = storedRow filter
  /\ sqlPlain (gearName filter) = true /\ int2 (minimumRarity filter) = true.
Proof.
  intros Hlen (Hp & Hint & name & Hv & ->)%insertedRow_Some.
  rewrite (varchar255_short _ Hlen) in Hv. by injection Hv as <-.
Qed.

Lemma stored_rows (rows : list (Z * FilterRow)) (stored : list (Z * Filter)) :
  Forall2 (fun fr e => fr.1 = e.1 /\ (String.length (gearName e.2) <= 255)%nat
                      /\ insertedRow (filterToTableData e.2) = Some fr.2)
    rows stored ->
  rows = (fun e => (e.1, storedRow e.2)) <$> stored.
Proof.
  induction 1 as [|[id row] [id' f] rows stored (Hid & Hlen & Hrow) _ IH]; [done|].
  cbn [fst snd] in Hid, Hlen, Hrow. apply (insertedRow_short _ _ Hlen) in Hrow as (-> & _).
  rewrite fmap_cons. cbn [fst snd]. by rewrite Hid, IH.
Qed.


(** ** The loop *)

Lemma nextUser_spec cy now rest st :
  let st' := nextUser cy now rest st in
  st_db st' = st_db st /\ st_promises st' = st_promises st
  /\ st_updates st' = st_updates st /\ st_trace st' = st_trace st
  /\ st_counters st' = st_counters st
  /\ (st_pc st' = AwaitAll \/ st_pc st' = Responded 500
      \/ exists u code ns l rest',
           rest = (u, code) :: rest' /\ st_pc st' = AwaitLastNotified u ns l rest'
           /\ latestExpiration cy u = Some l).
Proof.
  unfold nextUser, latestExpiration. destruct rest as [|[u code] rest']; simpl.
  - tauto.
  - destruct (last _) as [g|] eqn:E; simpl; repeat split; eauto.
    right; right. eexists u, code, _, _, rest'. repeat split. by rewrite E.
Qed.

Lemma settle_spec t :
  exists t' us, settle t = (t', us)
    /\ t_userID t' = t_userID t /\ t_latestExpiration t' = t_latestExpiration t
    /\ t_sends t' = t_sends t
    /\ ((us = [] /\ (t_state t' = t_state t \/ (t_state t = Pending /\ t_state t' = Failed)))
        \/ (us = [(t_userID t, t_latestExpiration t)] /\ t_state t = Pending
            /\ t_state t' = Resolved /\ Forall (fun s => isReturned s = true) (t_sends t))).
Proof.
  unfold settle. destruct (t_state t) eqn:E; [|eexists _, _; repeat split; eauto..].
  destruct (existsb isThrew (t_sends t)); [eexists _, _; repeat split; eauto|].
  destruct (forallb isReturned (t_sends t)) eqn:F; [|eexists _, _; repeat split; eauto].
  eexists _, _; repeat split; simpl. right. repeat split; try done.
  apply Forall_forall. intros s Hs.
  rewrite forallb_forall in F. apply F. by apply list_elem_of_In.
Qed.

Lemma updateTask_spec j t sends st :
  exists t' us, settle (withSends t sends) = (t', us)
    /\ st_db (updateTask j t sends st) = st_db st
    /\ st_pc (updateTask j t sends st) = st_pc st
    /\ st_promises (updateTask j t sends st) = <[j := t']> (st_promises st)
    /\ st_updates (updateTask j t sends st) = st_updates st ++ us
    /\ st_trace (updateTask j t sends st) = st_trace st ++ issued us
    /\ st_counters (updateTask j t sends st) = st_counters st.
Proof.
  unfold updateTask. destruct (settle (withSends t sends)) as [t' us].
  exists t', us. by repeat split.
Qed.

Lemma nextUser_NextPc cy now rest st : NextPc cy rest (st_pc (nextUser cy now rest st)).
Proof.
  unfold nextUser, NextPc, latestExpiration. destruct rest as [|[u code] rest']; simpl.
  - by left.
  - destruct (last _) as [g|] eqn:E; simpl; [|by right; left].
    right; right. eexists u, code, _, _, rest'. repeat split. by rewrite E.
Qed.

Lemma step_Trans cy c st : Trans cy st (step cy c st).
Proof.
  destruct c as [now|j i o|j i|k|]; simpl.
  - unfold main. destruct (st_pc st) as [|u ns l rest|u ns l rest| | | |s] eqn:Hpc.
    + by apply TrNone.
    + destruct (Z.leb_spec l (getLastNotifiedExpiration (st_db st) u)).
      * eapply (TrSkip _ _ _ u ns l rest); [left; by split|apply nextUser_NextPc|..];
          by destruct (nextUser_spec cy now rest (setCounters (alreadyNotified (st_counters st)) st))
            as (? & ? & ? & ? & ? & _).
      * by eapply (TrCheck _ _ _ u ns l rest).
    + destruct (getUserSubscriptions (st_db st) u) as [|sub subs] eqn:Hsubs.
      * eapply (TrSkip _ _ _ u ns l rest); [right; by split|apply nextUser_NextPc|..];
          by destruct (nextUser_spec cy now rest (setCounters (noSubscriber (st_counters st)) st))
            as (? & ? & ? & ? & ? & _).
      * match goal with |- Trans _ _ (nextUser _ _ _ (updateTask ?j ?t ?sends ?st1)) =>
          destruct (updateTask_spec j t sends st1) as (t' & us & Hs & Hdb & Hpc1 & Hps & Hus & Htr & _);
          destruct (nextUser_spec cy now rest (updateTask j t sends st1)) as (Ndb & Nps & Nus & Ntr & _ & _)
        end.
        eapply (TrSend _ _ _ u ns l rest _ t' us); [done|done| |apply nextUser_NextPc|..].
        -- rewrite Hsubs. exact Hs.
        -- by rewrite Ndb, Hdb.
        -- rewrite Nps, Hps. simpl.
           rewrite insert_app_r_alt by done. by rewrite Nat.sub_diag.
        -- by rewrite Nus, Hus.
        -- rewrite Ntr, Htr. simpl. by rewrite Hsubs, <- app_assoc.
    + destruct (existsb isFailed (st_promises st)) eqn:Hex.
      * apply TrFail; try done. apply existsb_exists in Hex as (t & Hin & Ht).
        apply Exists_exists. exists t. split; [by apply list_elem_of_In|].
        unfold isFailed in Ht. by destruct (t_state t).
      * destruct (forallb isResolved (st_promises st)) eqn:Hall; [|by apply TrNone].
        apply TrCommit; try done. apply Forall_forall. intros t Hin.
        rewrite forallb_forall in Hall. specialize (Hall t (proj1 (list_elem_of_In _ _) Hin)).
        unfold isResolved in Hall. by destruct (t_state t).
    + by apply TrNone.
    + by apply TrAnswer.
    + by apply TrNone.
  - destruct (st_promises st !! j) as [t|] eqn:Hj; [|by apply TrNone].
    destruct (t_sends t !! i) as [s|] eqn:Hi; [|by apply TrNone].
    destruct (sd_phase s) eqn:Hph; try by apply TrNone.
    match goal with |- Trans _ _ (updateTask ?j ?t ?sends ?st1) =>
      destruct (updateTask_spec j t sends st1) as (t' & us & Hs & Hdb & Hpc1 & Hps & Hus & Htr & _)
    end.
    eapply (TrSendMoves _ _ _ j i t s (trySendNotification o) t' us); try done.
    + left. repeat split; eauto.
    + rewrite Htr. simpl. rewrite <- app_assoc. f_equal. f_equal.
      unfold sendEvents. destruct (trySendNotification o) as [| |[]|] eqn:E; try done.
      exfalso. destruct o; simpl in E; try done. by destruct (permanentFailure _).
  - destruct (st_promises st !! j) as [t|] eqn:Hj; [|by apply TrNone].
    destruct (t_sends t !! i) as [s|] eqn:Hi; [|by apply TrNone].
    destruct (sd_phase s) eqn:Hph; try by apply TrNone.
    match goal with |- Trans _ _ (updateTask ?j ?t ?sends ?st1) =>
      destruct (updateTask_spec j t sends st1) as (t' & us & Hs & Hdb & Hpc1 & Hps & Hus & Htr & _)
    end.
    eapply (TrSendMoves _ _ _ j i t s (Returned false) t' us); try done.
    + right. by repeat split.
    + rewrite Htr. simpl. by rewrite <- app_assoc.
  - destruct (st_updates st !! k) as [[u e]|] eqn:Hk; [|by apply TrNone].
    by eapply (TrUpdate _ _ _ k u e).
  - destruct (st_pc st) eqn:Hpc; try by apply TrNone.
    by apply TrStored.
Qed.

Lemma exec_invariant cy (P : State -> Prop) :
  (forall st st', P st -> Trans cy st st' -> P st') ->
  forall sched st, P st -> P (exec cy sched st).
Proof.
  intros Hstep sched. unfold exec.
  induction sched as [|c sched IH]; intros st HP; simpl; [done|].
  apply IH. eapply Hstep; [done|]. apply step_Trans.
Qed.

(** *** Events *)

Lemma allBefore_app (P : Event -> Prop) e tr es :
  allBefore P e tr -> allBefore P e es ->
  (e ∈ tr -> Forall (fun x => ~ P x) es) ->
  allBefore P e (tr ++ es).
Proof.
  intros Htr Hes Hin l1 l2 Heq. symmetry in Heq.
  apply app_eq_app in Heq as [l [[-> Heq]|[-> Heq]]].
  - by apply (Hes l l2).
  - destruct l as [|x l]; simpl in Heq.
    + by apply (Hes [] l2).
    + injection Heq as -> ->. apply Forall_app. split.
      * by apply (Htr l1 l).
      * apply Hin. set_solver.
Qed.

Lemma allBefore_absent (P : Event -> Prop) e tr : e ∉ tr -> allBefore P e tr.
Proof. intros Hnot l1 l2 ->. exfalso. apply Hnot. set_solver. Qed.

Lemma allBefore_singleton (P : Event -> Prop) e x : allBefore P e [x].
Proof.
  intros l1 l2 Heq. destruct l1 as [|y l1]; simpl in Heq.
  - injection Heq as _ <-. constructor.
  - injection Heq as _ Heq. by destruct l1.
Qed.

Lemma issued_elem e us :
  e ∈ issued us -> exists u x, e = EvWatermarkIssued u x /\ (u, x) ∈ us.
Proof.
  unfold issued. intros H. apply list_elem_of_fmap in H as ([u x] & -> & Hin). eauto.
Qed.

Lemma pushed_elem e u sends :
  e ∈ pushed u sends -> exists ep g ttl, e = EvPush u ep g ttl.
Proof.
  unfold pushed. intros H. apply list_elem_of_fmap in H as (s & -> & Hin). eauto.
Qed.

Lemma sendEvents_elem e s ph :
  e ∈ sendEvents s ph -> exists ep, e = EvDeleteIssued ep \/ e = EvDeleteStored ep.
Proof.
  unfold sendEvents. destruct ph as [| |[]|]; intros H;
    try (by apply elem_of_nil in H); apply list_elem_of_singleton in H; eauto.
Qed.

(** *** Tasks settle before the cache is written *)

Lemma settled_step cy st st' : settled st -> Trans cy st st' -> settled st'.
Proof.
  intros [Hc Hr] T. unfold settled, committing in *.
  destruct T; subst; try done.
  - (* skip *) rewrite Hps. split; [|done]. intros Hcm.
    destruct Hpc' as [[_ E]|[E|(?&?&?&?&?&_&E&_)]]; rewrite E in Hcm;
      by destruct Hcm as [|[|]].
  - rewrite Hps, Hpc'. split; [|done]. by intros [|[|]].
  - rewrite Hps. split.
    + intros Hcm.
      destruct Hpc' as [[_ E]|[E|(?&?&?&?&?&_&E&_)]]; rewrite E in Hcm;
        by destruct Hcm as [|[|]].
    + apply Forall_app. split; [done|]. apply Forall_singleton. intros Hres.
      destruct (settle_spec {| t_userID := u; t_latestExpiration := l;
                               t_sends := startSends (getUserSubscriptions (st_db st) u) ns;
                               t_state := Pending |})
        as (t1 & us1 & E & _ & _ & Hsd & Hcase).
      rewrite Hsettle in E. injection E as <- <-. rewrite Hsd.
      destruct Hcase as [[_ [E|[_ E]]]|(_ & _ & _ & Hall)]; [| |done];
        rewrite Hres in E; done.
  - rewrite Hps, Hpc'. split; [|done]. by intros [|[|]].
  - rewrite Hps, Hpc'. by split.
  - rewrite Hps, Hpc'. split; [|done]. intros _. apply Hc. by left.
  - rewrite Hps, Hpc'. split; [|done]. intros _. apply Hc. right. by left.
  - rewrite Hps, Hpc'.
    destruct (settle_spec (withSends t (<[i:=withPhase s ph]> (t_sends t))))
      as (t1 & us1 & E & _ & _ & Hsd & Hcase).
    rewrite Hsettle in E. injection E as <- <-. simpl in Hsd, Hcase.
    assert (Hnr : isReturned s = false).
    { unfold isReturned. by destruct Hph as [(-> & _)|(-> & _)]. }
    assert (Ht : t_state t <> Resolved).
    { intros Hres. rewrite Forall_forall in Hr.
      specialize (Hr t (list_elem_of_lookup_2 _ _ _ Hj) Hres).
      rewrite Forall_forall in Hr.
      specialize (Hr s (list_elem_of_lookup_2 _ _ _ Hi)). congruence. }
    split.
    + intros Hcm. exfalso. apply Ht. specialize (Hc Hcm).
      rewrite Forall_forall in Hc. apply Hc. by eapply list_elem_of_lookup_2.
    + apply Forall_insert; [done|]. intros Hres. rewrite Hsd.
      destruct Hcase as [[_ [E|[_ E]]]|(_ & _ & _ & Hall)]; [| |done].
      * rewrite Hres in E. by symmetry in E.
      * by rewrite Hres in E.
  - rewrite Hps, Hpc'. by split.
Qed.

Lemma ordered_step cy st st' :
  settled st -> ordered st -> Trans cy st st' -> ordered st'.
Proof.
  intros [Hc Hr] [Ho Hb] T. unfold ordered, committing in *.
  assert (Hcommit_app : forall e es, isCommit e -> e ∈ st_trace st ++ es ->
            (forall x, x ∈ es -> ~ isCommit x) -> e ∈ st_trace st).
  { intros e es He Hin Hes. apply elem_of_app in Hin as [|Hin]; [done|].
    by destruct (Hes e Hin). }
  destruct T; subst; try done.
  - rewrite Htr. split; [|done]. intros e He Hin. exfalso.
    destruct (Ho e He Hin) as [E|[E|E]]; destruct Hpc as [[Hpc _]|[Hpc _]]; congruence.
  - rewrite Htr. split; [|done]. intros e He Hin. exfalso.
    destruct (Ho e He Hin) as [E|[E|E]]; congruence.
  - assert (Hno : forall e, isCommit e -> e ∉ st_trace st).
    { intros e He Hin. destruct (Ho e He Hin) as [E|[E|E]]; congruence. }
    assert (Hes : forall x, x ∈ pushed u (startSends (getUserSubscriptions (st_db st) u) ns)
                              ++ issued us -> ~ isCommit x).
    { intros x Hx [-> | ->]; apply elem_of_app in Hx as [Hx|Hx];
        first [apply pushed_elem in Hx as (?&?&?&?) | apply issued_elem in Hx as (?&?&?&_)];
        done. }
    rewrite Htr. split.
    + intros e He Hin. exfalso. apply (Hno e He). by eapply Hcommit_app.
    + intros e He. apply allBefore_app; [by apply Hb| |].
      * apply allBefore_absent. intros Hin. by apply (Hes e Hin).
      * intros Hin. by destruct (Hno e He).
  - rewrite Htr. split; [|done]. intros e He Hin. exfalso.
    destruct (Ho e He Hin) as [E|[E|E]]; congruence.
  - rewrite Htr, Hpc'. split; [by left|].
    intros e He. apply allBefore_app; [by apply Hb|apply allBefore_singleton|].
    intros _. apply Forall_singleton. by intros [].
  - rewrite Htr, Hpc'. split; [right; by left|].
    intros e He. apply allBefore_app; [by apply Hb|apply allBefore_singleton|].
    intros _. apply Forall_singleton. by intros [].
  - rewrite Htr, Hpc'. split; [|done]. intros e He Hin. right. by right.
  - assert (Hes : forall x, x ∈ sendEvents s ph ++ issued us -> ~ isCommit x).
    { intros x Hx [-> | ->]; apply elem_of_app in Hx as [Hx|Hx];
        first [apply sendEvents_elem in Hx as (?&[|]) | apply issued_elem in Hx as (?&?&?&_)];
        done. }
    rewrite Htr, Hpc'. split.
    + intros e He Hin. apply (Ho e He). by eapply Hcommit_app.
    + intros e He. apply allBefore_app; [by apply Hb| |].
      * apply allBefore_absent. intros Hin. by apply (Hes e Hin).
      * intros Hin. specialize (Hc (Ho e He Hin)).
        rewrite Forall_forall in Hc.
        specialize (Hc t (list_elem_of_lookup_2 _ _ _ Hj)).
        destruct (settle_spec (withSends t (<[i:=withPhase s ph]> (t_sends t))))
          as (t1 & us1 & E & _ & _ & _ & Hcase).
        rewrite Hsettle in E. injection E as <- <-. simpl in Hcase.
        destruct Hcase as [[-> _]|(_ & E & _)]; [|congruence].
        simpl. rewrite app_nil_r. apply Forall_forall. intros x Hx.
        apply sendEvents_elem in Hx as (? & [-> | ->]); by intros [].
  - rewrite Htr, Hpc'. split.
    + intros e He Hin. apply (Ho e He). eapply Hcommit_app; [done..|].
      intros y Hy. apply list_elem_of_singleton in Hy as ->. by intros [|].
    + intros e He. apply allBefore_app; [by apply Hb| |].
      * apply allBefore_absent. intros Hin. apply list_elem_of_singleton in Hin as ->.
        by destruct He.
      * intros _. apply Forall_singleton. by intros [].
Qed.


Lemma prepare_Some `{GearLoader} env req db cy st :
  prepare env req db = (Some cy, st) -> Start cy db st.
Proof.
  unfold prepare. intros Hp. repeat case_match; simplify_eq.
  all: match goal with |- Start _ _ (nextUser ?cy ?now ?rest ?st) =>
    destruct (nextUser_spec cy now rest st) as (Hdb & Hps & Hus & Htr & _ & _);
    pose proof (nextUser_NextPc cy now rest st) as Hpc
  end.
  all: unfold Start; rewrite Hdb, Hps, Hus, Htr; repeat split; exact Hpc.
Qed.

Lemma prepare_None `{GearLoader} env req db st :
  prepare env req db = (None, st) -> Idle db st.
Proof.
  unfold prepare, Idle, committing. intros Hp.
  repeat case_match; simplify_eq; simpl; repeat split; auto; try done.
  all: by intros [|[|]].
Qed.

Lemma handler_cases `{GearLoader} env req db sched :
  (exists cy st0, prepare env req db = (Some cy, st0) /\ Start cy db st0
                  /\ handler env req db sched = exec cy sched st0)
  \/ (prepare env req db = (None, handler env req db sched)
      /\ Idle db (handler env req db sched)).
Proof.
  unfold handler. destruct (prepare env req db) as [[cy|] st0] eqn:Hp.
  - left. exists cy, st0. split; [done|]. split; [|done]. by eapply prepare_Some.
  - right. split; [done|]. by eapply prepare_None.
Qed.

Lemma Start_settled cy db st : Start cy db st -> settled st.
Proof.
  intros (_ & Hps & _). unfold settled. rewrite Hps. split; [|constructor].
  intros _. constructor.
Qed.

Lemma Start_ordered cy db st : Start cy db st -> ordered st.
Proof.
  intros (_ & _ & _ & Htr & _). unfold ordered. rewrite Htr. split.
  - intros e He Hin. apply list_elem_of_singleton in Hin as ->. by destruct He.
  - intros e He. apply allBefore_absent. intros Hin.
    apply list_elem_of_singleton in Hin as ->. by destruct He.
Qed.

Lemma exec_settled_ordered cy sched st :
  settled st -> ordered st -> settled (exec cy sched st) /\ ordered (exec cy sched st).
Proof.
  intros Hs Ho.
  apply (exec_invariant cy (fun st => settled st /\ ordered st)); [|done].
  intros st1 st2 [Hs1 Ho1] T. split.
  - by eapply settled_step.
  - by eapply ordered_step.
Qed.

(** C1, as the code has it: every call of [updateLastNotifiedExpiration]
    of a request is made before the call of [updateCachedRawGearData], and
    so before the new snapshot is stored.  (The calls are not awaited:
    nothing is said about when the rows are written.) *)
Theorem C1_watermarks_issued_before_snapshot `{GearLoader}
    (env : Env) (req : Request) (db : DB) (sched : list Choice) :
  let st := handler env req db sched in
  allBefore isWatermarkIssued EvSnapshotIssued (st_trace st)
  /\ allBefore isWatermarkIssued EvSnapshotStored (st_trace st).
Proof.
  simpl. destruct (handler_cases env req db sched)
    as [(cy & st0 & _ & HS & ->)|[_ (_ & _ & _ & Htr & _)]].
  - destruct (exec_settled_ordered cy sched st0) as [_ [_ Hb]];
      [by eapply Start_settled|by eapply Start_ordered|].
    split; apply Hb; [by left|by right].
  - split; apply allBefore_absent; destruct Htr as [-> | ->]; intros Hin;
      first [by apply elem_of_nil in Hin | by apply list_elem_of_singleton in Hin].
Qed.

(** *** The database *)

Lemma getLast_update_other db u x v :
  v <> u ->
  getLastNotifiedExpiration (updateLastNotifiedExpiration db u x) v
  = getLastNotifiedExpiration db v.
Proof.
  intros Hne. unfold getLastNotifiedExpiration, updateLastNotifiedExpiration. simpl.
  induction (users db) as [|r rows IH]; simpl; [done|].
  destruct (decide (u_userid r = u)) as [E|E]; simpl.
  - rewrite !filter_cons_False by (simpl; congruence). exact IH.
  - destruct (decide (u_userid r = v)) as [E'|E'].
    + by rewrite !filter_cons_True by done.
    + rewrite !filter_cons_False by done. exact IH.
Qed.

Lemma getLast_update_same db u x :
  getLastNotifiedExpiration (updateLastNotifiedExpiration db u x) u = x
  \/ getLastNotifiedExpiration (updateLastNotifiedExpiration db u x) u
     = getLastNotifiedExpiration db u.
Proof.
  unfold getLastNotifiedExpiration, updateLastNotifiedExpiration. simpl.
  induction (users db) as [|r rows IH]; simpl; [by right|].
  destruct (decide (u_userid r = u)) as [E|E]; simpl.
  - left. by rewrite filter_cons_True by done.
  - by rewrite !filter_cons_False by done.
Qed.

Lemma unsubscribed_delete ep db sub :
  unsubscribed ep db -> unsubscribed ep (deletePushSubscription db sub).
Proof.
  unfold unsubscribed, deletePushSubscription. simpl. intros H.
  apply Forall_forall. intros r Hr. apply list_elem_of_filter in Hr as [_ Hr].
  rewrite Forall_forall in H. by apply H.
Qed.

Lemma unsubscribed_deleted db sub :
  unsubscribed (endpoint sub) (deletePushSubscription db sub).
Proof.
  unfold unsubscribed, deletePushSubscription. simpl.
  apply Forall_forall. intros r Hr. by apply list_elem_of_filter in Hr as [Hne _].
Qed.

Lemma unsubscribed_getUserSubscriptions ep db userID :
  unsubscribed ep db ->
  Forall (fun sub => endpoint sub <> ep) (getUserSubscriptions db userID).
Proof.
  unfold unsubscribed, getUserSubscriptions. intros H.
  apply Forall_fmap, Forall_forall. intros r Hr.
  apply list_elem_of_filter in Hr as [_ Hr]. rewrite Forall_forall in H. by apply H.
Qed.

(** What a step does to the database. *)
Lemma Trans_db cy st st' :
  Trans cy st st' ->
  st_db st' = st_db st
  \/ (exists sub, st_db st' = deletePushSubscription (st_db st) sub)
  \/ (exists u x, (u, x) ∈ st_updates st
        /\ st_db st' = updateLastNotifiedExpiration (st_db st) u x)
  \/ st_db st' = updateCachedRawGearData (st_db st) (fetchedRawGearData cy).
Proof.
  intros T. destruct T; subst; auto.
  - destruct Hph as [(_ & _ & ->)|(_ & _ & ->)]; eauto.
  - right; right; left. exists u, x. split; [|done]. by eapply list_elem_of_lookup_2.
Qed.

Lemma Trans_trace cy st st' :
  Trans cy st st' -> exists es, st_trace st' = st_trace st ++ es.
Proof.
  intros T. destruct T; subst; try (exists []; rewrite app_nil_r; congruence); eauto.
Qed.

Lemma unsubscribed_step cy ep st st' :
  Trans cy st st' -> unsubscribed ep (st_db st) -> unsubscribed ep (st_db st').
Proof.
  intros T H.
  destruct (Trans_db _ _ _ T) as [->|[(sub & ->)|[(u & x & _ & ->)| ->]]];
    [done|by apply unsubscribed_delete|done|done].
Qed.


Lemma NextPc_coherent cy rest st :
  NextPc cy rest (st_pc st) -> coherent cy st.
Proof.
  unfold coherent. intros [[_ ->]|[->|(u & c & ns & l & r & _ & -> & Hl)]]; done.
Qed.

Lemma coherent_step cy st st' : coherent cy st -> Trans cy st st' -> coherent cy st'.
Proof.
  intros Hc T. destruct T; subst; try done;
    try (by eapply NextPc_coherent); unfold coherent in *.
  - by rewrite Hpc' ; rewrite Hpc in Hc.
  - by rewrite Hpc'.
  - by rewrite Hpc'.
  - by rewrite Hpc'.
  - by rewrite Hpc'.
  - by rewrite Hpc'.
  - by rewrite Hpc'.
Qed.

Lemma settle_updates t t' us :
  settle t = (t', us) ->
  t_userID t' = t_userID t /\ t_latestExpiration t' = t_latestExpiration t
  /\ (us = [] \/ us = [(t_userID t, t_latestExpiration t)]).
Proof.
  intros E. destruct (settle_spec t) as (t1 & us1 & E1 & Hu & Hl & _ & Hcase).
  rewrite E in E1. injection E1 as <- <-. repeat split; [done..|].
  destruct Hcase as [[-> _]|[-> _]]; auto.
Qed.

Lemma no_push_issued userID us : Forall (fun e => ~ isPushTo userID e) (issued us).
Proof.
  apply Forall_forall. intros e He. apply issued_elem in He as (?&?&->&_). by intros [].
Qed.

Lemma no_push_sendEvents userID s ph :
  Forall (fun e => ~ isPushTo userID e) (sendEvents s ph).
Proof.
  apply Forall_forall. intros e He. apply sendEvents_elem in He as (?&[->| ->]); by intros [].
Qed.

Lemma untouched_step cy db0 userID latest st st' :
  latestExpiration cy userID = Some latest ->
  latest <= getLastNotifiedExpiration db0 userID ->
  coherent cy st -> untouched db0 userID st -> Trans cy st st' ->
  untouched db0 userID st'.
Proof.
  intros Hl Hle Hc (Hdb0 & Htr0 & Hps0 & Hus0 & Hpc0) T. unfold untouched.
  destruct T; subst; try done.
  - rewrite Hdb, Hps, Hus, Htr. repeat split; try done.
    by destruct Hpc' as [[_ ->]|[->|(?&?&?&?&?&_&->&_)]].
  - rewrite Hdb, Hps, Hus, Htr, Hpc'. repeat split; try done.
    intros ->. unfold coherent in Hc. rewrite Hpc in Hc. simplify_eq. lia.
  - rewrite Hpc in Hpc0.
    destruct (settle_updates _ _ _ Hsettle) as (Hu & _ & Hcase). simpl in Hu, Hcase.
    rewrite Hdb, Hps, Hus, Htr. repeat split; try done.
    + apply Forall_app. split; [done|]. apply Forall_app. split; [|apply no_push_issued].
      apply Forall_forall. intros e He. apply pushed_elem in He as (?&?&?&->). by simpl.
    + apply Forall_app. split; [done|]. apply Forall_singleton. by rewrite Hu.
    + apply Forall_app. split; [done|]. destruct Hcase as [-> | ->]; [constructor|].
      by apply Forall_singleton.
    + by destruct Hpc' as [[_ ->]|[->|(?&?&?&?&?&_&->&_)]].
  - rewrite Hdb, Hps, Hus, Htr, Hpc'. by repeat split.
  - rewrite Hdb, Hps, Hus, Htr, Hpc'. repeat split; try done.
    apply Forall_app. split; [done|]. apply Forall_singleton. by intros [].
  - rewrite Hdb, Hps, Hus, Htr, Hpc'. repeat split; try done.
    apply Forall_app. split; [done|]. apply Forall_singleton. by intros [].
  - rewrite Hdb, Hps, Hus, Htr, Hpc'. by repeat split.
  - destruct (settle_updates _ _ _ Hsettle) as (Hu & _ & Hcase). simpl in Hu, Hcase.
    assert (Ht : t_userID t <> userID).
    { rewrite Forall_forall in Hps0. apply Hps0. by eapply list_elem_of_lookup_2. }
    rewrite Hps, Hus, Htr, Hpc'. repeat split; try done.
    + by destruct Hph as [(_ & _ & ->)|(_ & _ & ->)].
    + apply Forall_app. split; [done|]. apply Forall_app.
      split; [apply no_push_sendEvents|apply no_push_issued].
    + apply Forall_insert; [done|]. by rewrite Hu.
    + apply Forall_app. split; [done|]. destruct Hcase as [-> | ->]; [constructor|].
      by apply Forall_singleton.
  - assert (Hu : u <> userID).
    { rewrite Forall_forall in Hus0.
      apply (Hus0 (u, x)). by eapply list_elem_of_lookup_2. }
    rewrite Hdb, Hps, Hus, Htr, Hpc'. repeat split; try done.
    + rewrite getLast_update_other by done. done.
    + apply Forall_app. split; [done|]. apply Forall_singleton. by intros [].
    + by apply Forall_delete.
Qed.

Lemma Start_coherent cy db st : Start cy db st -> coherent cy st.
Proof. intros (_ & _ & _ & _ & Hpc). by eapply NextPc_coherent. Qed.

Lemma Start_untouched cy db userID st : Start cy db st -> untouched db userID st.
Proof.
  intros (Hdb & Hps & Hus & Htr & Hpc). unfold untouched.
  rewrite Hdb, Hps, Hus, Htr. repeat split; try done.
  - apply Forall_singleton. by intros [].
  - by destruct Hpc as [[_ ->]|[->|(?&?&?&?&?&_&->&_)]].
Qed.

Lemma exec_untouched cy db0 userID latest sched st :
  latestExpiration cy userID = Some latest ->
  latest <= getLastNotifiedExpiration db0 userID ->
  coherent cy st -> untouched db0 userID st ->
  untouched db0 userID (exec cy sched st).
Proof.
  intros Hl Hle Hc Hu.
  apply (exec_invariant cy (fun st => coherent cy st /\ untouched db0 userID st)); [|done].
  intros st1 st2 [Hc1 Hu1] T. split.
  - by eapply coherent_step.
  - by eapply untouched_step.
Qed.

(** A user whose batch is not newer than the stored expiration is left
    alone by the request. *)
Lemma handler_untouched `{GearLoader} env req db sched cy userID latest :
  cycleOf env req db = Some cy ->
  latestExpiration cy userID = Some latest ->
  latest <= getLastNotifiedExpiration db userID ->
  untouched db userID (handler env req db sched).
Proof.
  unfold cycleOf. intros Hcy Hl Hle.
  destruct (handler_cases env req db sched) as [(cy' & st0 & Hp & HS & ->)|[Hp _]];
    rewrite Hp in Hcy; simpl in Hcy; [|done]. injection Hcy as ->.
  eapply exec_untouched; [done..|by eapply Start_coherent|by eapply Start_untouched].
Qed.



(** *** Stored expirations only grow *)

Lemma raisesEvent_issued cy db0 us :
  Forall (fun w => raises cy db0 w.1 w.2) us -> Forall (raisesEvent cy db0) (issued us).
Proof.
  intros H. unfold issued. apply Forall_fmap. eapply Forall_impl; [exact H|].
  by intros [u x].
Qed.

Lemma raisesEvent_pushed cy db0 u sends : Forall (raisesEvent cy db0) (pushed u sends).
Proof.
  apply Forall_forall. intros e He. by apply pushed_elem in He as (?&?&?&->).
Qed.

Lemma raisesEvent_sendEvents cy db0 s ph : Forall (raisesEvent cy db0) (sendEvents s ph).
Proof.
  apply Forall_forall. intros e He. by apply sendEvents_elem in He as (?&[->| ->]).
Qed.

Lemma advancing_step cy db0 st st' :
  coherent cy st -> advancing cy db0 st -> Trans cy st st' -> advancing cy db0 st'.
Proof.
  intros Hc (Hdb0 & Hus0 & Hps0 & Htr0 & Hpc0) T. unfold advancing.
  destruct T; subst; try done.
  - rewrite Hdb, Hps, Hus, Htr. repeat split; try done.
    by destruct Hpc' as [[_ ->]|[->|(?&?&?&?&?&_&->&_)]].
  - rewrite Hdb, Hps, Hus, Htr, Hpc'. repeat split; try done.
    + unfold coherent in Hc. by rewrite Hpc in Hc.
    + destruct (Hdb0 u) as [<-|[E _]]; [done|].
      unfold coherent in Hc. rewrite Hpc in Hc. simplify_eq. lia.
  - rewrite Hpc in Hpc0.
    destruct (settle_updates _ _ _ Hsettle) as (Hu & Hl & Hcase). simpl in Hu, Hl, Hcase.
    assert (Hus' : Forall (fun w => raises cy db0 w.1 w.2) us).
    { destruct Hcase as [-> | ->]; [constructor|]. by apply Forall_singleton. }
    rewrite Hdb, Hps, Hus, Htr. repeat split; try done.
    + by apply Forall_app.
    + apply Forall_app. split; [done|]. apply Forall_singleton. by rewrite Hu, Hl.
    + apply Forall_app. split; [done|]. apply Forall_app.
      split; [apply raisesEvent_pushed|by apply raisesEvent_issued].
    + by destruct Hpc' as [[_ ->]|[->|(?&?&?&?&?&_&->&_)]].
  - rewrite Hdb, Hps, Hus, Htr, Hpc'. by repeat split.
  - rewrite Hdb, Hps, Hus, Htr, Hpc'. repeat split; try done.
    apply Forall_app. split; [done|]. by apply Forall_singleton.
  - rewrite Hdb, Hps, Hus, Htr, Hpc'. repeat split; try done.
    apply Forall_app. split; [done|]. by apply Forall_singleton.
  - rewrite Hdb, Hps, Hus, Htr, Hpc'. by repeat split.
  - destruct (settle_updates _ _ _ Hsettle) as (Hu & Hl & Hcase). simpl in Hu, Hl, Hcase.
    assert (Ht : raises cy db0 (t_userID t) (t_latestExpiration t)).
    { rewrite Forall_forall in Hps0. apply Hps0. by eapply list_elem_of_lookup_2. }
    assert (Hus' : Forall (fun w => raises cy db0 w.1 w.2) us).
    { destruct Hcase as [-> | ->]; [constructor|]. by apply Forall_singleton. }
    rewrite Hps, Hus, Htr, Hpc'. repeat split; try done.
    + by destruct Hph as [(_ & _ & ->)|(_ & _ & ->)].
    + by apply Forall_app.
    + apply Forall_insert; [done|]. by rewrite Hu, Hl.
    + apply Forall_app. split; [done|]. apply Forall_app.
      split; [apply raisesEvent_sendEvents|by apply raisesEvent_issued].
  - assert (Hr : raises cy db0 u x).
    { rewrite Forall_forall in Hus0.
      apply (Hus0 (u, x)). by eapply list_elem_of_lookup_2. }
    rewrite Hdb, Hps, Hus, Htr, Hpc'. repeat split; try done.
    + intros v. destruct (decide (v = u)) as [->|Hne].
      * destruct (getLast_update_same (st_db st) u x) as [-> | ->]; [by right|done].
      * by rewrite getLast_update_other.
    + by apply Forall_delete.
    + apply Forall_app. split; [done|]. by apply Forall_singleton.
Qed.

Lemma Start_advancing cy db st : Start cy db st -> advancing cy db st.
Proof.
  intros (Hdb & Hps & Hus & Htr & Hpc). unfold advancing.
  rewrite Hdb, Hps, Hus, Htr. repeat split; try done; [by left|by apply Forall_singleton|].
  by destruct Hpc as [[_ ->]|[->|(?&?&?&?&?&_&->&_)]].
Qed.

Lemma exec_advancing cy db0 sched st :
  coherent cy st -> advancing cy db0 st -> advancing cy db0 (exec cy sched st).
Proof.
  intros Hc Ha.
  apply (exec_invariant cy (fun st => coherent cy st /\ advancing cy db0 st)); [|done].
  intros st1 st2 [Hc1 Ha1] T. split.
  - by eapply coherent_step.
  - by eapply advancing_step.
Qed.

Lemma NoDup_of_submseteq {A} (l k : list A) : NoDup k -> l ⊆+ k -> NoDup l.
Proof.
  intros Hk Hlk. apply submseteq_sublist_l in Hlk as (l' & Hsub & Hperm).
  eapply sublist_NoDup; [|exact Hsub]. by rewrite Hperm.
Qed.

Lemma pendingUsers_snoc ps t :
  pendingUsers (ps ++ [t]) = pendingUsers ps ++ (if isPending t then [t_userID t] else []).
Proof.
  unfold pendingUsers. rewrite filter_app, fmap_app. f_equal.
  destruct (isPending t) eqn:E.
  - rewrite filter_cons_True; [reflexivity|]. by apply Is_true_true_2.
  - rewrite filter_cons_False; [reflexivity|]. by apply Is_true_false_2.
Qed.

Lemma pendingUsers_cons t ps :
  pendingUsers (t :: ps) = (if isPending t then [t_userID t] else []) ++ pendingUsers ps.
Proof.
  unfold pendingUsers. destruct (isPending t) eqn:E.
  - rewrite filter_cons_True; [reflexivity|]. by apply Is_true_true_2.
  - rewrite filter_cons_False; [reflexivity|]. by apply Is_true_false_2.
Qed.

(** The pending users after task [j] was replaced by a task of the same
    user: the same, or one less when the task stopped being pending. *)
Lemma pendingUsers_insert ps j t t' :
  ps !! j = Some t -> t_userID t' = t_userID t ->
  (isPending t' = isPending t /\ pendingUsers (<[j := t']> ps) = pendingUsers ps)
  \/ (isPending t = true /\ isPending t' = false
      /\ t_userID t :: pendingUsers (<[j := t']> ps) ≡ₚ pendingUsers ps)
  \/ (isPending t = false /\ isPending t' = true).
Proof.
  intros Hj Hu. revert j Hj.
  induction ps as [|p ps IH]; intros [|j] Hj; simpl in Hj; try done.
  - injection Hj as ->. simpl. rewrite !pendingUsers_cons.
    destruct (isPending t) eqn:E, (isPending t') eqn:E'; rewrite ?Hu; auto.
  - simpl. rewrite !pendingUsers_cons.
    destruct (IH j Hj) as [[E ->]|[(E & E' & Hp)|[E E']]]; auto.
    right; left. repeat split; [done..|].
    destruct (isPending p); simpl; [|done].
    rewrite <- Hp. apply Permutation_swap.
Qed.

Lemma waiting_NextPc cy rest pc : NextPc cy rest pc -> waiting pc ⊆+ rest.*1.
Proof.
  intros [[-> ->]|[->|(u & c & ns & l & r & -> & -> & _)]]; simpl; try done.
  apply submseteq_nil_l.
Qed.

Lemma settle_pending t t' us :
  settle t = (t', us) ->
  (us = [] /\ isPending t' = isPending t)
  \/ (us = [] /\ isPending t = true /\ isPending t' = false)
  \/ (us = [(t_userID t, t_latestExpiration t)] /\ isPending t = true /\ isPending t' = false).
Proof.
  intros E. destruct (settle_spec t) as (t1 & us1 & E1 & _ & _ & _ & Hcase).
  rewrite E in E1. injection E1 as <- <-. unfold isPending.
  destruct Hcase as [[-> [->|[-> ->]]]|(-> & -> & -> & _)]; auto.
Qed.

Lemma NoDup_delete_lookup {A} (l : list A) k a :
  NoDup l -> l !! k = Some a -> a ∉ delete k l.
Proof.
  intros Hnd Hk. rewrite delete_take_drop.
  rewrite <- (take_drop_middle l k a Hk) in Hnd.
  apply NoDup_app in Hnd as (_ & Hdis & Hnd). apply NoDup_cons in Hnd as [Hn _].
  intros Hin. apply elem_of_app in Hin as [Hin|Hin]; [|done].
  apply (Hdis a Hin). by left.
Qed.

Lemma getLast_delete db sub u :
  getLastNotifiedExpiration (deletePushSubscription db sub) u
  = getLastNotifiedExpiration db u.
Proof. reflexivity. Qed.

Lemma getLast_updateCached db raw u :
  getLastNotifiedExpiration (updateCachedRawGearData db raw) u
  = getLastNotifiedExpiration db u.
Proof. reflexivity. Qed.

Lemma tickets_shrink (U P W U' P' W' : list Z) :
  U' ++ P' ⊆+ U ++ P -> W' ⊆+ W -> U' ++ P' ++ W' ⊆+ U ++ P ++ W.
Proof.
  intros H1 H2. rewrite !app_assoc.
  etrans; [by apply submseteq_skips_l|]. by apply submseteq_skips_r.
Qed.

Lemma submseteq_tail (X W' R Y : list Z) :
  W' ⊆+ R -> X ++ R ⊆+ Y -> X ++ W' ⊆+ Y.
Proof. intros H1 H2. etrans; [|exact H2]. by apply submseteq_skips_l. Qed.

Lemma fresh_step cy st st' : fresh st -> Trans cy st st' -> fresh st'.
Proof.
  intros (Hnd & Hus0 & Hps0 & Hpc0) T. unfold fresh, tickets in *.
  destruct T; subst; try done.
  - (* the loop moves on *)
    rewrite Hdb, Hps, Hus. repeat split; try done.
    + eapply NoDup_of_submseteq; [exact Hnd|]. apply tickets_shrink; [done|].
      etrans; [by eapply waiting_NextPc|].
      destruct Hpc as [[-> _]|[-> _]]; simpl; by apply submseteq_cons.
    + by destruct Hpc' as [[_ ->]|[->|(?&?&?&?&?&_&->&_)]].
  - rewrite Hdb, Hps, Hus, Hpc'. rewrite Hpc in Hnd. by repeat split.
  - (* the sends of a user start *)
    rewrite Hpc in Hnd, Hpc0. simpl in Hnd.
    destruct (settle_updates _ _ _ Hsettle) as (Hu & Hl & _). simpl in Hu, Hl.
    pose proof (waiting_NextPc _ _ _ Hpc') as Hw.
    rewrite Hdb, Hps, Hus. repeat split.
    + eapply NoDup_of_submseteq; [exact Hnd|].
      rewrite pendingUsers_snoc, Hu.
      rewrite (app_assoc _ _ (waiting _)).
      eapply submseteq_tail; [exact Hw|].
      destruct (settle_pending _ _ _ Hsettle) as [[-> E]|[(-> & _ & E)|(-> & _ & E)]];
        rewrite E; simpl; rewrite ?app_nil_r, ?fmap_app; simpl;
        solve_submseteq.
    + apply Forall_app. split; [done|].
      destruct (settle_pending _ _ _ Hsettle) as [[-> _]|[(-> & _)|(-> & _)]];
        [constructor..|]. by apply Forall_singleton.
    + apply Forall_app. split; [done|]. apply Forall_singleton. by rewrite Hu, Hl.
    + by destruct Hpc' as [[_ ->]|[->|(?&?&?&?&?&_&->&_)]].
  - rewrite Hdb, Hps, Hus, Hpc'. rewrite Hpc in Hnd. by repeat split.
  - rewrite Hdb, Hps, Hus, Hpc'. rewrite Hpc in Hnd. by repeat split.
  - rewrite Hdb, Hps, Hus, Hpc'. rewrite Hpc in Hnd, Hpc0.
    repeat split; try done.
  - rewrite Hdb, Hps, Hus, Hpc'. rewrite Hpc in Hnd. by repeat split.
  - (* a send moves *)
    destruct (settle_updates _ _ _ Hsettle) as (Hu & Hl & _). simpl in Hu, Hl.
    assert (Hdb : forall v, getLastNotifiedExpiration (st_db st') v
                            = getLastNotifiedExpiration (st_db st) v).
    { intros v. by destruct Hph as [(_ & _ & ->)|(_ & _ & ->)]. }
    assert (Ht : isPending t ->
                 getLastNotifiedExpiration (st_db st) (t_userID t) < t_latestExpiration t).
    { rewrite Forall_forall in Hps0. apply Hps0. by eapply list_elem_of_lookup_2. }
    pose proof (settle_pending _ _ _ Hsettle) as Hcase.
    change (isPending (withSends t (<[i:=withPhase s ph]> (t_sends t)))) with (isPending t)
      in Hcase. simpl in Hcase.
    rewrite Hps, Hus, Hpc'. repeat split.
    + eapply NoDup_of_submseteq; [exact Hnd|].
      apply tickets_shrink; [|done].
      destruct (pendingUsers_insert _ j t t' Hj Hu) as [[E ->]|[(E & E' & Hp)|[E E']]].
      * destruct Hcase as [[-> _]|[(-> & _)|(-> & E1 & E2)]];
          [by rewrite app_nil_r..|congruence].
      * rewrite <- Hp.
        destruct Hcase as [[-> _]|[(-> & _)|(-> & _)]]; rewrite ?app_nil_r, ?fmap_app;
          simpl; solve_submseteq.
      * destruct Hcase as [[_ E1]|[(_ & E1 & E2)|(_ & E1 & E2)]]; congruence.
    + apply Forall_app. split.
      * eapply Forall_impl; [exact Hus0|]. intros w Hw. by rewrite Hdb.
      * destruct Hcase as [[-> _]|[(-> & _)|(-> & E & _)]]; [constructor..|].
        apply Forall_singleton. simpl. rewrite Hdb. apply Ht. by rewrite E.
    + apply Forall_insert.
      * eapply Forall_impl; [exact Hps0|]. intros w Hw. by rewrite Hdb.
      * intros Hp. rewrite Hdb, Hu, Hl. apply Ht.
        destruct Hcase as [[_ E]|[(_ & _ & E)|(_ & _ & E)]];
          [by rewrite <- E| |]; rewrite E in Hp; done.
    + destruct (st_pc st); try done. by rewrite Hdb.
  - (* the database performs an UPDATE *)
    assert (Hk' : (st_updates st).*1 !! k = Some u).
    { by rewrite list_lookup_fmap, Hk. }
    apply NoDup_app in Hnd as (Hnd1 & Hdis & Hnd2).
    assert (Hother : forall v, v ∈ pendingUsers (st_promises st) ++ waiting (st_pc st) ->
                               v <> u).
    { intros v Hv ->. apply (Hdis u); [|done]. by eapply list_elem_of_lookup_2. }
    pose proof (NoDup_delete_lookup _ _ _ Hnd1 Hk') as Hnot.
    rewrite <- list_fmap_delete in Hnot.
    rewrite Hdb, Hps, Hus, Hpc'. repeat split.
    + eapply NoDup_of_submseteq; [apply NoDup_app; eauto|].
      apply submseteq_skips_r. rewrite list_fmap_delete. apply submseteq_delete.
    + apply Forall_forall. intros w Hw.
      rewrite getLast_update_other.
      * rewrite Forall_forall in Hus0. apply Hus0.
        by eapply list_elem_of_delete_inv.
      * intros E. apply Hnot. rewrite <- E. by apply list_elem_of_fmap_2.
    + apply Forall_forall. intros w Hw Hp.
      rewrite getLast_update_other.
      * rewrite Forall_forall in Hps0. by apply Hps0.
      * apply Hother, elem_of_app. left. unfold pendingUsers.
        apply list_elem_of_fmap_2. by apply list_elem_of_filter.
    + destruct (st_pc st) eqn:E; try done.
      rewrite getLast_update_other; [done|].
      apply Hother, elem_of_app. right. simpl. by left.
Qed.

Lemma JsMap_set_NoDup {V} (k : Z) (v : V) (m : JsMap.t V) :
  NoDup m.*1 -> NoDup (JsMap.set k v m).*1.
Proof.
  induction m as [|[k' v'] m IH]; simpl; intros Hnd.
  - apply NoDup_singleton.
  - apply NoDup_cons in Hnd as [Hk' Hnd].
    destruct (decide (k = k')) as [->|Hne]; simpl.
    + by apply NoDup_cons.
    + apply NoDup_cons. split; [|by apply IH].
      rewrite JsMap_set_keys. intros [E|E]; [congruence|by apply Hk'].
Qed.

Lemma JsMap_ofEntries_NoDup {V} (entries : list (Z * V)) :
  NoDup (JsMap.ofEntries entries).*1.
Proof.
  unfold JsMap.ofEntries.
  assert (G : forall m : JsMap.t V, NoDup m.*1 ->
                NoDup (foldl (fun m e => JsMap.set e.1 e.2 m) m entries).*1).
  { induction entries as [|e entries IH]; intros m Hm; simpl; [done|].
    by apply IH, JsMap_set_NoDup. }
  apply G. constructor.
Qed.

Lemma aggregateUsers_NoDup (gearToUsers : GearToUsers) :
  NoDup (aggregateUsers gearToUsers).*1.
Proof.
  unfold aggregateUsers. generalize (gearToUsers.*2). intros maps.
  assert (G : forall acc : JsMap.t string, NoDup acc.*1 ->
    NoDup (foldl (fun allUserMap userMap => JsMap.ofEntries (allUserMap ++ userMap)) acc maps).*1).
  { induction maps as [|m maps IH]; intros acc Hacc; simpl; [done|].
    apply IH, JsMap_ofEntries_NoDup. }
  apply G. constructor.
Qed.

Lemma Start_fresh cy db st : Start cy db st -> fresh st.
Proof.
  intros (Hdb & Hps & Hus & Htr & Hpc). unfold fresh, tickets.
  rewrite Hps, Hus. simpl. repeat split; try done.
  - eapply NoDup_of_submseteq; [apply (aggregateUsers_NoDup (gearToUserMap cy))|].
    by eapply waiting_NextPc.
  - by destruct Hpc as [[_ ->]|[->|(?&?&?&?&?&_&->&_)]].
Qed.

Lemma handler_fresh `{GearLoader} env req db sched k u x :
  st_updates (handler env req db sched) !! k = Some (u, x) ->
  getLastNotifiedExpiration (st_db (handler env req db sched)) u < x.
Proof.
  destruct (handler_cases env req db sched)
    as [(cy & st0 & _ & HS & ->)|[_ (_ & _ & Hus & _)]].
  - intros Hk.
    assert (Hf : fresh (exec cy sched st0)).
    { apply exec_invariant; [|by eapply Start_fresh].
      intros st1 st2 H1 T. by eapply fresh_step. }
    destruct Hf as (_ & Hf & _). rewrite Forall_forall in Hf.
    apply (Hf (u, x)). by eapply list_elem_of_lookup_2.
  - by rewrite Hus.
Qed.


Lemma handler_monotone `{GearLoader} env req db sched u :
  getLastNotifiedExpiration db u
  <= getLastNotifiedExpiration (st_db (handler env req db sched)) u.
Proof.
  destruct (handler_cases env req db sched) as [(cy & st0 & _ & HS & ->)|[_ (-> & _)]];
    [|done].
  destruct (exec_advancing cy db sched st0) as (Hdb & _);
    [by eapply Start_coherent|by eapply Start_advancing|].
  destruct (Hdb u) as [->|[_ Hlt]]; lia.
Qed.

Lemma setDb_same (st : State) : setDb (st_db st) st = st.
Proof. by destruct st. Qed.

(** While a request runs alone, no step lowers a stored expiration. *)
Lemma step_monotone cy st st' u :
  fresh st -> Trans cy st st' ->
  getLastNotifiedExpiration (st_db st) u <= getLastNotifiedExpiration (st_db st') u.
Proof.
  intros (_ & Hus & _) T.
  destruct (Trans_db _ _ _ T) as [->|[(sub & ->)|[(v & x & Hin & ->)| ->]]];
    [done|done| |done].
  rewrite Forall_forall in Hus. specialize (Hus _ Hin). cbn [fst snd] in Hus.
  destruct (decide (u = v)) as [->|Hne].
  - destruct (getLast_update_same (st_db st) v x) as [-> | ->]; lia.
  - by rewrite getLast_update_other.
Qed.

Lemma serial_monotone `{GearLoader} (moves : list Move) (u : Z) :
  forall sys,
    serial (length (sys_requests sys)) moves -> lastRunsAlone sys ->
    getLastNotifiedExpiration (sys_db sys) u
    <= getLastNotifiedExpiration (sys_db (run moves sys)) u.
Proof.
  unfold run. induction moves as [|[env req|r c] moves IH]; intros sys Hser Hlast;
    cbn [foldl serial] in *; [done| |].
  - etrans; [|apply IH]; [done| |].
    + cbn [move sys_requests]. rewrite length_app. cbn [length].
      by rewrite Nat.add_1_r.
    + intros cy st. cbn [move sys_requests sys_db].
      rewrite length_app. cbn [length]. rewrite Nat.add_1_r. cbn [pred].
      rewrite lookup_app_r by done. rewrite Nat.sub_diag. cbn [lookup list_lookup].
      intros [= Hp]. pose proof (prepare_Some _ _ _ _ _ Hp) as HS.
      split; [by destruct HS as (-> & _)|by eapply Start_fresh].
  - destruct Hser as [Hr Hser].
    assert (Hidx : pred (length (sys_requests sys)) = r) by lia.
    cbn [move]. destruct (sys_requests sys !! r) as [[[cy|] st]|] eqn:Hlook;
      [|by apply IH..].
    rewrite <- Hidx in Hlook. destruct (Hlast cy st Hlook) as [Hdb Hf].
    rewrite <- Hdb, setDb_same. rewrite Hidx in Hlook.
    etrans; [|apply IH].
    + cbn [sys_db]. apply (step_monotone cy); [done|apply step_Trans].
    + cbn [sys_requests]. by rewrite length_insert.
    + intros cy' st'. cbn [sys_requests sys_db]. rewrite length_insert, Hidx.
      rewrite list_lookup_insert_eq by (by eapply lookup_lt_Some).
      intros [= <- <-]. split; [done|].
      eapply fresh_step; [done|apply step_Trans].
Qed.


Lemma settle_sends t t' us : settle t = (t', us) -> t_sends t' = t_sends t.
Proof.
  intros E. destruct (settle_spec t) as (t1 & us1 & E1 & _ & _ & Hs & _).
  rewrite E in E1. by injection E1 as <- <-.
Qed.

Lemma pruning_step cy j i ep st st' :
  pruning j i ep st -> Trans cy st st' -> pruning j i ep st'.
Proof.
  intros (t & s & Hj & Hi & Hep & Hcase) T. unfold pruning.
  assert (Hkeep : st_promises st' !! j = Some t ->
                  (unsubscribed ep (st_db st) -> unsubscribed ep (st_db st')) ->
                  exists t0 s0, st_promises st' !! j = Some t0 /\ t_sends t0 !! i = Some s0
                    /\ endpoint (sd_subscription s0) = ep
                    /\ (sd_phase s0 = AwaitDelete
                        \/ (sd_phase s0 = Returned false /\ unsubscribed ep (st_db st')))).
  { intros Hj' Hdb'. exists t, s. repeat split; try done.
    destruct Hcase as [|[? ?]]; [by left|right; split; auto]. }
  pose proof (unsubscribed_step cy ep st st' T) as Hun.
  destruct T as [| | | | | | | |j' i' t1 s1 ph t1' us1|]; subst;
    try (apply Hkeep; [congruence|done]).
  - apply Hkeep; [|done]. rewrite Hps. by apply lookup_app_l_Some.
  - pose proof (settle_sends _ _ _ Hsettle) as Hsd. simpl in Hsd.
    destruct (decide (j = j')) as [<-|Hne].
    + rewrite Hj in Hj0. injection Hj0 as <-.
      assert (Hlen : (j < length (st_promises st))%nat) by by eapply lookup_lt_Some.
      destruct (decide (i = i')) as [<-|Hne].
      * rewrite Hi in Hi0. injection Hi0 as <-.
        assert (Hlen' : (i < length (t_sends t))%nat) by by eapply lookup_lt_Some.
        exists t1', (withPhase s ph). rewrite Hps, Hsd.
        rewrite list_lookup_insert_eq by done.
        rewrite list_lookup_insert_eq by done.
        repeat split.
        destruct Hph as [(Hp & _)|(Hp & -> & Hdb)].
        -- destruct Hcase as [E|[E _]]; congruence.
        -- right. split; [done|]. rewrite Hdb. apply unsubscribed_deleted.
      * exists t1', s. rewrite Hps, Hsd.
        rewrite list_lookup_insert_eq by done.
        rewrite list_lookup_insert_ne by done.
        repeat split; try done.
        destruct Hcase as [|[? ?]]; [by left|right; split; auto].
    + apply Hkeep; [|done]. rewrite Hps. by rewrite list_lookup_insert_ne.
Qed.

Lemma exec_pruning cy j i ep sched st :
  pruning j i ep st -> pruning j i ep (exec cy sched st).
Proof.
  apply exec_invariant. intros st1 st2 Hp T. by eapply pruning_step.
Qed.

Lemma pruning_answered j i ep st :
  settled st -> pruning j i ep st -> status st = Some 200 ->
  unsubscribed ep (st_db st).
Proof.
  intros [Hc Hr] (t & s & Hj & Hi & Hep & Hcase) Hst.
  destruct Hcase as [Hph|[_ Hun]]; [exfalso|done].
  unfold status in Hst. destruct (st_pc st) eqn:Hpc; try done.
  injection Hst as ->.
  assert (Hres : t_state t = Resolved).
  { specialize (Hc (or_intror (or_intror eq_refl))). rewrite Forall_forall in Hc.
    apply Hc. by eapply list_elem_of_lookup_2. }
  rewrite Forall_forall in Hr.
  specialize (Hr t (list_elem_of_lookup_2 _ _ _ Hj) Hres).
  rewrite Forall_forall in Hr.
  specialize (Hr s (list_elem_of_lookup_2 _ _ _ Hi)).
  unfold isReturned in Hr. by rewrite Hph in Hr.
Qed.

(** The reply of the push service that starts the pruning. *)
Lemma reply_pruning cy j i t s statusCode st :
  st_promises st !! j = Some t -> t_sends t !! i = Some s ->
  sd_phase s = AwaitPush -> permanentFailure statusCode = true ->
  let st' := step cy (PushReplies j i (WebPushError statusCode)) st in
  pruning j i (endpoint (sd_subscription s)) st'
  /\ EvDeleteIssued (endpoint (sd_subscription s)) ∈ st_trace st'.
Proof.
  intros Hj Hi Hph Hperm. simpl. rewrite Hj, Hi, Hph, Hperm.
  match goal with |- context [updateTask ?j ?t ?sends ?st1] =>
    destruct (updateTask_spec j t sends st1) as (t' & us & Hs & _ & _ & Hps & _ & Htr & _)
  end.
  pose proof (settle_sends _ _ _ Hs) as Hsd. simpl in Hsd.
  split.
  - exists t', (withPhase s AwaitDelete). rewrite Hps, Hsd. simpl.
    rewrite list_lookup_insert_eq by by eapply lookup_lt_Some.
    rewrite list_lookup_insert_eq by by eapply lookup_lt_Some.
    repeat split; by left.
  - rewrite Htr. simpl. rewrite !elem_of_app. left; right. by apply list_elem_of_singleton.
Qed.

Lemma exec_trace_grows cy sched st e :
  e ∈ st_trace st -> e ∈ st_trace (exec cy sched st).
Proof.
  apply (exec_invariant cy (fun st => e ∈ st_trace st)).
  intros st1 st2 Hin T. destruct (Trans_trace _ _ _ T) as [es ->].
  apply elem_of_app. by left.
Qed.

Lemma handler_unsubscribed `{GearLoader} env req db sched ep :
  unsubscribed ep db -> unsubscribed ep (st_db (handler env req db sched)).
Proof.
  intros Hun.
  destruct (handler_cases env req db sched) as [(cy & st0 & _ & HS & ->)|[_ (-> & _)]];
    [|done].
  apply (exec_invariant cy (fun st => unsubscribed ep (st_db st))).
  - intros st1 st2 H1 T. by eapply unsubscribed_step.
  - destruct HS as (-> & _). done.
Qed.

(** No move of any request brings back rows with the endpoint. *)
Lemma run_unsubscribed `{GearLoader} moves ep :
  forall sys, unsubscribed ep (sys_db sys) -> unsubscribed ep (sys_db (run moves sys)).
Proof.
  unfold run. induction moves as [|[env req|r c] moves IH]; intros sys Hun;
    cbn [foldl]; [done|by apply IH|].
  apply IH. cbn [move].
  destruct (sys_requests sys !! r) as [[[cy|] st]|]; [|done..].
  cbn [sys_db]. eapply unsubscribed_step; [apply step_Trans|done].
Qed.

(** Once the database performs the DELETE that a send is waiting for, no
    row has the endpoint. *)
Lemma delete_performed cy j i ep st :
  pruning j i ep st -> unsubscribed ep (st_db (step cy (DbDeletes j i) st)).
Proof.
  intros (t & s & Hj & Hi & Hep & [Hph|[_ Hun]]).
  - cbn [step]. rewrite Hj, Hi, Hph.
    match goal with |- context [updateTask ?j ?t ?sends ?st1] =>
      destruct (updateTask_spec j t sends st1) as (_ & _ & _ & -> & _)
    end.
    cbn [st_db setCounters logEvents setDb]. rewrite <- Hep. apply unsubscribed_deleted.
  - eapply unsubscribed_step; [apply step_Trans|done].
Qed.

Lemma exec_unsubscribed cy sched ep st :
  unsubscribed ep (st_db st) -> unsubscribed ep (st_db (exec cy sched st)).
Proof.
  apply (exec_invariant cy (fun st => unsubscribed ep (st_db st))).
  intros st1 st2 H1 T. by eapply unsubscribed_step.
Qed.

Lemma handler_app `{GearLoader} env req db cy st0 sched1 c sched2 :
  prepare env req db = (Some cy, st0) ->
  handler env req db sched1 = exec cy sched1 st0
  /\ handler env req db (sched1 ++ c :: sched2)
     = exec cy sched2 (step cy c (exec cy sched1 st0)).
Proof.
  intros Hp. unfold handler. rewrite Hp. split; [done|].
  unfold exec. by rewrite foldl_app.
Qed.

Lemma reachable_settled `{GearLoader} env req db cy st0 sched :
  prepare env req db = (Some cy, st0) ->
  settled (exec cy sched st0) /\ ordered (exec cy sched st0).
Proof.
  intros Hp. apply prepare_Some in Hp.
  apply exec_settled_ordered; [by eapply Start_settled|by eapply Start_ordered].
Qed.

(** C8: when the push service answers a send with 404, 410 or 403, the
    DELETE of the rows with the endpoint is issued at once, and from then
    on the send waits for that DELETE or has returned with no row left;
    no row has the endpoint once the database has performed the DELETE,
    and in particular when the request answers 200; and an endpoint
    without a row is in no user's subscription list after any moves of
    any requests. *)
Theorem C8_permanent_failure_prunes `{GearLoader}
    (env : Env) (req : Request) (db : DB) (sched1 sched2 : list Choice)
    (j i : nat) (t : Task) (s : Send) (statusCode : Z) :
  st_promises (handler env req db sched1) !! j = Some t ->
  t_sends t !! i = Some s ->
  sd_phase s = AwaitPush ->
  permanentFailure statusCode = true ->
  let ep := endpoint (sd_subscription s) in
  let st' := handler env req db
               (sched1 ++ PushReplies j i (WebPushError statusCode) :: sched2) in
  EvDeleteIssued ep ∈ st_trace st'
  /\ pruning j i ep st'
  /\ (DbDeletes j i ∈ sched2 -> unsubscribed ep (st_db st'))
  /\ (status st' = Some 200 -> unsubscribed ep (st_db st'))
  /\ (unsubscribed ep (st_db st') ->
      forall sys moves userID,
        sys_db sys = st_db st' ->
        Forall (fun sub => endpoint sub <> ep)
          (getUserSubscriptions (sys_db (run moves sys)) userID)).
Proof.
  intros Hj Hi Hph Hperm. cbv zeta.
  assert (Hlater : forall db', unsubscribed (endpoint (sd_subscription s)) db' ->
            forall sys moves userID,
              sys_db sys = db' ->
              Forall (fun sub => endpoint sub <> endpoint (sd_subscription s))
                (getUserSubscriptions (sys_db (run moves sys)) userID)).
  { intros db' Hun sys moves userID Hdb.
    apply unsubscribed_getUserSubscriptions, run_unsubscribed. by rewrite Hdb. }
  destruct (prepare env req db) as [[cy|] st0] eqn:Hp.
  2: { unfold handler in Hj. rewrite Hp in Hj.
       apply prepare_None in Hp as (_ & Hps & _). by rewrite Hps in Hj. }
  destruct (handler_app env req db cy st0 sched1
              (PushReplies j i (WebPushError statusCode)) sched2 Hp) as [E1 ->].
  rewrite E1 in Hj.
  destruct (reply_pruning cy j i t s statusCode _ Hj Hi Hph Hperm) as [Hpr Hev].
  cbv zeta in Hpr, Hev.
  split; [by apply exec_trace_grows|]. split; [by apply exec_pruning|].
  split; [|split; [|by apply Hlater]].
  - intros (a & b & ->)%list_elem_of_split.
    unfold exec. rewrite foldl_app. cbn [foldl].
    apply exec_unsubscribed, delete_performed. by apply exec_pruning.
  - intros Hst. eapply pruning_answered; [|by apply exec_pruning|done].
    destruct (reachable_settled env req db cy st0 sched1 Hp) as [Hs Ho].
    apply exec_settled_ordered.
    + eapply settled_step; [done|apply step_Trans].
    + eapply ordered_step; [done|done|apply step_Trans].
Qed.

(** *** Too early *)

Lemma earliestExpiration_head gear rest x :
  earliestExpiration (gear :: rest) = Some x -> x <= g_expiration gear.
Proof.
  simpl. intros [= <-]. induction rest as [|g rest IH]; simpl; lia.
Qed.

(** C6: for an authenticated request, when the stored snapshot is not empty
    and its earliest expiration is still ahead, the answer is 425 and
    nothing else happens: no fetch, no push, no write. *)
Theorem C6_too_early `{GearLoader}
    (env : Env) (req : Request) (db : DB) (sched : list Choice)
    (raw : RawGearData) (snapshot : list Gear) (x : Z) :
  authenticated (ACTION_SECRET env) (authorization req) = true ->
  fetchCachedRawGearData db = Some raw ->
  rawGearDataToGearList raw = Some snapshot ->
  earliestExpiration snapshot = Some x ->
  nowCheck env < x ->
  let st := handler env req db sched in
  status st = Some 425
  /\ st_trace st = []
  /\ st_db st = db
  /\ st_promises st = [] /\ st_updates st = [].
Proof.
  intros Hauth Hc Hraw Hx Hlt. simpl. unfold handler, prepare.
  rewrite Hauth, Hc, Hraw. simpl.
  destruct snapshot as [|gear rest]; [done|].
  apply earliestExpiration_head in Hx. simpl.
  destruct (Z.ltb_spec (nowCheck env) (g_expiration gear)); [done|lia].
Qed.


(** A request that fails the authentication is answered 401 before the
    cache is read. *)
Lemma unauthenticated_401 `{GearLoader} (env : Env) (req : Request) (db : DB)
    (sched : list Choice) :
  authenticated (ACTION_SECRET env) (authorization req) = false ->
  let st := handler env req db sched in
  status st = Some 401 /\ st_trace st = [] /\ st_db st = db.
Proof.
  intros Hauth. cbv zeta. unfold handler, prepare. by rewrite Hauth.
Qed.

(** *** A malformed name *)

Lemma insertBy_elem {A} (key : A -> nat) (x y : A) (l : list A) :
  y ∈ insertBy key x l <-> y = x \/ y ∈ l.
Proof.
  induction l as [|z l IH]; simpl.
  - rewrite list_elem_of_singleton, elem_of_nil. tauto.
  - destruct (key z <=? key x)%nat; rewrite !elem_of_cons; [rewrite IH|]; tauto.
Qed.

Lemma arrivalOrder_elem {A} (key : A -> nat) (y : A) (l : list A) :
  y ∈ arrivalOrder key l <-> y ∈ l.
Proof.
  unfold arrivalOrder.
  assert (G : forall acc, y ∈ foldl (fun acc x => insertBy key x acc) acc l
                          <-> y ∈ acc \/ y ∈ l).
  { induction l as [|x l IH]; intros acc; simpl.
    - rewrite elem_of_nil. tauto.
    - rewrite IH, insertBy_elem, elem_of_cons. tauto. }
  rewrite G, elem_of_nil. tauto.
Qed.

(** One lookup that rejects is enough for [getUsersToNotify] never to
    settle, whatever the other gear items are. *)
Lemma getUsersToNotify_rejected db newGear latency gear e :
  gear ∈ newGear -> getUsersToBeNotified db gear = Rejected e ->
  getUsersToNotify db newGear latency = None.
Proof.
  intros Hin Hrej. unfold getUsersToNotify.
  apply list_elem_of_lookup in Hin as [i Hi].
  assert (Hl : (latency i, gear, getUsersToBeNotified db gear)
               ∈ arrivalOrder (fun l : nat * Gear * Promise (JsMap.t string) => l.1.1)
                   (imap (fun i gear => (latency i, gear, getUsersToBeNotified db gear)) newGear)).
  { apply arrivalOrder_elem, elem_of_lookup_imap. by exists i, gear. }
  revert Hl. generalize (arrivalOrder (fun l : nat * Gear * Promise (JsMap.t string) => l.1.1)
    (imap (fun i gear => (latency i, gear, getUsersToBeNotified db gear)) newGear)).
  intros l Hl. induction l as [|x l IH]; [by apply elem_of_nil in Hl|].
  simpl. apply elem_of_cons in Hl as [<-|Hl].
  - simpl. by rewrite Hrej.
  - rewrite (IH Hl). by destruct (x.2).
Qed.

Lemma getUsersToBeNotified_bad_name db gear :
  allowedCharsPattern (g_name gear) = false ->
  getUsersToBeNotified db gear = Rejected IllegalArgumentError.
Proof. intros Hname. unfold getUsersToBeNotified. by rewrite Hname. Qed.

(** Whatever else is in the batch, a request whose new gear has an item
    with a name outside the allow-list stays at [getUsersToNotify]. *)
Lemma malformed_name_never_answers `{GearLoader} (env : Env) (req : Request) (db : DB)
    (sched : list Choice) (cachedGear fetchedGear : list Gear) (fetched : RawGearData)
    (gear : Gear) :
  authenticated (ACTION_SECRET env) (authorization req) = true ->
  match fetchCachedRawGearData db with
  | None => Some []
  | Some cachedRawGearData => rawGearDataToGearList cachedRawGearData
  end = Some cachedGear ->
  cacheNotExpired (nowCheck env) cachedGear = false ->
  apiRawGearData env = Some fetched ->
  rawGearDataToGearList fetched = Some fetchedGear ->
  gear ∈ getNewGearItems cachedGear fetchedGear ->
  allowedCharsPattern (g_name gear) = false ->
  let st := handler env req db sched in
  status st = None /\ st_trace st = [EvFetchAPI] /\ st_db st = db.
Proof.
  intros Hauth Hc Hexp Hapi Hf Hin Hname. cbv zeta. unfold handler, prepare.
  rewrite Hauth. cbn [negb]. rewrite Hc, Hexp, Hapi, Hf.
  by rewrite (getUsersToNotify_rejected db _ (latency env) gear IllegalArgumentError Hin
                (getUsersToBeNotified_bad_name db gear Hname)).
Qed.

(** * Further properties *)

(** ** Column names *)

Lemma lower_lower c : Str.lower (Str.lower c) = Str.lower c.
Proof. destruct c as [[] [] [] [] [] [] [] []]; reflexivity. Qed.

Lemma lower_kept c :
  Str.isOneOf "( )-" c = false -> Str.isOneOf "( )-" (Str.lower c) = false.
Proof. destruct c as [[] [] [] [] [] [] [] []]; vm_compute; congruence. Qed.

Lemma lower_not_upper c : Str.isUpper (Str.lower c) = false.
Proof. destruct c as [[] [] [] [] [] [] [] []]; reflexivity. Qed.

Lemma lower_ascii c : Str.isAscii c = true -> Str.isAscii (Str.lower c) = true.
Proof. destruct c as [[] [] [] [] [] [] [] []]; vm_compute; congruence. Qed.

Lemma formatCol_chars input : Str.all columnChar (formatCol input) = true.
Proof.
  unfold formatCol. induction input as [|c s IH]; [done|].
  cbn [Str.remove]. destruct (Str.isOneOf "( )-" c) eqn:E; [exact IH|].
  cbn [Str.map Str.all]. rewrite IH, andb_true_r. unfold columnChar.
  by rewrite lower_kept, lower_not_upper.
Qed.

Lemma formatCol_fixed s : Str.all columnChar s = true -> formatCol s = s.
Proof.
  unfold formatCol. induction s as [|c s IH]; [done|].
  cbn [Str.all]. intros [Hc Hs]%andb_true_iff.
  unfold columnChar in Hc. apply andb_true_iff in Hc as [H1%negb_true_iff H2%negb_true_iff].
  cbn [Str.remove]. rewrite H1. cbn [Str.map]. rewrite (IH Hs).
  f_equal. unfold Str.lower. by rewrite H2.
Qed.

(** X1: on a string of ASCII characters, [formatCol] applied to what it
    has produced changes nothing; what it produces holds none of the
    characters it removes (opening and closing parenthesis, space, hyphen)
    and no capital letter, and is a string of ASCII characters again. *)
Theorem X1_formatCol_idempotent (input : string) :
  Str.all Str.isAscii input = true ->
  formatCol (formatCol input) = formatCol input
  /\ Str.all columnChar (formatCol input) = true
  /\ Str.all Str.isAscii (formatCol input) = true.
Proof.
  intros Hascii.
  split; [apply formatCol_fixed, formatCol_chars|]. split; [apply formatCol_chars|].
  unfold formatCol. induction input as [|c s IH]; [done|].
  cbn [Str.all] in Hascii. apply andb_true_iff in Hascii as [Hc Hs].
  cbn [Str.remove]. destruct (Str.isOneOf "( )-" c); [by apply IH|].
  cbn [Str.map Str.all]. rewrite (IH Hs), andb_true_r. by apply lower_ascii.
Qed.

(** ** Reading filters back *)

Lemma JsStrMap_set_new {V} (k : string) (v : V) (m : JsStrMap.t V) :
  k ∉ m.*1 -> JsStrMap.set k v m = m ++ [(k, v)].
Proof.
  induction m as [|[k' v'] m IH]; [done|].
  cbn [JsStrMap.set fmap list_fmap]. intros Hk.
  apply not_elem_of_cons in Hk as [Hne Hk]. cbn in Hne.
  destruct (decide (k = k')); [done|]. by rewrite IH.
Qed.

Lemma mapFromColumnName_fold (cols : list string) (acc : JsStrMap.t string) :
  NoDup (acc.*1 ++ (formatCol <$> cols)) ->
  foldl (fun map col => JsStrMap.set (formatCol col) col map) acc cols
  = acc ++ ((fun x => (formatCol x, x)) <$> cols).
Proof.
  revert acc. induction cols as [|x cols IH]; intros acc Hnd.
  - by rewrite app_nil_r.
  - cbn [foldl fmap list_fmap] in *.
    apply NoDup_app in Hnd as (Hacc & Hdisj & Hcols).
    apply NoDup_cons in Hcols as [Hx Hcols].
    rewrite JsStrMap_set_new by (intros Hin; apply (Hdisj _ Hin); left).
    rewrite IH.
    + by rewrite <- app_assoc.
    + rewrite fmap_app. cbn. rewrite <- app_assoc. cbn.
      apply NoDup_app. split; [done|]. split; [|by apply NoDup_cons].
      intros y Hy. apply Hdisj. exact Hy.
Qed.

Lemma mapFromColumnName_distinct (cols : list string) :
  NoDup (formatCol <$> cols) ->
  mapFromColumnName cols = (fun x => (formatCol x, x)) <$> cols.
Proof.
  intros Hnd. unfold mapFromColumnName.
  by rewrite mapFromColumnName_fold.
Qed.

Lemma JsStrMap_get_formatted (cols : list string) (x : string) :
  NoDup (formatCol <$> cols) -> x ∈ cols ->
  JsStrMap.get (formatCol x) ((fun x => (formatCol x, x)) <$> cols) = Some x.
Proof.
  induction cols as [|y cols IH]; intros Hnd Hx; [by apply elem_of_nil in Hx|].
  cbn [fmap list_fmap] in *. apply NoDup_cons in Hnd as [Hy Hnd].
  cbn [JsStrMap.get]. apply elem_of_cons in Hx as [->|Hx].
  - by destruct (decide (formatCol y = formatCol y)).
  - destruct (decide (formatCol x = formatCol y)) as [E|_]; [|by apply IH].
    exfalso. apply Hy. rewrite <- E. by apply list_elem_of_fmap_2.
Qed.

Lemma filter_ext_elem {A} (P1 P2 : A -> Prop) `{forall x, Decision (P1 x)}
    `{forall x, Decision (P2 x)} (l : list A) :
  (forall x, x ∈ l -> P1 x <-> P2 x) -> filter P1 l = filter P2 l.
Proof.
  induction l as [|y l IH]; intros Hext; [done|].
  rewrite !filter_cons.
  assert (Hy : P1 y <-> P2 y) by (apply Hext; left).
  rewrite IH by (intros x Hx; apply Hext; by right).
  destruct (decide (P1 y)), (decide (P2 y)); tauto.
Qed.

Lemma filter_fmap_formatCol (P : string -> Prop) `{forall x, Decision (P x)}
    (l : list string) :
  filter P (formatCol <$> l) = formatCol <$> filter (fun x => P (formatCol x)) l.
Proof.
  induction l as [|y l IH]; [done|]. cbn [fmap list_fmap].
  rewrite !filter_cons. destruct (decide (P (formatCol y)));
    cbn [fmap list_fmap]; by rewrite IH.
Qed.

(** For names whose formatted forms are distinct, the loop of
    [rowDataToFilter] reads back the names whose column is true. *)
Lemma selectedNames_distinct (rowData : FilterRow) (cols : list string) :
  NoDup (formatCol <$> cols) ->
  selectedNames rowData cols
  = filter (fun x => columnValue rowData (formatCol x) = true) cols.
Proof.
  intros Hnd. unfold selectedNames, JsStrMap.keys.
  rewrite mapFromColumnName_distinct by done.
  rewrite <- list_fmap_compose.
  change ((fst ∘ (fun x : string => (formatCol x, x))) <$> cols) with (formatCol <$> cols).
  rewrite (filter_fmap_formatCol (fun col => columnValue rowData col = true)).
  rewrite <- list_fmap_compose.
  etrans; [|apply list_fmap_id].
  apply Forall_fmap_ext_1, Forall_forall. intros x Hx.
  apply list_elem_of_filter in Hx as [_ Hx].
  unfold compose, mapGetWithDefault. by rewrite JsStrMap_get_formatted.
Qed.

Lemma GEAR_TYPES_distinct : NoDup (formatCol <$> GEAR_TYPES).
Proof. apply (bool_decide_unpack _). by vm_compute. Qed.

Lemma GEAR_BRANDS_distinct : NoDup (formatCol <$> GEAR_BRANDS).
Proof. apply (bool_decide_unpack _). by vm_compute. Qed.

Lemma GEAR_ABILITIES_distinct : NoDup (formatCol <$> GEAR_ABILITIES).
Proof. apply (bool_decide_unpack _). by vm_compute. Qed.

Lemma filter_elem_nil {A} `{EqDecision A} (l : list A) :
  filter (fun x => x ∈ @nil A) l = [].
Proof.
  induction l as [|y l IH]; [done|]. rewrite filter_cons.
  destruct (decide (y ∈ @nil A)) as [Hy|_]; [by apply elem_of_nil in Hy|done].
Qed.

Lemma arrayEqual_nil (l : list string) : arrayEqual l [] = true <-> l = [].
Proof. unfold arrayEqual. by rewrite bool_decide_eq_true. Qed.

(** The names that come back from the row of a filter. *)
Lemma selectedNames_stored (name : string) (filter : Filter) :
  let row := withName name (filterToTableData filter) in
  selectedNames row GEAR_TYPES
  = base.filter (fun x => x ∈ gearTypes filter) GEAR_TYPES
  /\ selectedNames row GEAR_BRANDS
     = base.filter (fun x => x ∈ gearBrands filter) GEAR_BRANDS
  /\ selectedNames row GEAR_ABILITIES
     = base.filter (fun x => x ∈ gearAbilities filter) GEAR_ABILITIES.
Proof.
  intros row. subst row.
  destruct (columnValue_stored filter) as (Ht & Hb & Ha).
  rewrite !selectedNames_distinct
    by (apply GEAR_TYPES_distinct || apply GEAR_BRANDS_distinct
        || apply GEAR_ABILITIES_distinct).
  split; [|split]; apply filter_ext_elem; intros x Hx; rewrite columnValue_withName.
  - rewrite (Ht x Hx). apply bool_decide_eq_true.
  - rewrite (Hb x Hx). apply bool_decide_eq_true.
  - rewrite (Ha x Hx). apply bool_decide_eq_true.
Qed.

Lemma rowDataToFilter_stored (name : string) (filter : Filter) :
  rowDataToFilter (withName name (filterToTableData filter))
  = {| gearName := name;
       minimumRarity := minimumRarity filter;
       gearTypes := base.filter (fun x => x ∈ gearTypes filter) GEAR_TYPES;
       gearBrands := base.filter (fun x => x ∈ gearBrands filter) GEAR_BRANDS;
       gearAbilities := base.filter (fun x => x ∈ gearAbilities filter) GEAR_ABILITIES |}.
Proof.
  destruct (selectedNames_stored name filter) as (Ht & Hb & Ha).
  unfold rowDataToFilter. rewrite Ht, Hb, Ha.
  unfold withName, filterToTableData;
    cbn [f_name f_rarity f_typewildcard f_brandwildcard f_abilitywildcard].
  f_equal.
  - destruct (arrayEqual (gearTypes filter) []) eqn:E; [|done].
    apply arrayEqual_nil in E. rewrite E. symmetry. apply filter_elem_nil.
  - destruct (arrayEqual (gearBrands filter) []) eqn:E; [|done].
    apply arrayEqual_nil in E. rewrite E. symmetry. apply filter_elem_nil.
  - destruct (arrayEqual (gearAbilities filter) []) eqn:E; [|done].
    apply arrayEqual_nil in E. rewrite E. symmetry. apply filter_elem_nil.
Qed.

(** X2: the row that the INSERT of [tryAddFilter] adds for a filter
    ([insertedRow] of [filterToTableData]) is read back by
    [rowDataToFilter] as the name stored in the row, which is what
    [varchar(255)] keeps of the name of the filter (the name itself when
    it has at most 255 characters), the minimum rarity of the filter and,
    for types, brands and abilities, the known names that the filter
    lists, in the order of the constant tables: names without a column and
    repetitions are lost, and an empty list stays empty.  Read from the
    values of [filterToTableData] themselves, the name would come back
    between apostrophes. *)
Theorem X2_rowDataToFilter_stored (filter : Filter) (row : FilterRow) :
  insertedRow (filterToTableData filter) = Some row ->
  rowDataToFilter row
  = {| gearName := f_name row;
       minimumRarity := minimumRarity filter;
       gearTypes := base.filter (fun x => x ∈ gearTypes filter) GEAR_TYPES;
       gearBrands := base.filter (fun x => x ∈ gearBrands filter) GEAR_BRANDS;
       gearAbilities := base.filter (fun x => x ∈ gearAbilities filter) GEAR_ABILITIES |}
  /\ varchar255 (gearName filter) = Some (f_name row)
  /\ ((String.length (gearName filter) <= 255)%nat -> f_name row = gearName filter)
  /\ gearName (rowDataToFilter (filterToTableData filter)) = sqlQuote (gearName filter).
Proof.
  intros (_ & _ & name & Hv & ->)%insertedRow_Some.
  split; [apply rowDataToFilter_stored|]. split; [done|]. split; [|done].
  intros Hlen. by apply varchar255_Some in Hv as (_ & _ & ->).
Qed.

Lemma filter_elem_sublist {A} `{EqDecision A} (l k : list A) :
  NoDup k -> sublist l k -> filter (fun x => x ∈ l) k = l.
Proof.
  intros Hnd Hsub. induction Hsub as [|x l k Hsub IH|x l k Hsub IH].
  - done.
  - apply NoDup_cons in Hnd as [Hx Hnd]. rewrite filter_cons.
    destruct (decide (x ∈ x :: l)) as [_|Hn]; [|exfalso; apply Hn; left].
    f_equal. etrans; [|apply (IH Hnd)]. apply filter_ext_elem.
    intros y Hy. rewrite elem_of_cons. split; [|by right].
    intros [->|Hin]; [done|exact Hin].
  - apply NoDup_cons in Hnd as [Hx Hnd]. rewrite filter_cons.
    destruct (decide (x ∈ l)) as [Hin|_]; [|by apply IH].
    exfalso. apply Hx. by eapply elem_of_sublist.
Qed.

Lemma NoDup_of_fmap {A B} (f : A -> B) (l : list A) : NoDup (f <$> l) -> NoDup l.
Proof. apply NoDup_fmap_1. Qed.

(** X3: a filter whose name has at most 255 characters and whose types,
    brands and abilities are listed in the order of the constant tables,
    without repetition and without unknown names, is read back as it was
    from the row that the INSERT adds for it. *)
Theorem X3_filter_round_trip (filter : Filter) (row : FilterRow) :
  insertedRow (filterToTableData filter) = Some row ->
  (String.length (gearName filter) <= 255)%nat ->
  sublist (gearTypes filter) GEAR_TYPES ->
  sublist (gearBrands filter) GEAR_BRANDS ->
  sublist (gearAbilities filter) GEAR_ABILITIES ->
  rowDataToFilter row = filter.
Proof.
  intros Hrow Hlen Ht Hb Ha.
  apply (insertedRow_short _ _ Hlen) in Hrow as (-> & _).
  unfold storedRow. rewrite rowDataToFilter_stored.
  rewrite !filter_elem_sublist;
    try done; try (eapply NoDup_of_fmap;
      first [apply GEAR_TYPES_distinct | apply GEAR_BRANDS_distinct
            | apply GEAR_ABILITIES_distinct]).
  by destruct filter.
Qed.

Lemma setFlags_ext (names s1 s2 : list string) (data : gmap string bool) :
  (forall x, x ∈ names -> x ∈ s1 <-> x ∈ s2) ->
  setFlags names s1 data = setFlags names s2 data.
Proof.
  unfold setFlags. revert data.
  induction names as [|y names IH]; intros data Hext; [done|].
  cbn [foldl].
  assert (E : bool_decide (y ∈ s1) = bool_decide (y ∈ s2)).
  { apply bool_decide_ext, Hext. left. }
  rewrite E. apply IH. intros x Hx. apply Hext. by right.
Qed.

Lemma elem_filter_known (names sel : list string) (x : string) :
  x ∈ names -> x ∈ filter (fun x => x ∈ sel) names <-> x ∈ sel.
Proof. intros Hx. rewrite list_elem_of_filter. tauto. Qed.

Lemma filter_known_nil (names sel : list string) :
  filter (fun x => x ∈ sel) names = [] <-> forall x, x ∈ sel -> x ∉ names.
Proof.
  split.
  - intros E x Hs Hn.
    assert (Hin : x ∈ filter (fun x => x ∈ sel) names) by by apply list_elem_of_filter.
    rewrite E in Hin. by apply elem_of_nil in Hin.
  - intros Hno. destruct (filter _ names) as [|y l] eqn:E; [done|].
    assert (Hin : y ∈ filter (fun x => x ∈ sel) names) by (rewrite E; left).
    apply list_elem_of_filter in Hin as [Hs Hn]. by destruct (Hno y Hs).
Qed.

Lemma arrayEqual_known (names sel : list string) :
  arrayEqual (filter (fun x => x ∈ sel) names) [] = arrayEqual sel []
  <-> storable names sel.
Proof.
  unfold storable. destruct (arrayEqual sel []) eqn:E.
  - apply arrayEqual_nil in E as ->. rewrite filter_elem_nil. split; [by left|done].
  - assert (Hne : sel <> []).
    { intros ->. by rewrite (proj2 (arrayEqual_nil [])) in E. }
    destruct (arrayEqual (filter _ names) []) eqn:E'.
    + apply arrayEqual_nil in E'. rewrite filter_known_nil in E'.
      split; [done|]. intros [?|(x & Hs & Hn)]; [done|]. by destruct (E' x Hs).
    + split; [|done]. intros _. right.
      destruct (filter (fun x => x ∈ sel) names) as [|y l] eqn:F.
      { by rewrite (proj2 (arrayEqual_nil [])) in E'. }
      assert (Hin : y ∈ filter (fun x => x ∈ sel) names) by (rewrite F; left).
      apply list_elem_of_filter in Hin as [Hs Hn]. by exists y.
Qed.

(** X4: for a filter that the INSERT accepts, inserting the filter that
    is read back from its row adds the same row exactly when each of the
    three lists of the filter is empty or holds a known name.  (A list of
    unknown names only is stored as a row that matches nothing and read
    back as the empty list, which is stored as a wildcard.) *)
Theorem X4_stored_again (filter : Filter) (row : FilterRow) :
  insertedRow (filterToTableData filter) = Some row ->
  insertedRow (filterToTableData (rowDataToFilter row)) = Some row
  <-> storable GEAR_TYPES (gearTypes filter)
      /\ storable GEAR_BRANDS (gearBrands filter)
      /\ storable GEAR_ABILITIES (gearAbilities filter).
Proof.
  intros (Hplain & Hint & name & Hv & ->)%insertedRow_Some.
  apply varchar255_Some in Hv as (Hlen & Hp & _). specialize (Hp Hplain).
  rewrite rowDataToFilter_stored.
  rewrite insertedRow_storedRow by done.
  unfold storedRow, withName, filterToTableData;
    cbn [gearName minimumRarity gearTypes gearBrands gearAbilities
         f_name f_rarity f_typewildcard f_brandwildcard f_abilitywildcard f_flags].
  rewrite (setFlags_ext GEAR_ABILITIES _ (gearAbilities filter))
    by (intros x Hx; by apply elem_filter_known).
  rewrite (setFlags_ext GEAR_BRANDS _ (gearBrands filter))
    by (intros x Hx; by apply elem_filter_known).
  rewrite (setFlags_ext GEAR_TYPES _ (gearTypes filter))
    by (intros x Hx; by apply elem_filter_known).
  rewrite <- !arrayEqual_known.
  split.
  - intros E. injection E as E1 E2 E3. done.
  - intros (E1 & E2 & E3). by rewrite E1, E2, E3.
Qed.

(** ** The [Filters] table *)

Lemma sameFilterData_spec (filterData row : FilterRow) :
  sameFilterData filterData row = true
  <-> f_name row = f_name filterData
      /\ f_rarity row = f_rarity filterData
      /\ f_typewildcard row = f_typewildcard filterData
      /\ f_abilitywildcard row = f_abilitywildcard filterData
      /\ f_brandwildcard row = f_brandwildcard filterData
      /\ forall col value, f_flags filterData !! col = Some value ->
                           f_flags row !! col = Some value.
Proof.
  unfold sameFilterData.
  rewrite !andb_true_iff, !bool_decide_eq_true, Z.eqb_eq.
  unfold map_Forall. tauto.
Qed.

Lemma sameFilterData_refl (filterData : FilterRow) :
  sameFilterData filterData filterData = true.
Proof. apply sameFilterData_spec. repeat split; done. Qed.

(** What the look-up finds. *)
Lemma findFilterID_cases (db : DB) (data : FilterRow) :
  (exists filterID row rest,
     base.filter (fun fr => sameFilterData data fr.2 = true) (filters db)
     = (filterID, row) :: rest
     /\ findFilterID db data = filterID)
  \/ (base.filter (fun fr => sameFilterData data fr.2 = true) (filters db) = []
      /\ findFilterID db data = -1).
Proof.
  unfold findFilterID.
  destruct (base.filter _ (filters db)) as [|[filterID row] rest] eqn:E.
  - by right.
  - left. by exists filterID, row, rest.
Qed.

Lemma findFilterID_elem (db : DB) (data : FilterRow) :
  findFilterID db data <> -1 ->
  exists row, (findFilterID db data, row) ∈ filters db
              /\ sameFilterData data row = true.
Proof.
  intros Hne.
  destruct (findFilterID_cases db data)
    as [(filterID & row & rest & Hf & E)|[_ E]]; [|done].
  rewrite E. exists row.
  assert (Hin : (filterID, row) ∈ base.filter
            (fun fr => sameFilterData data fr.2 = true)
            (filters db)) by (rewrite Hf; left).
  apply list_elem_of_filter in Hin as [Hsame Hin]. done.
Qed.

Lemma findFilterID_none (db : DB) (data : FilterRow) :
  Forall (fun fr => fr.1 <> -1) (filters db) ->
  findFilterID db data = -1 ->
  Forall (fun fr => sameFilterData data fr.2 <> true) (filters db).
Proof.
  intros Hids E.
  destruct (findFilterID_cases db data)
    as [(filterID & row & rest & Hf & E')|[Hf _]].
  - exfalso. rewrite E in E'. subst filterID.
    assert (Hin : (-1, row) ∈ base.filter
              (fun fr => sameFilterData data fr.2 = true)
              (filters db)) by (rewrite Hf; left).
    apply list_elem_of_filter in Hin as [_ Hin].
    rewrite Forall_forall in Hids. by apply (Hids _ Hin).
  - apply Forall_forall. intros fr Hin Hsame.
    assert (Hin' : fr ∈ base.filter
              (fun fr => sameFilterData data fr.2 = true)
              (filters db)) by by apply list_elem_of_filter.
    rewrite Hf in Hin'. by apply elem_of_nil in Hin'.
Qed.

Lemma filter_app_first {A} (P : A -> Prop) `{forall x, Decision (P x)}
    (l k : list A) (x : A) (rest : list A) :
  filter P l = x :: rest -> filter P (l ++ k) = x :: (rest ++ filter P k).
Proof. intros E. by rewrite filter_app, E. Qed.

Lemma filter_none {A} (P : A -> Prop) `{forall x, Decision (P x)} (l : list A) :
  Forall (fun x => ~ P x) l -> filter P l = [].
Proof.
  induction 1 as [|x l Hx Hl IH]; [done|].
  rewrite filter_cons. by destruct (decide (P x)).
Qed.

(** For a name without an apostrophe the look-up compares with the row of
    the filter. *)
Lemma getMatchingFilterID_plain (db : DB) (filter : Filter) :
  sqlPlain (gearName filter) = true ->
  getMatchingFilterID db filter = Done (findFilterID db (storedRow filter)).
Proof.
  intros Hplain. unfold getMatchingFilterID. cbn [filterToTableData f_name].
  by rewrite (stringConstant_quote _ Hplain).
Qed.

(** What [tryAddFilter] does for a filter that the table can hold. *)
Lemma tryAddFilter_cases (db : DB) (newFilterID : Z) (filter : Filter) :
  sqlPlain (gearName filter) = true ->
  int2 (minimumRarity filter) = true ->
  (String.length (gearName filter) <= 255)%nat ->
  newFilterID ∉ (filters db).*1 ->
  (findFilterID db (storedRow filter) <> -1
   /\ tryAddFilter db newFilterID filter = Done (db, findFilterID db (storedRow filter)))
  \/ (findFilterID db (storedRow filter) = -1
      /\ tryAddFilter db newFilterID filter
         = Done (with_filters db (filters db ++ [(newFilterID, storedRow filter)]),
                 newFilterID)).
Proof.
  intros Hplain Hint Hlen Hfresh. unfold tryAddFilter.
  rewrite (getMatchingFilterID_plain db filter Hplain).
  destruct (decide (findFilterID db (storedRow filter) = -1)) as [E|E]; [right|by left].
  split; [done|]. rewrite (insertedRow_storedRow filter Hplain Hint Hlen).
  by rewrite bool_decide_eq_false_2.
Qed.

(** How a call of [tryAddFilter] that returns has gone. *)
Lemma tryAddFilter_Done (db : DB) (newFilterID : Z) (filter : Filter) (r : DB * Z) :
  (String.length (gearName filter) <= 255)%nat ->
  tryAddFilter db newFilterID filter = Done r ->
  sqlPlain (gearName filter) = true
  /\ ((findFilterID db (storedRow filter) <> -1
       /\ r = (db, findFilterID db (storedRow filter)))
      \/ (findFilterID db (storedRow filter) = -1
          /\ (newFilterID ∉ (filters db).*1)
          /\ r = (with_filters db (filters db ++ [(newFilterID, storedRow filter)]),
                  newFilterID))).
Proof.
  intros Hlen. unfold tryAddFilter, getMatchingFilterID.
  cbn [filterToTableData f_name].
  destruct (stringConstant (sqlQuote (gearName filter))) as [name|] eqn:Hname; [|done].
  apply stringConstant_Some in Hname as [-> Hplain].
  fold (storedRow filter).
  destruct (decide (findFilterID db (storedRow filter) = -1)) as [E|E].
  2: { intros [= <-]. split; [done|]. by left. }
  destruct (insertedRow (filterToTableData filter)) as [row|] eqn:Hrow; [|done].
  apply (insertedRow_short _ _ Hlen) in Hrow as (-> & _).
  destruct (bool_decide (newFilterID ∈ (filters db).*1)) eqn:Hfresh; [done|].
  apply bool_decide_eq_false in Hfresh.
  intros [= <-]. split; [done|]. by right.
Qed.

(** The id that [tryAddFilter] returns is the one a later look-up finds. *)
Lemma tryAddFilter_found (db : DB) (newFilterID : Z) (filter : Filter) (r : DB * Z) :
  (String.length (gearName filter) <= 255)%nat ->
  Forall (fun fr => fr.1 <> -1) (filters db) ->
  newFilterID <> -1 ->
  tryAddFilter db newFilterID filter = Done r ->
  sqlPlain (gearName filter) = true
  /\ findFilterID r.1 (storedRow filter) = r.2 /\ r.2 <> -1.
Proof.
  intros Hlen Hids Hnew Hr.
  destruct (tryAddFilter_Done db newFilterID filter r Hlen Hr)
    as (Hplain & [[E ->]|(E & _ & ->)]); [done|].
  cbn [fst snd]. split; [done|]. split; [|done].
  pose proof (findFilterID_none db (storedRow filter) Hids E) as Hnone.
  unfold findFilterID. cbn [filters with_filters].
  rewrite filter_app, (filter_none _ _ Hnone). cbn [app]. rewrite filter_cons. cbn [snd].
  destruct (decide (sameFilterData (storedRow filter) (storedRow filter) = true))
    as [_|Hn]; [done|].
  by rewrite sameFilterData_refl in Hn.
Qed.

(** X5: for a filter whose name has no apostrophe, no character of code
    0 and at most 255 characters and whose minimum rarity fits [int2], on
    a table without the id -1, when the id that the sequence gives is
    neither -1 nor in the table: [tryAddFilter] returns; a second call for
    the same filter, whatever the sequence would give it, changes nothing
    and returns the same id; the id returned is in the table and is the
    one [getMatchingFilterID] finds afterwards; and a filter that is
    already found leaves the database as it is. *)
Theorem X5_tryAddFilter_idempotent (db : DB) (newFilterID otherID : Z) (filter : Filter) :
  sqlPlain (gearName filter) = true ->
  int2 (minimumRarity filter) = true ->
  (String.length (gearName filter) <= 255)%nat ->
  Forall (fun fr => fr.1 <> -1) (filters db) ->
  newFilterID <> -1 ->
  newFilterID ∉ (filters db).*1 ->
  exists r,
    tryAddFilter db newFilterID filter = Done r
    /\ tryAddFilter r.1 otherID filter = Done r
    /\ hasFilterID r.1 r.2 = true
    /\ getMatchingFilterID r.1 filter = Done r.2
    /\ (getMatchingFilterID db filter <> Done (-1) -> r.1 = db).
Proof.
  intros Hplain Hint Hlen Hids Hnew Hfresh.
  assert (Hr : exists r, tryAddFilter db newFilterID filter = Done r).
  { destruct (tryAddFilter_cases db newFilterID filter Hplain Hint Hlen Hfresh)
      as [[_ ->]|[_ ->]]; by eexists. }
  destruct Hr as [r Hr]. exists r. split; [done|].
  destruct (tryAddFilter_found db newFilterID filter r Hlen Hids Hnew Hr)
    as (_ & Hfound & Hne).
  split; [|split; [|split]].
  - unfold tryAddFilter. rewrite (getMatchingFilterID_plain _ _ Hplain), Hfound.
    destruct (decide (r.2 = -1)); [done|]. by destruct r.
  - unfold hasFilterID. apply bool_decide_eq_true.
    rewrite <- Hfound in Hne.
    destruct (findFilterID_elem r.1 _ Hne) as (row & Hin & _).
    rewrite Hfound in Hin. by apply (list_elem_of_fmap_2 fst) in Hin.
  - by rewrite (getMatchingFilterID_plain _ _ Hplain), Hfound.
  - rewrite (getMatchingFilterID_plain _ _ Hplain). intros Hold.
    destruct (tryAddFilter_cases db newFilterID filter Hplain Hint Hlen Hfresh)
      as [[_ E]|[E _]]; [|by rewrite E in Hold].
    rewrite E in Hr. by injection Hr as <-.
Qed.

(** X6: on a table whose rows are pairwise different and without the id
    -1, a call of [tryAddFilter] that returns, for a filter whose name has
    no apostrophe, no character of code 0 and at most 255 characters,
    leaves the rows pairwise different, and the ids too if they were; and when no row is found and the minimum rarity
    does not fit [int2], or the id that the sequence gives is taken,
    [tryAddFilter] throws the error of the database. *)
Theorem X6_tryAddFilter_no_duplicate (db : DB) (newFilterID : Z) (filter : Filter) :
  sqlPlain (gearName filter) = true ->
  Forall (fun fr => fr.1 <> -1) (filters db) ->
  NoDup (filters db).*2 ->
  ((String.length (gearName filter) <= 255)%nat ->
   forall r, tryAddFilter db newFilterID filter = Done r ->
     NoDup (filters r.1).*2
     /\ (NoDup (filters db).*1 -> NoDup (filters r.1).*1))
  /\ (getMatchingFilterID db filter = Done (-1) ->
      int2 (minimumRarity filter) = false \/ newFilterID ∈ (filters db).*1 ->
      tryAddFilter db newFilterID filter = Thrown DatabaseError).
Proof.
  intros _ Hids Hnd. split.
  - intros Hlen r Hr.
    destruct (tryAddFilter_Done db newFilterID filter r Hlen Hr)
      as (_ & [[_ ->]|(E & Hfresh & ->)]); [done|].
    cbn [fst filters with_filters]. rewrite !fmap_app. cbn [fmap list_fmap fst snd].
    split.
    + apply NoDup_app. split; [done|]. split; [|apply NoDup_singleton].
      intros row Hrow Hin. apply list_elem_of_singleton in Hin as ->.
      apply list_elem_of_fmap in Hrow as ([filterID row] & Hrow & Hin).
      cbn in Hrow. subst row.
      pose proof (findFilterID_none db (storedRow filter) Hids E) as Hnone.
      rewrite Forall_forall in Hnone. apply (Hnone _ Hin). cbn. apply sameFilterData_refl.
    + intros Hnd1. apply NoDup_app. split; [done|]. split; [|apply NoDup_singleton].
      intros filterID Hid Hin. by apply list_elem_of_singleton in Hin as ->.
  - intros Hnone Hbad. unfold tryAddFilter. rewrite Hnone.
    destruct (decide (-1 = -1)) as [_|]; [|done].
    unfold insertedRow. cbn [filterToTableData f_name f_rarity].
    destruct (stringConstant _) as [value|]; [|done].
    destruct (varchar255 value) as [name|]; [|done].
    destruct Hbad as [->| Hin]; [done|].
    destruct (int2 _); [|done]. by rewrite bool_decide_eq_true_2.
Qed.

(** ** Users and their filters *)

Lemma filter_keep_all {A} (P : A -> Prop) `{forall x, Decision (P x)} (l : list A) :
  Forall P l -> filter P l = l.
Proof.
  induction 1 as [|x l Hx Hl IH]; [done|].
  rewrite filter_cons. destruct (decide (P x)); [by rewrite IH|done].
Qed.

Lemma DB_eta (db : DB) :
  {| users := users db; filters := filters db; usersToFilters := usersToFilters db;
     subscriptions := subscriptions db; serverCache := serverCache db |} = db.
Proof. by destruct db. Qed.

Lemma addFilterToUser_succeeds (db : DB) (userID filterID : Z) :
  hasUser db userID = true -> hasFilterID db filterID = true ->
  exists db', addFilterToUser db userID filterID = Done db'.
Proof.
  intros Hu Hf. unfold addFilterToUser. rewrite Hu, Hf. cbn [negb].
  destruct (negb (doesUserHaveFilter db userID filterID)); by eexists.
Qed.

(** X7: [addFilterToUser] throws NoSuchUserError for a user without a
    row and, for a user with a row, NoSuchFilterError for a filter id
    without a row.  Otherwise it returns; the user has the filter
    afterwards; a second call changes nothing; a pairing that is already
    there leaves the database as it is, and a new pairing is appended. *)
Theorem X7_addFilterToUser (db : DB) (userID filterID : Z) :
  (hasUser db userID = false ->
   addFilterToUser db userID filterID = Thrown (NoSuchUserError userID))
  /\ (hasUser db userID = true -> hasFilterID db filterID = false ->
      addFilterToUser db userID filterID = Thrown (NoSuchFilterError filterID))
  /\ (hasUser db userID = true -> hasFilterID db filterID = true ->
      exists db',
        addFilterToUser db userID filterID = Done db'
        /\ doesUserHaveFilter db' userID filterID = true
        /\ addFilterToUser db' userID filterID = Done db'
        /\ (doesUserHaveFilter db userID filterID = true -> db' = db)
        /\ (doesUserHaveFilter db userID filterID = false ->
            usersToFilters db' = usersToFilters db ++ [(userID, filterID)])).
Proof.
  unfold addFilterToUser. split; [|split].
  - by intros ->.
  - by intros -> ->.
  - intros Hu Hf. rewrite Hu, Hf. cbn [negb].
    destruct (doesUserHaveFilter db userID filterID) eqn:Hp; cbn [negb].
    + exists db. rewrite Hu, Hf, Hp. done.
    + eexists. split; [done|].
      assert (Hp' : doesUserHaveFilter
                (with_usersToFilters db (usersToFilters db ++ [(userID, filterID)]))
                userID filterID = true).
      { unfold doesUserHaveFilter. apply bool_decide_eq_true.
        cbn [usersToFilters with_usersToFilters]. apply elem_of_app. right. left. }
      split; [exact Hp'|]. rewrite Hp'. split; [|done].
      unfold hasUser, hasFilterID in *. cbn [users filters with_usersToFilters].
      by rewrite Hu, Hf.
Qed.

Lemma pair_neq_dec (userID filterID : Z) (p : Z * Z) :
  ~ (p.1 = userID /\ p.2 = filterID) <-> p <> (userID, filterID).
Proof.
  destruct p as [a b]. cbn. split; intros Hn.
  - intros E. injection E as -> ->. by apply Hn.
  - intros [-> ->]. done.
Qed.

(** X8: after [removeUserFilter] the user does not have the filter, the
    other pairings are all kept, and removing a filter that was just added
    to a user who did not have it gives the database back as it was. *)
Theorem X8_removeUserFilter (db : DB) (userID filterID : Z) :
  let db' := removeUserFilter db userID filterID in
  doesUserHaveFilter db' userID filterID = false
  /\ (forall p, p ∈ usersToFilters db' <-> p ∈ usersToFilters db /\ p <> (userID, filterID))
  /\ (forall db1, doesUserHaveFilter db userID filterID = false ->
        addFilterToUser db userID filterID = Done db1 ->
        removeUserFilter db1 userID filterID = db).
Proof.
  cbv zeta. split; [|split].
  - unfold removeUserFilter.
    destruct (doesUserHaveFilter db userID filterID) eqn:Hp; [|done].
    unfold doesUserHaveFilter. apply bool_decide_eq_false.
    cbn [usersToFilters with_usersToFilters]. rewrite list_elem_of_filter.
    intros [Hn _]. apply Hn. done.
  - intros p. unfold removeUserFilter.
    destruct (doesUserHaveFilter db userID filterID) eqn:Hp.
    + cbn [usersToFilters with_usersToFilters].
      rewrite list_elem_of_filter, pair_neq_dec. tauto.
    + unfold doesUserHaveFilter in Hp. apply bool_decide_eq_false in Hp.
      split; [|tauto]. intros Hin. split; [done|]. by intros ->.
  - intros db1 Hp Hadd. unfold addFilterToUser in Hadd.
    destruct (hasUser db userID); [|done].
    destruct (hasFilterID db filterID); [|done].
    rewrite Hp in Hadd. cbn [negb] in Hadd. injection Hadd as <-.
    unfold removeUserFilter.
    assert (Hp' : doesUserHaveFilter
              (with_usersToFilters db (usersToFilters db ++ [(userID, filterID)]))
              userID filterID = true).
    { unfold doesUserHaveFilter. apply bool_decide_eq_true.
      cbn [usersToFilters with_usersToFilters]. apply elem_of_app. right. left. }
    rewrite Hp'. cbn [usersToFilters with_usersToFilters].
    rewrite filter_app, filter_cons, filter_nil. cbn [fst snd].
    destruct (decide (~ (userID = userID /\ filterID = filterID))) as [Hn|_]; [by destruct Hn|].
    rewrite app_nil_r, filter_keep_all.
    + unfold with_usersToFilters. cbn [users filters subscriptions serverCache].
      apply DB_eta.
    + unfold doesUserHaveFilter in Hp. apply bool_decide_eq_false in Hp.
      apply Forall_forall. intros p Hin. apply pair_neq_dec. by intros ->.
Qed.

(** ** From a subscription to a notification *)

Lemma columnValue_flag (row : FilterRow) (x : string) :
  x ∈ GEAR_TYPES ++ GEAR_ABILITIES ++ GEAR_BRANDS ->
  columnValue row (formatCol x) = default false (f_flags row !! formatCol x).
Proof.
  intros Hx. apply (list_elem_of_fmap_2 formatCol) in Hx.
  pose proof filterBoolColumns_NoDup as Hnd. unfold filterBoolColumns in Hnd.
  apply NoDup_app in Hnd as (_ & Hwild & _).
  unfold columnValue.
  destruct (decide (formatCol x = DB_GEAR_TYPE_WILDCARD)) as [E|_].
  { exfalso. apply (Hwild (formatCol x)); [|exact Hx].
    rewrite E. apply elem_of_cons. left. reflexivity. }
  destruct (decide (formatCol x = DB_GEAR_BRAND_WILDCARD)) as [E|_].
  { exfalso. apply (Hwild (formatCol x)); [|exact Hx].
    rewrite E. apply elem_of_cons. right. apply elem_of_cons. left. reflexivity. }
  destruct (decide (formatCol x = DB_GEAR_ABILITY_WILDCARD)) as [E|_].
  { exfalso. apply (Hwild (formatCol x)); [|exact Hx].
    rewrite E. do 2 (apply elem_of_cons; right). apply elem_of_cons. left. reflexivity. }
  reflexivity.
Qed.

Lemma stored_flag_is_Some (filter : Filter) (x : string) :
  x ∈ GEAR_TYPES ++ GEAR_ABILITIES ++ GEAR_BRANDS ->
  is_Some (f_flags (filterToTableData filter) !! formatCol x).
Proof.
  intros Hx.
  pose proof filterBoolColumns_NoDup as Hnd. unfold filterBoolColumns in Hnd.
  apply NoDup_app in Hnd as (_ & _ & Hnd).
  rewrite !fmap_app in Hnd.
  apply NoDup_app in Hnd as (HT & HTo & Hnd).
  apply NoDup_app in Hnd as (HA & HAo & HB).
  unfold filterToTableData; cbn [f_flags].
  rewrite !elem_of_app in Hx. destruct Hx as [Hx|[Hx|Hx]].
  - rewrite setFlags_lookup by done. by eexists.
  - assert (Hin : formatCol x ∈ formatCol <$> GEAR_ABILITIES) by by apply list_elem_of_fmap_2.
    rewrite setFlags_lookup_other.
    + rewrite setFlags_lookup_other; [rewrite setFlags_lookup by done; by eexists|].
      intros H. by apply (HAo _ Hin).
    + intros H. apply (HTo _ H). apply elem_of_app. by left.
  - assert (Hin : formatCol x ∈ formatCol <$> GEAR_BRANDS) by by apply list_elem_of_fmap_2.
    rewrite setFlags_lookup_other.
    + rewrite setFlags_lookup by done. by eexists.
    + intros H. apply (HTo _ H). apply elem_of_app. by right.
Qed.

(** A row found by [getMatchingFilterID] has the columns of the filter. *)
Lemma sameFilterData_columnValue (filter : Filter) (row : FilterRow) (x : string) :
  sameFilterData (storedRow filter) row = true ->
  x ∈ GEAR_TYPES ++ GEAR_ABILITIES ++ GEAR_BRANDS ->
  columnValue row (formatCol x) = columnValue (storedRow filter) (formatCol x).
Proof.
  intros (_ & _ & _ & _ & _ & Hflags)%sameFilterData_spec Hx.
  rewrite !columnValue_flag by done.
  destruct (stored_flag_is_Some filter x Hx) as [v Hv].
  change (f_flags (storedRow filter)) with (f_flags (filterToTableData filter)) in *.
  by rewrite Hv, (Hflags _ _ Hv).
Qed.

Lemma sameFilterData_matchingFilter (filter : Filter) (row : FilterRow) (gear : Gear) :
  sameFilterData (storedRow filter) row = true ->
  g_type gear ∈ GEAR_TYPES -> g_brand gear ∈ GEAR_BRANDS ->
  g_ability gear ∈ GEAR_ABILITIES ->
  matchingFilter gear row = matchingFilter gear (storedRow filter).
Proof.
  intros Hsame HT HB HA.
  pose proof Hsame as (Hn & Hr & Htw & Haw & Hbw & _)%sameFilterData_spec.
  destruct (known_columns gear HT HB HA) as (KA & KT & KB).
  unfold matchingFilter. rewrite !splicedValue_column by done.
  rewrite !(sameFilterData_columnValue filter row) by
    (try done; rewrite !elem_of_app; tauto).
  by rewrite Hn, Hr, Htw, Haw, Hbw.
Qed.

Lemma sameFilterData_selected (filter : Filter) (row : FilterRow) (names : list string) :
  sameFilterData (storedRow filter) row = true ->
  names ⊆ GEAR_TYPES ++ GEAR_ABILITIES ++ GEAR_BRANDS ->
  base.filter (fun x => columnValue row (formatCol x) = true) names
  = base.filter (fun x => columnValue (storedRow filter) (formatCol x) = true) names.
Proof.
  intros Hsame Hsub. apply filter_ext_elem. intros x Hx.
  by rewrite (sameFilterData_columnValue filter row x Hsame) by by apply Hsub.
Qed.

Lemma sameFilterData_rowDataToFilter (filter : Filter) (row : FilterRow) :
  sameFilterData (storedRow filter) row = true ->
  rowDataToFilter row = rowDataToFilter (storedRow filter).
Proof.
  intros Hsame.
  pose proof Hsame as (Hn & Hr & Htw & Haw & Hbw & _)%sameFilterData_spec.
  unfold rowDataToFilter. rewrite Hn, Hr, Htw, Haw, Hbw.
  rewrite !selectedNames_distinct
    by (apply GEAR_TYPES_distinct || apply GEAR_BRANDS_distinct
        || apply GEAR_ABILITIES_distinct).
  rewrite !(sameFilterData_selected filter row)
    by (try done; intros x Hx; rewrite !elem_of_app; tauto).
  done.
Qed.

(** The matcher on any table: the users that exist and are paired with a
    row the [WHERE] clause accepts. *)
Lemma getUsersToBeNotified_keys (db : DB) (gear : Gear) :
  allowedCharsPattern (g_name gear) = true ->
  queryWellFormed gear = true ->
  exists userMap,
    getUsersToBeNotified db gear = Fulfilled userMap
    /\ forall userID,
         userID ∈ userMap.*1 <->
         (exists row, row ∈ users db /\ u_userid row = userID)
         /\ exists filterID frow,
              (userID, filterID) ∈ usersToFilters db
              /\ (filterID, frow) ∈ filters db
              /\ matchingFilter gear frow = true.
Proof.
  intros Hname Hq. unfold getUsersToBeNotified.
  rewrite Hname, Hq. cbn [negb].
  eexists. split; [done|]. intros userID.
  rewrite (JsMap_fold_set_keys u_userid u_usercode), sortByUserid_keys.
  cbn [fmap list_fmap].
  rewrite elem_of_nil, list_elem_of_fmap.
  setoid_rewrite list_elem_of_filter.
  setoid_rewrite list_elem_of_fmap.
  setoid_rewrite list_elem_of_filter.
  setoid_rewrite list_elem_of_fmap.
  setoid_rewrite list_elem_of_filter.
  split.
  - intros [[]|(row & -> & ([u fid] & Hu & ([fid' frow] & Hfid & Hm & Hrow) & Hp) & Hrow')].
    cbn in Hu, Hfid, Hm. simplify_eq. split; [by exists row|].
    by exists fid', frow.
  - intros ((row & Hrow & <-) & fid & frow & Hp & Hst & Hm). right.
    exists row. split; [done|]. split; [|done].
    exists (u_userid row, fid). split; [done|]. split; [|done].
    by exists (fid, frow).
Qed.

Lemma tryAddFilter_row (db : DB) (newFilterID : Z) (filter : Filter) :
  sqlPlain (gearName filter) = true ->
  int2 (minimumRarity filter) = true ->
  (String.length (gearName filter) <= 255)%nat ->
  newFilterID ∉ (filters db).*1 ->
  exists r,
    tryAddFilter db newFilterID filter = Done r
    /\ users r.1 = users db /\ usersToFilters r.1 = usersToFilters db
    /\ subscriptions r.1 = subscriptions db
    /\ exists row, (r.2, row) ∈ filters r.1
                   /\ sameFilterData (storedRow filter) row = true.
Proof.
  intros Hplain Hint Hlen Hfresh.
  destruct (tryAddFilter_cases db newFilterID filter Hplain Hint Hlen Hfresh)
    as [[E ->]|[E ->]]; eexists; (split; [done|]); cbn [fst snd].
  - repeat split. by apply findFilterID_elem.
  - repeat split. exists (storedRow filter).
    split; [|apply sameFilterData_refl].
    cbn [filters with_filters]. apply elem_of_app. right. left.
Qed.

Lemma addFilterToUser_Done (db db' : DB) (userID filterID : Z) :
  addFilterToUser db userID filterID = Done db' ->
  users db' = users db /\ filters db' = filters db
  /\ subscriptions db' = subscriptions db
  /\ (userID, filterID) ∈ usersToFilters db'
  /\ usersToFilters db ⊆ usersToFilters db'.
Proof.
  unfold addFilterToUser.
  destruct (hasUser db userID); [|done].
  destruct (hasFilterID db filterID); [|done]. cbn [negb].
  destruct (doesUserHaveFilter db userID filterID) eqn:Hp; cbn [negb];
    intros [= <-].
  - unfold doesUserHaveFilter in Hp. apply bool_decide_eq_true in Hp. done.
  - cbn [users filters subscriptions usersToFilters with_usersToFilters].
    repeat split; [apply elem_of_app; right; left|].
    intros p Hp'. apply elem_of_app. by left.
Qed.

Lemma subscribe_Done (db : DB) (newFilterID userID : Z) (filter : Filter) :
  hasUser db userID = true ->
  sqlPlain (gearName filter) = true ->
  int2 (minimumRarity filter) = true ->
  (String.length (gearName filter) <= 255)%nat ->
  newFilterID ∉ (filters db).*1 ->
  exists r db' row,
    tryAddFilter db newFilterID filter = Done r
    /\ addFilterToUser r.1 userID r.2 = Done db'
    /\ users db' = users db
    /\ (userID, r.2) ∈ usersToFilters db'
    /\ (r.2, row) ∈ filters db'
    /\ sameFilterData (storedRow filter) row = true.
Proof.
  intros Hu Hplain Hint Hlen Hfresh.
  destruct (tryAddFilter_row db newFilterID filter Hplain Hint Hlen Hfresh)
    as (r & Hr & Hus & _ & _ & row & Hrow & Hsame).
  destruct (addFilterToUser_succeeds r.1 userID r.2) as (db' & Hadd).
  { unfold hasUser. by rewrite Hus. }
  { unfold hasFilterID. apply bool_decide_eq_true.
    by apply (list_elem_of_fmap_2 fst) in Hrow. }
  exists r, db', row. split; [done|]. split; [done|].
  destruct (addFilterToUser_Done _ _ _ _ Hadd) as (Hus' & Hfs' & _ & Hp & _).
  rewrite Hus', Hfs'. done.
Qed.

(** X9: for an existing user and a filter that the INSERT accepts (name
    without apostrophe and character of code 0, at most 255 characters,
    minimum rarity in [int2], new id not in the table), [tryAddFilter]
    returns, the filter can be paired with the user by [addFilterToUser],
    and [getUsersToBeNotified] then returns the user for every gear item
    that the query accepts and the filter admits. *)
Theorem X9_subscribed_filter_notifies (db : DB) (newFilterID userID : Z)
    (filter : Filter) (gear : Gear) :
  hasUser db userID = true ->
  sqlPlain (gearName filter) = true ->
  int2 (minimumRarity filter) = true ->
  (String.length (gearName filter) <= 255)%nat ->
  newFilterID ∉ (filters db).*1 ->
  allowedCharsPattern (g_name gear) = true ->
  g_type gear ∈ GEAR_TYPES -> g_brand gear ∈ GEAR_BRANDS ->
  g_ability gear ∈ GEAR_ABILITIES ->
  filterAdmits filter gear ->
  exists r db' userMap,
    tryAddFilter db newFilterID filter = Done r
    /\ addFilterToUser r.1 userID r.2 = Done db'
    /\ getUsersToBeNotified db' gear = Fulfilled userMap
    /\ userID ∈ userMap.*1.
Proof.
  intros Hu Hplain Hint Hlen Hfresh Hname HT HB HA Hadm.
  destruct (subscribe_Done db newFilterID userID filter Hu Hplain Hint Hlen Hfresh)
    as (r & db' & row & Hr & Hadd & Hus & Hp & Hrow & Hsame).
  destruct (getUsersToBeNotified_keys db' gear Hname (queryWellFormed_known gear HT HB HA))
    as (userMap & Hget & Hkeys).
  exists r, db', userMap. split; [done|]. split; [done|]. split; [done|].
  apply Hkeys. split.
  - rewrite Hus. unfold hasUser in Hu. apply bool_decide_eq_true in Hu.
    apply list_elem_of_fmap in Hu as (urow & -> & Hin). by exists urow.
  - exists r.2, row. split; [done|]. split; [done|].
    rewrite (sameFilterData_matchingFilter filter row gear) by done.
    by apply matchingFilter_stored.
Qed.

(** The rows of the join of [getUserFilters]. *)
Lemma getUserFilters_spec (db : DB) (userID : Z) :
  (hasUser db userID = false ->
   getUserFilters db userID = Thrown (NoSuchUserError userID))
  /\ (hasUser db userID = true ->
      exists fs,
        getUserFilters db userID = Done fs
        /\ forall f, f ∈ fs <->
             exists filterID row,
               (userID, filterID) ∈ usersToFilters db
               /\ (filterID, row) ∈ filters db
               /\ f = rowDataToFilter row).
Proof.
  unfold getUserFilters. split; [by intros ->|]. intros ->. cbn [negb].
  eexists. split; [done|]. intros f.
  rewrite list_elem_of_fmap. setoid_rewrite list_elem_of_bind.
  setoid_rewrite list_elem_of_fmap. setoid_rewrite list_elem_of_filter.
  setoid_rewrite list_elem_of_fmap. setoid_rewrite list_elem_of_filter.
  split.
  - intros (row & -> & [fid frow] & (fid' & -> & Hfid & [u fid''] & Hfid' & Hu & Hp) & Hin).
    cbn in *. subst. by exists fid'', frow.
  - intros (fid & row & Hp & Hin & ->). exists row. split; [done|].
    exists (fid, row). split; [|done]. exists fid. split; [done|]. split; [done|].
    by exists (userID, fid).
Qed.

(** X10: after the same two calls [getUserFilters] lists the filter, in
    the form in which it is read back from its row, and every filter it
    lists is read from a row that is paired with the user. *)
Theorem X10_getUserFilters_lists_subscription (db : DB) (newFilterID userID : Z)
    (filter : Filter) :
  hasUser db userID = true ->
  sqlPlain (gearName filter) = true ->
  int2 (minimumRarity filter) = true ->
  (String.length (gearName filter) <= 255)%nat ->
  newFilterID ∉ (filters db).*1 ->
  exists r db' fs,
    tryAddFilter db newFilterID filter = Done r
    /\ addFilterToUser r.1 userID r.2 = Done db'
    /\ getUserFilters db' userID = Done fs
    /\ rowDataToFilter (storedRow filter) ∈ fs
    /\ forall f, f ∈ fs ->
          exists filterID row,
            (userID, filterID) ∈ usersToFilters db'
            /\ (filterID, row) ∈ filters db'
            /\ f = rowDataToFilter row.
Proof.
  intros Hu Hplain Hint Hlen Hfresh.
  destruct (subscribe_Done db newFilterID userID filter Hu Hplain Hint Hlen Hfresh)
    as (r & db' & row & Hr & Hadd & Hus & Hp & Hrow & Hsame).
  destruct (getUserFilters_spec db' userID) as [_ Hspec].
  destruct Hspec as (fs & Hget & Hfs).
  { unfold hasUser in *. by rewrite Hus. }
  exists r, db', fs. split; [done|]. split; [done|]. split; [done|]. split.
  - apply Hfs. exists r.2, row. split; [done|]. split; [done|].
    symmetry. by apply sameFilterData_rowDataToFilter.
  - intros f Hf. by apply Hfs.
Qed.

(** ** Push subscriptions of a user *)

Lemma updateSubscription_other (userID v : Z) (subscription : Subscription)
    (rows : list SubscriptionRow) :
  v <> userID ->
  filter (fun r => s_userid r = v) (updateSubscription userID subscription rows)
  = filter (fun r => s_userid r = v) rows.
Proof.
  intros Hv. induction rows as [|r rows IH]; [done|].
  cbn [updateSubscription].
  destruct (decide (s_userid r = userID
                    /\ endpoint (s_subscription r) = endpoint subscription)) as [[Hu He]|Hn].
  - rewrite filter_app, !filter_cons, filter_nil. cbn [s_userid].
    destruct (decide (s_userid r = v)); [congruence|]. by rewrite app_nil_r.
  - rewrite !filter_cons. destruct (decide (s_userid r = v)); by rewrite IH.
Qed.

(** The first row of the user with the endpoint leaves its place, and the
    new version of it comes last. *)
Lemma updateSubscription_shape (userID : Z) (subscription : Subscription)
    (rows : list SubscriptionRow) :
  let same := fun r => s_userid r = userID
                       /\ endpoint (s_subscription r) = endpoint subscription in
  Exists same rows ->
  exists before r after,
    rows = before ++ r :: after /\ Forall (fun r => ~ same r) before /\ same r
    /\ updateSubscription userID subscription rows
       = before ++ after ++ [{| s_userid := userID; s_subscription := subscription |}].
Proof.
  intros same. induction rows as [|r rows IH]; intros Hex; [by apply Exists_nil in Hex|].
  cbn [updateSubscription]. fold (same r).
  destruct (decide (same r)) as [Hr|Hn].
  - exists [], r, rows. repeat split; try done; [apply Hr|apply Hr|].
    destruct Hr as [-> _]. done.
  - apply Exists_cons in Hex as [?|Hex]; [done|].
    destruct (IH Hex) as (before & r' & after & -> & Hb & Hr' & ->).
    exists (r :: before), r', after. repeat split; try done; [|apply Hr'..].
    by constructor.
Qed.

Lemma updateSubscription_last (userID : Z) (subscription : Subscription)
    (before : list SubscriptionRow) (r : SubscriptionRow) :
  let same := fun r => s_userid r = userID
                       /\ endpoint (s_subscription r) = endpoint subscription in
  Forall (fun r => ~ same r) before -> same r ->
  updateSubscription userID subscription (before ++ [r])
  = before ++ [{| s_userid := userID; s_subscription := subscription |}].
Proof.
  intros same Hb [Hu He]. induction Hb as [|r' before Hr' Hb IH]; cbn [app updateSubscription].
  - destruct (decide _) as [_|Hn]; [by rewrite Hu|by destruct Hn].
  - destruct (decide _) as [?|_]; [done|]. by rewrite IH.
Qed.

Lemma filter_nil_none {A} (P : A -> Prop) `{forall x, Decision (P x)} (l : list A) :
  filter P l = [] -> Forall (fun x => ~ P x) l.
Proof.
  intros E. apply Forall_forall. intros x Hin HP.
  assert (Hf : x ∈ filter P l) by by apply list_elem_of_filter.
  rewrite E in Hf. by apply elem_of_nil in Hf.
Qed.

Lemma filter_nonempty_Exists {A} (P : A -> Prop) `{forall x, Decision (P x)}
    (l : list A) (x : A) (rest : list A) :
  filter P l = x :: rest -> Exists P l.
Proof.
  intros E. apply Exists_exists. exists x.
  assert (Hin : x ∈ filter P l) by (rewrite E; left).
  apply list_elem_of_filter in Hin as [HP Hin]. done.
Qed.

(** X11: [addUserPushSubscription] throws NoSuchUserError for a user
    without a row.  Otherwise, for a subscription that fits the columns,
    it returns; the subscription is the last of the subscriptions of the
    user afterwards (an updated row is returned after the others); the
    subscriptions of the other users are unchanged; the rows of other
    users or endpoints are the same; the number of rows of the user with
    this endpoint is what it was, or 1 if there was none; and when the
    user had at most one row with the endpoint, a second call with the
    same subscription changes nothing. *)
Theorem X11_addUserPushSubscription (db : DB) (userID : Z) (subscription : Subscription) :
  let same := fun r => s_userid r = userID
                       /\ endpoint (s_subscription r) = endpoint subscription in
  (hasUser db userID = false ->
   addUserPushSubscription db userID subscription = Thrown (NoSuchUserError userID))
  /\ (hasUser db userID = true -> fitsColumns subscription ->
      exists db',
        addUserPushSubscription db userID subscription = Done db'
        /\ last (getUserSubscriptions db' userID) = Some subscription
        /\ (forall v, v <> userID ->
              getUserSubscriptions db' v = getUserSubscriptions db v)
        /\ (forall r, ~ same r -> r ∈ subscriptions db' <-> r ∈ subscriptions db)
        /\ length (filter same (subscriptions db'))
           = Nat.max 1 (length (filter same (subscriptions db)))
        /\ ((length (filter same (subscriptions db)) <= 1)%nat ->
            addUserPushSubscription db' userID subscription = Done db')).
Proof.
  intros same. unfold addUserPushSubscription. split; [by intros ->|].
  intros Hu _. rewrite Hu. cbn [negb]. fold same.
  set (new := {| s_userid := userID; s_subscription := subscription |}).
  assert (Hnew : same new) by done.
  assert (Hlast : forall rows,
    last (s_subscription <$> filter (fun r => s_userid r = userID) (rows ++ [new]))
    = Some subscription).
  { intros rows. rewrite filter_app, filter_cons, filter_nil. cbn [s_userid new].
    destruct (decide (userID = userID)); [|done].
    rewrite fmap_app. cbn [fmap list_fmap]. by rewrite last_snoc. }
  assert (Hagain : forall rows, Forall (fun r => ~ same r) rows ->
    (if negb (hasUser (with_subscriptions db (rows ++ [new])) userID)
     then Thrown (NoSuchUserError userID)
     else match filter same (subscriptions (with_subscriptions db (rows ++ [new]))) with
          | _ :: _ => Done (with_subscriptions (with_subscriptions db (rows ++ [new]))
                        (updateSubscription userID subscription
                           (subscriptions (with_subscriptions db (rows ++ [new])))))
          | [] => Done (with_subscriptions (with_subscriptions db (rows ++ [new]))
                        (subscriptions (with_subscriptions db (rows ++ [new])) ++ [new]))
          end) = Done (with_subscriptions db (rows ++ [new]))).
  { intros rows Hrows. unfold hasUser in *. cbn [users subscriptions with_subscriptions].
    rewrite Hu. cbn [negb].
    rewrite filter_app, (filter_none _ _ Hrows), filter_cons, filter_nil.
    destruct (decide (same new)) as [_|]; [|done]. cbn [app].
    by rewrite (updateSubscription_last userID subscription rows new Hrows Hnew). }
  destruct (filter same (subscriptions db)) as [|r0 rest] eqn:E.
  - pose proof (filter_nil_none _ _ E) as Hnone.
    eexists. split; [done|].
    cbn [subscriptions with_subscriptions]. split; [|split; [|split; [|split]]].
    + apply Hlast.
    + intros v Hv. unfold getUserSubscriptions. cbn [subscriptions with_subscriptions].
      rewrite filter_app, filter_cons, filter_nil. cbn [s_userid new].
      destruct (decide (userID = v)); [congruence|]. by rewrite app_nil_r.
    + intros r Hr. rewrite elem_of_app, list_elem_of_singleton.
      split; [|by left]. intros [?| ->]; done.
    + rewrite filter_app, E, filter_cons, filter_nil.
      destruct (decide (same new)) as [_|]; done.
    + intros _. by apply Hagain.
  - pose proof (filter_nonempty_Exists _ _ _ _ E) as Hex.
    destruct (updateSubscription_shape userID subscription (subscriptions db) Hex)
      as (before & r & after & Hrows & Hb & Hr & Hupd).
    fold new in Hupd. rewrite Hupd.
    eexists. split; [done|].
    cbn [subscriptions with_subscriptions]. split; [|split; [|split; [|split]]].
    + unfold getUserSubscriptions. cbn [subscriptions with_subscriptions].
      rewrite app_assoc. apply Hlast.
    + intros v Hv. unfold getUserSubscriptions. cbn [subscriptions with_subscriptions].
      rewrite <- Hupd. by rewrite updateSubscription_other.
    + intros r' Hr'. rewrite Hrows, !elem_of_app, !elem_of_cons, elem_of_nil.
      split.
      * intros [?|[?|[->|[]]]]; [by left|by right; right|done].
      * intros [?|[->|?]]; [by left|done|by right; left].
    + rewrite <- E, Hrows, !filter_app, !filter_cons, filter_nil.
      destruct (decide (same new)) as [_|]; [|done].
      destruct (decide (same r)) as [_|]; [|done].
      rewrite !length_app. cbn [length]. lia.
    + intros Hone. rewrite app_assoc. apply Hagain.
      rewrite <- E, Hrows, filter_app, filter_cons in Hone.
      destruct (decide (same r)) as [_|]; [|done].
      rewrite length_app in Hone. cbn [length] in Hone.
      apply Forall_app. split; [done|]. apply (filter_nil_none same).
      destruct (filter same after); [done|cbn [length] in Hone; lia].
Qed.

(** X12: after [removeUserPushSubscription] the user has no subscription
    with the endpoint and keeps the others, the other users keep all of
    theirs (also those with the same endpoint), and removing after
    [addUserPushSubscription] leaves the rows that removing alone
    leaves. *)
Theorem X12_removeUserPushSubscription (db : DB) (userID : Z) (subscription : Subscription) :
  let db' := removeUserPushSubscription db userID subscription in
  Forall (fun sub => endpoint sub <> endpoint subscription) (getUserSubscriptions db' userID)
  /\ (forall sub, endpoint sub <> endpoint subscription ->
        sub ∈ getUserSubscriptions db userID -> sub ∈ getUserSubscriptions db' userID)
  /\ (forall v, v <> userID -> getUserSubscriptions db' v = getUserSubscriptions db v)
  /\ (forall db1, addUserPushSubscription db userID subscription = Done db1 ->
        subscriptions (removeUserPushSubscription db1 userID subscription)
        = subscriptions db').
Proof.
  cbv zeta. unfold removeUserPushSubscription, getUserSubscriptions.
  cbn [subscriptions with_subscriptions]. split; [|split; [|split]].
  - apply Forall_forall. intros sub (r & -> & Hin)%list_elem_of_fmap.
    apply list_elem_of_filter in Hin as [Hu Hin].
    apply list_elem_of_filter in Hin as [Hn _]. intros He. by apply Hn.
  - intros sub Hne (r & -> & Hin)%list_elem_of_fmap.
    apply list_elem_of_filter in Hin as [Hu Hin].
    apply list_elem_of_fmap. exists r. split; [done|].
    apply list_elem_of_filter. split; [done|]. apply list_elem_of_filter.
    split; [|done]. intros [He _]. done.
  - intros v Hv. f_equal. rewrite list_filter_filter.
    apply list_filter_iff. intros r. split; [tauto|]. intros Hr. split; [done|].
    intros [_ Hu]. congruence.
  - intros db1. unfold addUserPushSubscription.
    destruct (hasUser db userID); [|done]. cbn [negb].
    destruct (filter _ (subscriptions db)) as [|r0 rest] eqn:E; intros [= <-];
      cbn [subscriptions with_subscriptions].
    + rewrite filter_app, filter_cons, filter_nil. cbn [s_userid s_subscription].
      destruct (decide _) as [Hn|_]; [by destruct Hn|]. by rewrite app_nil_r.
    + clear E. induction (subscriptions db) as [|r rows IH]; [done|].
      cbn [updateSubscription].
      destruct (decide (s_userid r = userID
                 /\ endpoint (s_subscription r) = endpoint subscription)) as [[Hu He]|Hn].
      * rewrite filter_app, !filter_cons, filter_nil. cbn [s_userid s_subscription].
        destruct (decide _) as [Hn|_]; [by destruct Hn|].
        destruct (decide _) as [Hn|_]; [by destruct Hn|]. by rewrite app_nil_r.
      * rewrite !filter_cons.
        destruct (decide _) as [_|Hn']; [by rewrite IH|].
        exfalso. apply Hn'. intros [He Hu]. by apply Hn.
Qed.

(** X13: [deletePushSubscription] removes the subscriptions with the
    endpoint from the list of every user and nothing else; doing it twice
    is doing it once; users, filters and pairings are untouched. *)
Theorem X13_deletePushSubscription (db : DB) (subscription : Subscription) (userID : Z) :
  let db' := deletePushSubscription db subscription in
  getUserSubscriptions db' userID
  = filter (fun sub => endpoint sub <> endpoint subscription) (getUserSubscriptions db userID)
  /\ deletePushSubscription db' subscription = db'
  /\ users db' = users db /\ filters db' = filters db
  /\ usersToFilters db' = usersToFilters db.
Proof.
  cbv zeta. unfold deletePushSubscription, getUserSubscriptions.
  cbn [subscriptions with_subscriptions users filters usersToFilters].
  split; [|split; [|done]].
  - induction (subscriptions db) as [|r rows IH]; [done|].
    rewrite !filter_cons.
    destruct (decide (endpoint (s_subscription r) <> endpoint subscription)) as [Hk|Hk];
      destruct (decide (s_userid r = userID)) as [Hu|Hu]; rewrite ?filter_cons.
    + destruct (decide (s_userid r = userID)); [|done]. cbn [fmap list_fmap].
      rewrite filter_cons. destruct (decide _); [|done]. by rewrite IH.
    + destruct (decide (s_userid r = userID)); [done|]. exact IH.
    + cbn [fmap list_fmap]. rewrite filter_cons. destruct (decide _); [done|]. exact IH.
    + exact IH.
  - unfold with_subscriptions. cbn [users filters usersToFilters serverCache]. f_equal.
    rewrite list_filter_filter. apply list_filter_iff. tauto.
Qed.

(** ** The stored expiration *)

Lemma getLast_hasUser_false (db : DB) (userID : Z) :
  hasUser db userID = false -> getLastNotifiedExpiration db userID = -1.
Proof.
  unfold hasUser, getLastNotifiedExpiration. intros Hu%bool_decide_eq_false.
  destruct (filter _ (users db)) as [|r rest] eqn:E; [done|].
  exfalso. apply Hu.
  assert (Hin : r ∈ filter (fun r => u_userid r = userID) (users db)) by (rewrite E; left).
  apply list_elem_of_filter in Hin as [<- Hin]. by apply list_elem_of_fmap_2.
Qed.

Lemma getLast_update_hasUser (db : DB) (userID latestExpiration : Z) :
  hasUser db userID = true ->
  getLastNotifiedExpiration (updateLastNotifiedExpiration db userID latestExpiration) userID
  = latestExpiration.
Proof.
  unfold hasUser, getLastNotifiedExpiration, updateLastNotifiedExpiration.
  intros Hu%bool_decide_eq_true. cbn [users with_users].
  induction (users db) as [|r rows IH]; [by apply elem_of_nil in Hu|].
  cbn [fmap list_fmap]. rewrite filter_cons.
  destruct (decide (u_userid r = userID)) as [E|E].
  - cbn [u_userid]. destruct (decide (u_userid r = userID)); done.
  - destruct (decide (u_userid r = userID)); [done|]. apply IH.
    cbn [fmap list_fmap] in Hu. apply elem_of_cons in Hu as [Hu|Hu]; [congruence|done].
Qed.

Lemma userids_update (db : DB) (u x : Z) :
  u_userid <$> users (updateLastNotifiedExpiration db u x) = u_userid <$> users db.
Proof.
  unfold updateLastNotifiedExpiration. cbn [users with_users].
  rewrite <- list_fmap_compose. apply Forall_fmap_ext_1, Forall_forall.
  intros r _. cbn. by destruct (decide (u_userid r = u)).
Qed.

(** X14: after [updateLastNotifiedExpiration] for a user who has a row,
    [getLastNotifiedExpiration] returns the expiration that was written;
    for a user without a row the UPDATE changes nothing and the answer
    stays -1; the expiration of the other users, and the ids and codes of
    all users, are unchanged. *)
Theorem X14_lastNotifiedExpiration_round_trip (db : DB) (userID latestExpiration : Z) :
  let db' := updateLastNotifiedExpiration db userID latestExpiration in
  (hasUser db userID = true -> getLastNotifiedExpiration db' userID = latestExpiration)
  /\ (hasUser db userID = false ->
      db' = db /\ getLastNotifiedExpiration db' userID = -1)
  /\ (forall v, v <> userID ->
        getLastNotifiedExpiration db' v = getLastNotifiedExpiration db v)
  /\ (u_userid <$> users db' = u_userid <$> users db)
  /\ (u_usercode <$> users db' = u_usercode <$> users db).
Proof.
  cbv zeta. split; [|split; [|split; [|split]]].
  - apply getLast_update_hasUser.
  - intros Hu.
    assert (E : updateLastNotifiedExpiration db userID latestExpiration = db).
    { unfold hasUser in Hu. apply bool_decide_eq_false in Hu.
      unfold updateLastNotifiedExpiration, with_users.
      rewrite <- (DB_eta db) at 6. f_equal.
      etrans; [|apply list_fmap_id]. apply Forall_fmap_ext_1, Forall_forall.
      intros r Hin. destruct (decide (u_userid r = userID)) as [E|_]; [|done].
      exfalso. apply Hu. rewrite <- E. by apply list_elem_of_fmap_2. }
    rewrite E. split; [done|]. by apply getLast_hasUser_false.
  - intros v Hv. by apply getLast_update_other.
  - apply userids_update.
  - unfold updateLastNotifiedExpiration. cbn [users with_users].
    rewrite <- list_fmap_compose. apply Forall_fmap_ext_1, Forall_forall.
    intros r _. cbn. by destruct (decide (u_userid r = userID)).
Qed.

(** ** The lookups of [getUsersToNotify] *)

Lemma insertBy_perm {A} (key : A -> nat) (x : A) (l : list A) :
  insertBy key x l ≡ₚ x :: l.
Proof.
  induction l as [|y l IH]; [done|]. cbn [insertBy].
  destruct (key y <=? key x)%nat; [|done].
  rewrite IH. apply Permutation_swap.
Qed.

Lemma arrivalOrder_fold_perm {A} (key : A -> nat) (l acc : list A) :
  foldl (fun acc x => insertBy key x acc) acc l ≡ₚ acc ++ l.
Proof.
  revert acc. induction l as [|x l IH]; intros acc; cbn [foldl].
  - by rewrite app_nil_r.
  - rewrite IH, insertBy_perm. cbn [app]. apply Permutation_middle.
Qed.

Lemma arrivalOrder_perm {A} (key : A -> nat) (l : list A) :
  arrivalOrder key l ≡ₚ l.
Proof. unfold arrivalOrder. by rewrite arrivalOrder_fold_perm. Qed.

Lemma insertBy_last {A} (key : A -> nat) (x : A) (l : list A) :
  Forall (fun y => (key y <= key x)%nat) l -> insertBy key x l = l ++ [x].
Proof.
  induction 1 as [|y l Hy Hl IH]; [done|]. cbn [insertBy].
  apply Nat.leb_le in Hy. rewrite Hy. by rewrite IH.
Qed.

Lemma arrivalOrder_fold_sorted {A} (key : A -> nat) (l acc : list A) :
  (forall x y, x ∈ acc ++ l -> y ∈ acc ++ l -> key x = key y) ->
  foldl (fun acc x => insertBy key x acc) acc l = acc ++ l.
Proof.
  revert acc. induction l as [|x l IH]; intros acc Hkey; cbn [foldl].
  - by rewrite app_nil_r.
  - rewrite insertBy_last.
    + rewrite IH; [by rewrite <- app_assoc|].
      rewrite <- app_assoc. exact Hkey.
    + apply Forall_forall. intros y Hy.
      rewrite (Hkey y x); [done| |]; rewrite elem_of_app.
      * by left.
      * right. left.
Qed.

(** Replies that take the same time arrive in the order of the requests. *)
Lemma arrivalOrder_same_latency {A} (key : A -> nat) (l : list A) :
  (forall x y, x ∈ l -> y ∈ l -> key x = key y) -> arrivalOrder key l = l.
Proof. intros Hkey. unfold arrivalOrder. by rewrite arrivalOrder_fold_sorted. Qed.

(** The wrappers that [Promise.all] waits for. *)
Lemma collect_Some (ls : list (nat * Gear * Promise (JsMap.t string))) (m : GearToUsers) :
  foldr (fun l acc =>
           match l.2, acc with
           | Fulfilled value, Some m => Some ((l.1.2, value) :: m)
           | _, _ => None
           end) (Some []) ls = Some m ->
  m.*1 = ls.*1.*2 /\ Forall2 (fun l e => l.1.2 = e.1 /\ l.2 = Fulfilled e.2) ls m.
Proof.
  revert m. induction ls as [|[[n gear] p] ls IH]; intros m; cbn [foldr].
  - intros [= <-]. split; [done|constructor].
  - cbn [fst snd]. destruct p as [value|e]; [|done].
    destruct (foldr _ (Some []) ls) as [m'|] eqn:E; [|done].
    intros [= <-]. destruct (IH m' eq_refl) as [Hk Hf].
    split; [cbn; by rewrite Hk|]. by constructor.
Qed.

Lemma collect_None (ls : list (nat * Gear * Promise (JsMap.t string))) :
  foldr (fun l acc =>
           match l.2, acc with
           | Fulfilled value, Some m => Some ((l.1.2, value) :: m)
           | _, _ => None
           end) (Some []) ls = None ->
  exists l e, l ∈ ls /\ l.2 = Rejected e.
Proof.
  induction ls as [|[[n gear] p] ls IH]; cbn [foldr]; [done|].
  cbn [fst snd]. destruct p as [value|e].
  - destruct (foldr _ (Some []) ls) as [m'|] eqn:E; [done|].
    intros _. destruct (IH eq_refl) as (l & e & Hl & He).
    exists l, e. split; [by right|done].
  - intros _. exists (n, gear, Rejected e), e. split; [left|done].
Qed.

Lemma lookups_elem (db : DB) (latency : nat -> nat) (newGear : list Gear)
    (l : nat * Gear * Promise (JsMap.t string)) :
  l ∈ imap (fun i gear => (latency i, gear, getUsersToBeNotified db gear)) newGear ->
  l.1.2 ∈ newGear /\ l.2 = getUsersToBeNotified db l.1.2.
Proof.
  intros (i & gear & -> & Hi)%elem_of_lookup_imap. cbn.
  split; [by eapply list_elem_of_lookup_2|done].
Qed.

Lemma lookups_gear (db : DB) (latency : nat -> nat) (newGear : list Gear) :
  (imap (fun i gear => (latency i, gear, getUsersToBeNotified db gear)) newGear).*1.*2
  = newGear.
Proof.
  revert latency. induction newGear as [|gear newGear IH]; intros latency; [done|].
  cbn [imap fmap list_fmap fst snd]. f_equal.
  exact (IH (latency ∘ S)).
Qed.

(** What [getUsersToNotify] returns, when it returns. *)
Lemma getUsersToNotify_Some (db : DB) (newGear : list Gear) (latency : nat -> nat)
    (m : GearToUsers) :
  getUsersToNotify db newGear latency = Some m ->
  m.*1 ≡ₚ newGear
  /\ Forall (fun e => e.1 ∈ newGear /\ getUsersToBeNotified db e.1 = Fulfilled e.2) m
  /\ ((forall i j, latency i = latency j) -> m.*1 = newGear).
Proof.
  unfold getUsersToNotify. cbv zeta. intros Hm.
  apply collect_Some in Hm as [Hk Hf].
  split; [|split].
  - rewrite Hk, arrivalOrder_perm. by rewrite lookups_gear.
  - apply Forall_forall. intros [gear value] He.
    apply list_elem_of_lookup_1 in He as [i Hi].
    destruct (Forall2_lookup_r _ _ _ _ _ Hf Hi) as (l & Hl & Hg & Hv).
    apply list_elem_of_lookup_2, arrivalOrder_elem, lookups_elem in Hl as [Hin Hl].
    cbn [fst snd] in *. subst gear. split; [done|]. by rewrite <- Hl.
  - intros Hlat. rewrite Hk, arrivalOrder_same_latency; [apply lookups_gear|].
    intros x y (i & g & -> & _)%elem_of_lookup_imap (j & g' & -> & _)%elem_of_lookup_imap.
    cbn. apply Hlat.
Qed.

Lemma getUsersToNotify_None (db : DB) (newGear : list Gear) (latency : nat -> nat) :
  getUsersToNotify db newGear latency = None
  <-> exists gear e, gear ∈ newGear /\ getUsersToBeNotified db gear = Rejected e.
Proof.
  split.
  - unfold getUsersToNotify. cbv zeta. intros Hm.
    apply collect_None in Hm as (l & e & Hl & He).
    apply arrivalOrder_elem, lookups_elem in Hl as [Hin Hl].
    exists l.1.2, e. split; [done|]. by rewrite <- Hl.
  - intros (gear & e & Hin & He). by eapply getUsersToNotify_rejected.
Qed.

(** X15: [getUsersToNotify] never settles exactly when one of its
    lookups ([getUsersToBeNotified]) rejects.  When it returns, the map has
    one entry per new gear item, each with the result of the lookup of
    that item; the entries are in the order in which the replies arrive,
    which is the order of the new items when all lookups take the same
    time. *)
Theorem X15_getUsersToNotify (db : DB) (newGear : list Gear) (latency : nat -> nat) :
  (getUsersToNotify db newGear latency = None
   <-> exists gear e, gear ∈ newGear /\ getUsersToBeNotified db gear = Rejected e)
  /\ (forall m, getUsersToNotify db newGear latency = Some m ->
        m.*1 ≡ₚ newGear
        /\ Forall (fun e => getUsersToBeNotified db e.1 = Fulfilled e.2) m
        /\ ((forall i j, latency i = latency j) -> m.*1 = newGear)).
Proof.
  split; [apply getUsersToNotify_None|]. intros m Hm.
  destruct (getUsersToNotify_Some db newGear latency m Hm) as (Hp & Hf & Ho).
  split; [done|]. split; [|done].
  eapply Forall_impl; [exact Hf|]. by intros e [_ He].
Qed.

(** ** The expiration of a batch *)

Lemma last_elem {A} (l : list A) (x : A) : last l = Some x -> x ∈ l.
Proof.
  rewrite last_lookup. apply list_elem_of_lookup_2.
Qed.

Lemma ascending_last (l : list Gear) (x : Gear) :
  ascending l -> last l = Some x -> Forall (fun y => g_expiration y <= g_expiration x) l.
Proof.
  induction l as [|y l IH]; intros Hs Hlast; [done|].
  destruct Hs as [Hy Hl]. destruct l as [|z l'].
  - cbn in Hlast. injection Hlast as <-. constructor; [lia|done].
  - rewrite last_cons_cons in Hlast. constructor; [|by apply IH].
    rewrite Forall_forall in Hy. apply Hy. by apply last_elem.
Qed.

Lemma ascending_filter {V} (P : Gear * V -> Prop) `{forall x, Decision (P x)}
    (l : list (Gear * V)) :
  ascending l.*1 -> ascending (filter P l).*1.
Proof.
  induction l as [|y l IH]; [done|]. cbn [fmap list_fmap ascending].
  intros [Hy Hl]. rewrite filter_cons. destruct (decide (P y)); [|by apply IH].
  cbn [fmap list_fmap ascending]. split; [|by apply IH].
  rewrite Forall_forall in *. intros z (e & -> & He)%list_elem_of_fmap.
  apply list_elem_of_filter in He as [_ He]. apply Hy. by apply list_elem_of_fmap_2.
Qed.


(** ** More about the loop *)

Lemma exec_invariant_step cy (P : State -> Prop) :
  (forall st c, P st -> P (step cy c st)) ->
  forall sched st, P st -> P (exec cy sched st).
Proof.
  intros Hstep sched. unfold exec.
  induction sched as [|c sched IH]; intros st HP; cbn [foldl]; [done|].
  apply IH. by apply Hstep.
Qed.

(** What [prepare] has checked when the loop is entered. *)
Lemma prepare_cycle `{GearLoader} env req db cy st :
  prepare env req db = (Some cy, st) ->
  exists cachedGear fetched fetchedGear,
    authenticated (ACTION_SECRET env) (authorization req) = true
    /\ match fetchCachedRawGearData db with
       | None => Some []
       | Some cachedRawGearData => rawGearDataToGearList cachedRawGearData
       end = Some cachedGear
    /\ cacheNotExpired (nowCheck env) cachedGear = false
    /\ apiRawGearData env = Some fetched
    /\ rawGearDataToGearList fetched = Some fetchedGear
    /\ getUsersToNotify db (getNewGearItems cachedGear fetchedGear) (latency env)
       = Some (gearToUserMap cy)
    /\ fetchedRawGearData cy = fetched
    /\ st = nextUser cy (startTime env) (aggregateUsers (gearToUserMap cy))
              (logEvents [EvFetchAPI] (initial db)).
Proof.
  unfold prepare.
  destruct (authenticated _ _) eqn:Ha; cbn [negb]; [|done].
  destruct (match fetchCachedRawGearData db with
            | Some raw => rawGearDataToGearList raw
            | None => Some []
            end) as [cachedGear|] eqn:Hc; [|done].
  destruct (cacheNotExpired _ _) eqn:He; [done|].
  destruct (apiRawGearData env) as [fetched|] eqn:Hf; [|done].
  destruct (rawGearDataToGearList fetched) as [fetchedGear|] eqn:Hg; [|done].
  destruct (getUsersToNotify _ _ _) as [gearToUsers|] eqn:Hn; [|done].
  intros [= <- <-]. exists cachedGear, fetched, fetchedGear. by repeat split.
Qed.

(** The steps that are not the handler's own leave it where it stands and
    start no task. *)
Lemma step_other cy c st :
  (forall now, c <> Main now) -> c <> DbCaches ->
  st_pc (step cy c st) = st_pc st
  /\ length (st_promises (step cy c st)) = length (st_promises st).
Proof.
  intros Hc Hc'. destruct c as [now|j i o|j i|k|]; cbn [step]; [| | | |done].
  - by destruct (Hc now).
  - destruct (st_promises st !! j) as [t|] eqn:Hj; [|done].
    destruct (t_sends t !! i) as [s|] eqn:Hi; [|done].
    destruct (sd_phase s) eqn:Hph; try done. cbv zeta.
    match goal with |- context [updateTask ?j ?t ?sends ?st1] =>
      destruct (updateTask_spec j t sends st1) as (t' & us & _ & _ & Hpc & Hps & _)
    end.
    rewrite Hpc, Hps, length_insert. done.
  - destruct (st_promises st !! j) as [t|] eqn:Hj; [|done].
    destruct (t_sends t !! i) as [s|] eqn:Hi; [|done].
    destruct (sd_phase s) eqn:Hph; try done. cbv zeta.
    match goal with |- context [updateTask ?j ?t ?sends ?st1] =>
      destruct (updateTask_spec j t sends st1) as (t' & us & _ & _ & Hpc & Hps & _)
    end.
    rewrite Hpc, Hps, length_insert. done.
  - destruct (st_updates st !! k) as [[u e]|] eqn:Hk; done.
Qed.

(** A user without a subscription is passed over. *)
Lemma main_no_subscriber cy now st u ns l rest :
  st_pc st = AwaitSubscriptions u ns l rest ->
  getUserSubscriptions (st_db st) u = [] ->
  main cy now st = nextUser cy now rest (setCounters (noSubscriber (st_counters st)) st).
Proof. intros Hpc Hsubs. unfold main. by rewrite Hpc, Hsubs. Qed.

(** A task is started only for a user who has a subscription. *)
Lemma step_task_started cy c st t' :
  st_promises (step cy c st) = st_promises st ++ [t'] ->
  exists u ns l rest,
    st_pc st = AwaitSubscriptions u ns l rest
    /\ getUserSubscriptions (st_db st) u <> [].
Proof.
  intros Hps.
  assert (Hlen : length (st_promises (step cy c st)) <> length (st_promises st)).
  { rewrite Hps, length_app. cbn. lia. }
  destruct c as [now|j i o|j i|k|];
    try (exfalso; apply Hlen; by apply step_other).
  2: { exfalso. apply Hlen. cbn [step]. by destruct (st_pc st). }
  cbn [step] in *. unfold main in *.
  destruct (st_pc st) as [|u ns l rest|u ns l rest| | | |s] eqn:Hpc.
  - done.
  - exfalso. apply Hlen.
    destruct (l <=? getLastNotifiedExpiration (st_db st) u); [|done].
    by destruct (nextUser_spec cy now rest
                   (setCounters (alreadyNotified (st_counters st)) st)) as (_ & -> & _).
  - exists u, ns, l, rest. split; [done|]. intros Hsubs. apply Hlen.
    rewrite Hsubs.
    by destruct (nextUser_spec cy now rest
                   (setCounters (noSubscriber (st_counters st)) st)) as (_ & -> & _).
  - exfalso. apply Hlen. destruct (existsb isFailed _); [done|].
    by destruct (forallb isResolved _).
  - done.
  - done.
  - done.
Qed.

(** *** One task per user *)

Lemma fmap_insert_same {A B} (f : A -> B) (l : list A) (j : nat) (x y : A) :
  l !! j = Some x -> f y = f x -> f <$> <[j := y]> l = f <$> l.
Proof.
  intros Hj Hf. rewrite list_fmap_insert, Hf.
  apply list_insert_id. by rewrite list_lookup_fmap, Hj.
Qed.

Lemma taskUsers_step cy st st' :
  NoDup (taskUsers st) -> Trans cy st st' -> NoDup (taskUsers st').
Proof.
  unfold taskUsers. intros Hnd T. destruct T.
  - by subst.
  - rewrite Hps. eapply NoDup_of_submseteq; [exact Hnd|].
    apply submseteq_skips_l.
    apply waiting_NextPc in Hpc'.
    destruct Hpc as [[-> _]|[-> _]]; cbn [waiting]; by apply submseteq_cons.
  - by rewrite Hps, Hpc', Hpc in *.
  - rewrite Hps, Hpc in *. cbn [waiting] in Hnd.
    apply settle_updates in Hsettle as (Hu & _ & _). cbn [t_userID] in Hu.
    rewrite fmap_app. cbn [fmap list_fmap]. rewrite Hu, <- app_assoc. cbn [app].
    eapply NoDup_of_submseteq; [exact Hnd|].
    apply submseteq_skips_l, submseteq_skip. by apply waiting_NextPc in Hpc'.
  - rewrite Hps, Hpc'. rewrite Hpc in Hnd. done.
  - rewrite Hps, Hpc'. rewrite Hpc in Hnd. done.
  - rewrite Hps, Hpc'. rewrite Hpc in Hnd. done.
  - rewrite Hps, Hpc'. rewrite Hpc in Hnd. done.
  - rewrite Hps, Hpc'.
    apply settle_updates in Hsettle as (Hu & _ & _). cbn [t_userID withSends] in Hu.
    by rewrite (fmap_insert_same t_userID _ j t t').
  - by rewrite Hps, Hpc'.
Qed.

Lemma Start_taskUsers cy db st : Start cy db st -> NoDup (taskUsers st).
Proof.
  intros (_ & Hps & _ & _ & Hpc). unfold taskUsers. rewrite Hps. cbn [fmap list_fmap app].
  eapply NoDup_of_submseteq; [apply aggregateUsers_NoDup|].
  by eapply waiting_NextPc.
Qed.

(** *** The cache entry *)

Lemma NextPc_not_200 cy rest pc :
  NextPc cy rest pc -> pc <> CacheUpdated /\ pc <> Responded 200.
Proof.
  intros [[_ ->]|[->|(u & code & ns & l & rest' & _ & -> & _)]]; done.
Qed.

Lemma no_snapshot_pushed u sends : EvSnapshotStored ∉ pushed u sends.
Proof. unfold pushed. by intros (w & ? & _)%list_elem_of_fmap. Qed.

Lemma no_snapshot_issued us : EvSnapshotStored ∉ issued us.
Proof. unfold issued. by intros (w & ? & _)%list_elem_of_fmap. Qed.

Lemma no_snapshot_sendEvents s ph : EvSnapshotStored ∉ sendEvents s ph.
Proof. intros He. apply sendEvents_elem in He as [ep [?|?]]; done. Qed.

Lemma snapshotKept_step cy db0 st st' :
  snapshotKept cy db0 st -> Trans cy st st' -> snapshotKept cy db0 st'.
Proof.
  unfold snapshotKept. intros HS T.
  assert (Hold : st_pc st <> CacheUpdated -> st_pc st <> Responded 200 ->
                 st_pc st <> CacheUpdated /\ st_pc st <> Responded 200
                 /\ serverCache (st_db st) = serverCache db0
                 /\ EvSnapshotStored ∉ st_trace st).
  { intros H1 H2. destruct HS as [([E|E] & _)|HS]; done. }
  destruct T.
  - by subst.
  - right. rewrite Hdb, Htr. destruct (NextPc_not_200 _ _ _ Hpc') as [H1 H2].
    split; [done|]. split; [done|].
    apply Hold; destruct Hpc as [[Hpc _]|[Hpc _]]; congruence.
  - right. rewrite Hdb, Htr, Hpc'. split; [done|]. split; [done|].
    apply Hold; congruence.
  - right. rewrite Hdb, Htr. destruct (NextPc_not_200 _ _ _ Hpc') as [H1 H2].
    split; [done|]. split; [done|].
    destruct Hold as (_ & _ & Hc & Hno); [congruence..|]. split; [done|].
    rewrite !not_elem_of_app. split; [done|].
    split; [apply no_snapshot_pushed|apply no_snapshot_issued].
  - right. rewrite Hdb, Htr, Hpc'. split; [done|]. split; [done|].
    apply Hold; congruence.
  - right. rewrite Hdb, Htr, Hpc'. split; [done|]. split; [done|].
    destruct Hold as (_ & _ & Hc & Hno); [congruence..|]. split; [done|].
    rewrite not_elem_of_app. split; [done|]. by intros ?%list_elem_of_singleton.
  - left. rewrite Hdb, Hpc', Htr. split; [by left|]. split; [done|].
    apply elem_of_app. right. left.
  - left. rewrite Hdb, Hpc', Htr. split; [by right|].
    destruct HS as [(_ & HS)|(Hn & _)]; [done|congruence].
  - rewrite Hpc', Htr.
    assert (Hc : serverCache (st_db st') = serverCache (st_db st)).
    { destruct Hph as [(_ & _ & ->)|(_ & _ & ->)]; done. }
    rewrite Hc. destruct HS as [(E & HS & Hin)|(H1 & H2 & HS & Hno)]; [left|right].
    + split; [done|]. split; [done|]. apply elem_of_app. by left.
    + split; [done|]. split; [done|]. split; [done|].
      rewrite !not_elem_of_app. split; [done|].
      split; [apply no_snapshot_sendEvents|apply no_snapshot_issued].
  - rewrite Hpc', Htr, Hdb. cbn [serverCache updateLastNotifiedExpiration with_users].
    destruct HS as [(E & HS & Hin)|(H1 & H2 & HS & Hno)]; [left|right].
    + split; [done|]. split; [done|]. apply elem_of_app. by left.
    + split; [done|]. split; [done|]. split; [done|].
      rewrite not_elem_of_app. split; [done|]. by intros ?%list_elem_of_singleton.
Qed.

Lemma Start_snapshotKept cy db st : Start cy db st -> snapshotKept cy db st.
Proof.
  intros (Hdb & _ & _ & Htr & Hpc). right. rewrite Hdb, Htr.
  destruct (NextPc_not_200 _ _ _ Hpc) as [H1 H2].
  split; [done|]. split; [done|]. split; [done|]. by intros ?%list_elem_of_singleton.
Qed.

(** *** Who gets a new expiration *)

Lemma hasResolvedTask_step cy u st st' :
  hasResolvedTask u st -> Trans cy st st' -> hasResolvedTask u st'.
Proof.
  unfold hasResolvedTask. intros HR T. destruct T; try (by subst); try (by rewrite Hps).
  - rewrite Hps. apply Exists_app. by left.
  - rewrite Hps. apply Exists_exists in HR as (t0 & Hin & Hu & Hst).
    apply list_elem_of_lookup_1 in Hin as [j' Hj'].
    apply Exists_exists. destruct (decide (j' = j)) as [->|Hne].
    + exists t'. split.
      * apply list_elem_of_lookup_2 with j. rewrite list_lookup_insert_eq; [done|].
        by eapply lookup_lt_Some.
      * assert (t0 = t) by congruence. subst t0.
        destruct (settle_spec (withSends t (<[i:=withPhase s ph]> (t_sends t))))
          as (t'' & us' & Hs' & Hu' & _ & _ & Hcase).
        rewrite Hsettle in Hs'. injection Hs' as <- <-.
        cbn [t_userID t_state withSends] in *. split; [congruence|].
        destruct Hcase as [(_ & [E|[E _]])|(_ & E & _)]; congruence.
    + exists t0. split; [|done].
      apply list_elem_of_lookup_2 with j'. by rewrite list_lookup_insert_ne.
Qed.

Lemma isWatermarkOf_issued u us :
  Exists (isWatermarkOf u) (issued us) -> u ∈ us.*1.
Proof.
  unfold issued. rewrite Exists_exists.
  intros (e & (w & -> & Hw)%list_elem_of_fmap & He). cbn in He. subst u.
  by apply list_elem_of_fmap_2.
Qed.

Lemma isWatermarkOf_pushed u v sends : ~ Exists (isWatermarkOf u) (pushed v sends).
Proof.
  unfold pushed. rewrite Exists_exists.
  intros (e & (w & -> & Hw)%list_elem_of_fmap & He). done.
Qed.

Lemma isWatermarkOf_sendEvents u s ph : ~ Exists (isWatermarkOf u) (sendEvents s ph).
Proof.
  rewrite Exists_exists. intros (e & He & Hw).
  apply sendEvents_elem in He as [ep [-> | ->]]; done.
Qed.

Lemma settle_resolves t t' us u :
  settle t = (t', us) -> u ∈ us.*1 -> t_userID t' = u /\ t_state t' = Resolved.
Proof.
  intros Hs Hu. destruct (settle_spec t) as (t'' & us' & Hs' & Hid & _ & _ & Hcase).
  rewrite Hs in Hs'. injection Hs' as <- <-.
  destruct Hcase as [[-> _]|(-> & _ & Hst & _)].
  - by apply elem_of_nil in Hu.
  - cbn in Hu. apply list_elem_of_singleton in Hu. split; congruence.
Qed.

Lemma earned_step cy db0 st st' :
  earned db0 st -> Trans cy st st' -> earned db0 st'.
Proof.
  intros HE T u Hu.
  assert (Hold : getLastNotifiedExpiration (st_db st) u <> getLastNotifiedExpiration db0 u
                 \/ u ∈ (st_updates st).*1
                 \/ Exists (isWatermarkOf u) (st_trace st) ->
                 hasResolvedTask u st') by
    (intros Hc; eapply hasResolvedTask_step; [by apply HE|done]).
  destruct T.
  - subst. by apply HE.
  - apply Hold. by rewrite Hdb, Hus, Htr in Hu.
  - apply Hold. by rewrite Hdb, Hus, Htr in Hu.
  - rewrite Hdb, Hus, Htr, fmap_app, elem_of_app, !Exists_app in Hu.
    destruct Hu as [Hu|[[Hu|Hu]|[Hu|[Hu|Hu]]]]; try (apply Hold; tauto).
    + destruct (settle_resolves _ _ _ u Hsettle Hu) as [Hid Hst].
      unfold hasResolvedTask. rewrite Hps. apply Exists_app. right. by constructor.
    + by apply isWatermarkOf_pushed in Hu.
    + apply isWatermarkOf_issued in Hu.
      destruct (settle_resolves _ _ _ u Hsettle Hu) as [Hid Hst].
      unfold hasResolvedTask. rewrite Hps. apply Exists_app. right. by constructor.
  - apply Hold. by rewrite Hdb, Hus, Htr in Hu.
  - apply Hold. rewrite Hdb, Hus, Htr, Exists_app in Hu.
    destruct Hu as [Hu|[Hu|[Hu|Hu]]]; try tauto.
    apply Exists_cons in Hu as [Hu|Hu]; [done|by apply Exists_nil in Hu].
  - apply Hold. rewrite Hdb, Hus, Htr, Exists_app in Hu.
    destruct Hu as [Hu|[Hu|[Hu|Hu]]]; try tauto.
    apply Exists_cons in Hu as [Hu|Hu]; [done|by apply Exists_nil in Hu].
  - apply Hold. by rewrite Hdb, Hus, Htr in Hu.
  - assert (Hg : getLastNotifiedExpiration (st_db st') u
                 = getLastNotifiedExpiration (st_db st) u).
    { destruct Hph as [(_ & _ & ->)|(_ & _ & ->)]; done. }
    rewrite Hg, Hus, Htr, fmap_app, elem_of_app, !Exists_app in Hu.
    assert (Hnew : u ∈ us.*1 -> hasResolvedTask u st').
    { intros Hin. destruct (settle_resolves _ _ _ u Hsettle Hin) as [Hid Hst].
      unfold hasResolvedTask. rewrite Hps. apply Exists_exists. exists t'.
      split; [|done]. apply list_elem_of_lookup_2 with j.
      rewrite list_lookup_insert_eq; [done|]. by eapply lookup_lt_Some. }
    destruct Hu as [Hu|[[Hu|Hu]|[Hu|[Hu|Hu]]]]; try (apply Hold; tauto).
    + by apply Hnew.
    + by apply isWatermarkOf_sendEvents in Hu.
    + by apply Hnew, isWatermarkOf_issued.
  - apply Hold. rewrite Hdb, Hus, Htr, Exists_app in Hu.
    assert (Hin : (u0, x) ∈ st_updates st) by by eapply list_elem_of_lookup_2.
    destruct (decide (u = u0)) as [->|Hne].
    { right; left. by apply (list_elem_of_fmap_2 fst) in Hin. }
    rewrite getLast_update_other in Hu by done.
    destruct Hu as [Hu|[Hu|[Hu|Hu]]]; try tauto.
    + right; left. apply list_elem_of_fmap in Hu as (w & -> & Hw).
      apply list_elem_of_fmap_2. by eapply list_elem_of_delete_inv.
    + apply Exists_cons in Hu as [Hu|Hu]; [by destruct Hne|by apply Exists_nil in Hu].
Qed.

(** *** A rejected task *)

Lemma rejectedTask_step cy j u st st' :
  rejectedTask j u st -> Trans cy st st' -> rejectedTask j u st'.
Proof.
  intros (t0 & Hj0 & Hu & Hst) T. unfold rejectedTask.
  destruct T; try (subst; by exists t0); try (rewrite Hps; by exists t0).
  - exists t0. rewrite Hps. split; [|done]. by apply lookup_app_l_Some.
  - rewrite Hps. destruct (decide (j = j0)) as [->|Hne].
    + assert (t0 = t) by congruence. subst t0.
      exists t'. split; [rewrite list_lookup_insert_eq; [done|by eapply lookup_lt_Some]|].
      destruct (settle_spec (withSends t (<[i:=withPhase s ph]> (t_sends t))))
        as (t'' & us' & Hs' & Hu' & _ & _ & Hcase).
      rewrite Hsettle in Hs'. injection Hs' as <- <-.
      cbn [t_userID t_state withSends] in *. split; [congruence|].
      destruct Hcase as [(_ & [E|[E _]])|(_ & E & _)]; congruence.
    + exists t0. by rewrite list_lookup_insert_ne.
Qed.

Lemma rejectedTask_not_committing j u st :
  settled st -> rejectedTask j u st -> ~ committing (st_pc st).
Proof.
  intros [Hall _] (t & Hj & _ & Hst) Hc. specialize (Hall Hc).
  rewrite Forall_forall in Hall.
  assert (E : t_state t = Resolved) by (apply Hall; by eapply list_elem_of_lookup_2).
  congruence.
Qed.

Lemma insert_Threw (sends : list Send) (i : nat) (s : Send) :
  sends !! i = Some s ->
  existsb isThrew (<[i := withPhase s Threw]> sends) = true.
Proof.
  intros Hi. apply existsb_exists. exists (withPhase s Threw). split; [|done].
  apply list_elem_of_In, list_elem_of_lookup_2 with i.
  rewrite list_lookup_insert_eq; [done|]. by eapply lookup_lt_Some.
Qed.

(** The answer of the push service that makes [trySendNotification]
    throw rejects the task of the user. *)
Lemma reply_rejects cy j i t s outcome st :
  settled st ->
  st_promises st !! j = Some t -> t_sends t !! i = Some s ->
  sd_phase s = AwaitPush -> trySendNotification outcome = Threw ->
  rejectedTask j (t_userID t) (step cy (PushReplies j i outcome) st).
Proof.
  intros [_ Hret] Hj Hi Hph Hthrew. cbn [step]. rewrite Hj, Hi, Hph. cbv zeta.
  rewrite Hthrew.
  match goal with |- context [updateTask ?j ?t ?sends ?st1] =>
    destruct (updateTask_spec j t sends st1) as (t' & us & Hs & _ & _ & Hps & _)
  end.
  exists t'. rewrite Hps. cbn [st_promises logEvents].
  split; [rewrite list_lookup_insert_eq; [done|by eapply lookup_lt_Some]|].
  unfold settle in Hs. cbn [t_state t_sends withSends] in Hs.
  rewrite (insert_Threw _ _ _ Hi) in Hs.
  destruct (t_state t) eqn:Hst.
  - injection Hs as <- <-. done.
  - exfalso. rewrite Forall_forall in Hret.
    assert (Hin : t ∈ st_promises st) by by eapply list_elem_of_lookup_2.
    specialize (Hret t Hin Hst). rewrite Forall_forall in Hret.
    assert (Hs' : isReturned s = true) by (apply Hret; by eapply list_elem_of_lookup_2).
    unfold isReturned in Hs'. by rewrite Hph in Hs'.
  - injection Hs as <- <-. cbn [t_userID t_state withSends]. done.
Qed.

(** *** A user without a subscription *)

Lemma getUserSubscriptions_delete (db : DB) (subscription : Subscription) (userID : Z) :
  getUserSubscriptions (deletePushSubscription db subscription) userID
  = filter (fun sub => endpoint sub <> endpoint subscription)
      (getUserSubscriptions db userID).
Proof.
  unfold deletePushSubscription, getUserSubscriptions.
  cbn [subscriptions with_subscriptions].
  induction (subscriptions db) as [|r rows IH]; [done|].
  rewrite !filter_cons.
  destruct (decide (endpoint (s_subscription r) <> endpoint subscription)) as [Hk|Hk];
    destruct (decide (s_userid r = userID)) as [Hu|Hu]; rewrite ?filter_cons.
  - destruct (decide (s_userid r = userID)); [|done]. cbn [fmap list_fmap].
    rewrite filter_cons. destruct (decide _); [|done]. by rewrite IH.
  - destruct (decide (s_userid r = userID)); [done|]. exact IH.
  - cbn [fmap list_fmap]. rewrite filter_cons. destruct (decide _); [done|]. exact IH.
  - exact IH.
Qed.

Lemma quiet_events_issued u us :
  Forall (fun w => w.1 <> u) us ->
  Forall (fun e => ~ isPushTo u e /\ ~ isWatermarkOf u e) (issued us).
Proof.
  intros Hus. unfold issued. apply Forall_fmap.
  eapply Forall_impl; [exact Hus|]. intros w Hw. cbn. split; [tauto|done].
Qed.

Lemma quiet_events_pushed u v sends :
  v <> u -> Forall (fun e => ~ isPushTo u e /\ ~ isWatermarkOf u e) (pushed v sends).
Proof.
  intros Hv. unfold pushed. apply Forall_fmap, Forall_forall. intros s _. cbn.
  split; [done|tauto].
Qed.

Lemma quiet_events_sendEvents u s ph :
  Forall (fun e => ~ isPushTo u e /\ ~ isWatermarkOf u e) (sendEvents s ph).
Proof.
  apply Forall_forall. intros e He.
  apply sendEvents_elem in He as [ep [-> | ->]]; cbn; tauto.
Qed.

Lemma settle_other_user t t' us u :
  settle t = (t', us) -> t_userID t <> u ->
  t_userID t' <> u /\ Forall (fun w => w.1 <> u) us.
Proof.
  intros Hs Hu. apply settle_updates in Hs as (Hid & _ & [-> | ->]).
  - split; [congruence|constructor].
  - split; [congruence|]. by repeat constructor.
Qed.

Lemma quiet_step cy db0 u c st :
  quiet db0 u st -> quiet db0 u (step cy c st).
Proof.
  intros (Hsubs & Hlast & Htrace & Htasks & Hups).
  pose proof (step_Trans cy c st) as T. unfold quiet.
  destruct T as [->|u' ns l rest Hpc Hpc' Hdb Hps Hus Htr|u' ns l rest Hpc Hlt Hpc' Hdb Hps Hus Htr
                |u' ns l rest sends t' us Hpc Hsends Hsettle Hpc' Hdb Hps Hus Htr
                |Hpc Hex Hpc' Hdb Hps Hus Htr|Hpc Hall Hpc' Hdb Hps Hus Htr
                |Hpc Hpc' Hdb Hps Hus Htr|Hpc Hpc' Hdb Hps Hus Htr
                |j i t s ph t' us Hj Hi Hph Hsettle Hpc' Hps Hus Htr
                |k u' x Hk Hpc' Hdb Hps Hus Htr].
  - done.
  - by rewrite Hdb, Hps, Hus, Htr.
  - by rewrite Hdb, Hps, Hus, Htr.
  - destruct (step_task_started cy c st t' Hps) as (u2 & ns2 & l2 & rest2 & Hpc2 & Hne).
    assert (u2 = u') by congruence. subst u2.
    assert (Hu' : u' <> u) by (intros ->; by apply Hne).
    destruct (settle_other_user _ _ _ u Hsettle Hu') as [Hid Hfus].
    rewrite Hdb, Hps, Hus, Htr. repeat split; try done.
    + rewrite !Forall_app. split; [done|]. split.
      * by apply quiet_events_pushed.
      * by apply quiet_events_issued.
    + apply Forall_app. split; [done|]. by repeat constructor.
    + by apply Forall_app.
  - by rewrite Hdb, Hps, Hus, Htr.
  - rewrite Hdb, Hps, Hus, Htr. repeat split; try done.
    apply Forall_app. split; [done|]. repeat constructor; cbn; tauto.
  - rewrite Hdb, Hps, Hus, Htr. repeat split; try done.
    apply Forall_app. split; [done|]. repeat constructor; cbn; tauto.
  - by rewrite Hdb, Hps, Hus, Htr.
  - assert (Hu' : t_userID (withSends t (<[i:=withPhase s ph]> (t_sends t))) <> u).
    { cbn [t_userID withSends]. rewrite Forall_forall in Htasks. apply Htasks.
      by eapply list_elem_of_lookup_2. }
    destruct (settle_other_user _ _ _ u Hsettle Hu') as [Hid Hfus].
    rewrite Hps, Hus, Htr. split; [|split; [|split; [|split]]].
    + destruct Hph as [(_ & _ & ->)|(_ & _ & ->)]; [done|].
      by rewrite getUserSubscriptions_delete, Hsubs.
    + destruct Hph as [(_ & _ & ->)|(_ & _ & ->)]; done.
    + rewrite !Forall_app. split; [done|]. split.
      * apply quiet_events_sendEvents.
      * by apply quiet_events_issued.
    + apply Forall_insert; done.
    + by apply Forall_app.
  - assert (Hu' : u' <> u).
    { rewrite Forall_forall in Hups.
      apply (Hups (u', x)). by eapply list_elem_of_lookup_2. }
    rewrite Hdb, Hps, Hus, Htr. split; [done|]. split; [|split; [|split]].
    + by rewrite getLast_update_other.
    + apply Forall_app. split; [done|]. constructor; [|constructor].
      cbn. split; [tauto|done].
    + done.
    + apply Forall_forall. intros w Hw. rewrite Forall_forall in Hups.
      apply Hups. by eapply list_elem_of_delete_inv.
Qed.

(** *** What the request leaves of the database *)

Lemma deletedEndpoint_app ep tr es :
  deletedEndpoint ep (tr ++ es) = deletedEndpoint ep tr || deletedEndpoint ep es.
Proof. unfold deletedEndpoint. apply existsb_app. Qed.

Lemma deletedEndpoint_issued ep us : deletedEndpoint ep (issued us) = false.
Proof. unfold deletedEndpoint, issued. by induction us. Qed.

Lemma deletedEndpoint_pushed ep u sends : deletedEndpoint ep (pushed u sends) = false.
Proof. unfold deletedEndpoint, pushed. by induction sends. Qed.

Lemma idcode_update (db : DB) (u x : Z) :
  (fun r => (u_userid r, u_usercode r)) <$> users (updateLastNotifiedExpiration db u x)
  = (fun r => (u_userid r, u_usercode r)) <$> users db.
Proof.
  unfold updateLastNotifiedExpiration. cbn [users with_users].
  rewrite <- list_fmap_compose. apply Forall_fmap_ext_1, Forall_forall.
  intros r _. cbn. by destruct (decide (u_userid r = u)).
Qed.

Lemma framed_step cy db0 st st' :
  framed db0 st -> Trans cy st st' -> framed db0 st'.
Proof.
  intros (Hf & Hp & Hu & Hs) T. unfold framed.
  destruct T; try (subst; done); try (by rewrite Hdb, Htr).
  - rewrite Hdb, Htr. repeat split; try done. rewrite Hs.
    apply list_filter_iff. intros r.
    by rewrite !deletedEndpoint_app, deletedEndpoint_pushed, deletedEndpoint_issued,
      !orb_false_r.
  - rewrite Hdb, Htr. repeat split; try done. rewrite Hs.
    apply list_filter_iff. intros r. by rewrite deletedEndpoint_app, orb_false_r.
  - rewrite Hdb, Htr. cbn [filters usersToFilters users subscriptions
                           updateCachedRawGearData with_serverCache].
    repeat split; try done. rewrite Hs.
    apply list_filter_iff. intros r. by rewrite deletedEndpoint_app, orb_false_r.
  - rewrite Htr. destruct Hph as [(_ & [o ->] & ->)|(_ & -> & ->)].
    + repeat split; try done. rewrite Hs.
      apply list_filter_iff. intros r.
      rewrite !deletedEndpoint_app, deletedEndpoint_issued, !orb_false_r.
      assert (E : deletedEndpoint (endpoint (s_subscription r))
                    (sendEvents s (trySendNotification o)) = false).
      { destruct o as [|code|]; cbn; [done| |done]. by destruct (permanentFailure code). }
      by rewrite E, orb_false_r.
    + cbn [filters usersToFilters users subscriptions deletePushSubscription
             with_subscriptions].
      repeat split; try done. rewrite Hs, list_filter_filter.
      apply list_filter_iff. intros r.
      rewrite !deletedEndpoint_app, deletedEndpoint_issued, !orb_false_r.
      cbn [sendEvents deletedEndpoint existsb isDeleteStored]. rewrite orb_false_r.
      rewrite orb_false_iff, bool_decide_eq_false. split.
      * intros [Hne Hd]. split; [done|]. intros E. by apply Hne.
      * intros [Hd Hne]. split; [|done]. intros E. by apply Hne.
  - rewrite Hdb, Htr. cbn [filters usersToFilters subscriptions
                           updateLastNotifiedExpiration with_users].
    split; [done|]. split; [done|]. split; [by rewrite idcode_update|].
    rewrite Hs. apply list_filter_iff. intros r.
    by rewrite deletedEndpoint_app, orb_false_r.
Qed.

Lemma framed_initial (db : DB) (st : State) :
  st_db st = db -> (st_trace st = [] \/ st_trace st = [EvFetchAPI]) -> framed db st.
Proof.
  intros Hdb Htr. unfold framed. rewrite Hdb. repeat split.
  symmetry. apply filter_keep_all, Forall_forall. intros r _.
  by destruct Htr as [-> | ->].
Qed.

Lemma insertByUserid_sameUser (r r' : UserRow) (rows rows' : list UserRow) :
  sameUser r r' -> Forall2 sameUser rows rows' ->
  Forall2 sameUser (insertByUserid r rows) (insertByUserid r' rows').
Proof.
  intros Hr Hrows. induction Hrows as [|x x' rows rows' Hx Hrows IH]; cbn [insertByUserid].
  - constructor; [done|constructor].
  - assert (E : (u_userid r' <=? u_userid x') = (u_userid r <=? u_userid x)).
    { destruct Hr as [<- _], Hx as [<- _]. done. }
    rewrite E. destruct (u_userid r <=? u_userid x).
    + constructor; [done|]. by constructor.
    + constructor; [done|]. exact IH.
Qed.

Lemma sortByUserid_sameUser (rows rows' : list UserRow) :
  Forall2 sameUser rows rows' ->
  Forall2 sameUser (sortByUserid rows) (sortByUserid rows').
Proof.
  unfold sortByUserid. induction 1; cbn [foldr]; [constructor|].
  by apply insertByUserid_sameUser.
Qed.

(** The matcher reads the filters, the pairings and the ids and codes of
    the users. *)
Lemma getUsersToBeNotified_frame (db db' : DB) (gear : Gear) :
  filters db' = filters db -> usersToFilters db' = usersToFilters db ->
  (fun r => (u_userid r, u_usercode r)) <$> users db'
  = (fun r => (u_userid r, u_usercode r)) <$> users db ->
  getUsersToBeNotified db' gear = getUsersToBeNotified db gear.
Proof.
  intros Hf Hp Hu. unfold getUsersToBeNotified. rewrite Hf, Hp.
  destruct (negb (allowedCharsPattern (g_name gear))); [done|].
  destruct (negb (queryWellFormed gear)); [done|]. cbv zeta. f_equal.
  generalize ((filter (fun p => p.2 ∈ (filter (fun fr => matchingFilter gear fr.2 = true)
                                         (filters db)).*1) (usersToFilters db)).*1).
  intros ids.
  assert (Hrows : Forall2 sameUser (users db') (users db)).
  { revert Hu. generalize (users db). induction (users db') as [|r rows IH];
      intros [|r' rows'] Hu; try done.
    cbn [fmap list_fmap] in Hu. injection Hu as Hid Hcode Hu.
    constructor; [done|by apply IH]. }
  assert (Hfilter : Forall2 sameUser (filter (fun r => u_userid r ∈ ids) (users db'))
                      (filter (fun r => u_userid r ∈ ids) (users db))).
  { clear Hu. induction Hrows as [|r r' rows rows' [Hid Hcode] Hrows IH]; [constructor|].
    rewrite !filter_cons, Hid.
    destruct (decide (u_userid r' ∈ ids)); [|exact IH]. constructor; [by split|exact IH]. }
  apply sortByUserid_sameUser in Hfilter.
  generalize (@nil (Z * string)).
  induction Hfilter as [|r r' rows rows' [Hid Hcode] _ IH]; intros m; [done|].
  cbn [foldl]. by rewrite Hid, Hcode, IH.
Qed.

(** *** Whom the pushes go to *)

Lemma nextUser_pcNotifications cy now rest st :
  pcNotifications cy (nextUser cy now rest st).
Proof.
  unfold nextUser, pcNotifications. destruct rest as [|[u code] rest']; [done|].
  cbv zeta. destruct (last _) as [gear|]; [|done].
  cbn [st_pc setPc]. by exists now, code.
Qed.

Lemma pcNotifications_step cy c st :
  pcNotifications cy st -> pcNotifications cy (step cy c st).
Proof.
  intros HP. destruct c as [now|j i o|j i|k|].
  2-4: unfold pcNotifications;
       match goal with |- context [step ?cy0 ?c ?st0] =>
         rewrite (proj1 (step_other cy0 c st0 ltac:(done) ltac:(done)))
       end; exact HP.
  2: { cbn [step]. unfold pcNotifications in *. by destruct (st_pc st) eqn:E; rewrite ?E. }
  cbn [step]. unfold main. unfold pcNotifications in HP.
  destruct (st_pc st) as [|u ns l rest|u ns l rest| | | |s] eqn:Hpc.
  - unfold pcNotifications. by rewrite Hpc.
  - destruct (l <=? getLastNotifiedExpiration (st_db st) u).
    + apply nextUser_pcNotifications.
    + done.
  - destruct (getUserSubscriptions (st_db st) u); apply nextUser_pcNotifications.
  - destruct (existsb isFailed _); [done|]. destruct (forallb isResolved _); [done|].
    unfold pcNotifications. by rewrite Hpc.
  - unfold pcNotifications. by rewrite Hpc.
  - done.
  - unfold pcNotifications. by rewrite Hpc.
Qed.

Lemma subscriptions_kept (db0 : DB) (st : State) (u : Z) (sub : Subscription) :
  framed db0 st -> sub ∈ getUserSubscriptions (st_db st) u ->
  sub ∈ getUserSubscriptions db0 u.
Proof.
  intros (_ & _ & _ & Hs). unfold getUserSubscriptions. rewrite Hs.
  intros (r & -> & Hr)%list_elem_of_fmap. apply list_elem_of_fmap_2.
  apply list_elem_of_filter in Hr as [Hu Hr].
  apply list_elem_of_filter in Hr as [_ Hr]. by apply list_elem_of_filter.
Qed.

Lemma startSends_elem subs ns s :
  s ∈ startSends subs ns ->
  sd_subscription s ∈ subs /\ (sd_notification s, sd_options s) ∈ ns.
Proof.
  unfold startSends. intros (sub & Hs & Hsub)%list_elem_of_bind.
  apply list_elem_of_fmap in Hs as ([p o] & -> & Hn). done.
Qed.

Lemma pushMatched_step cy db0 st st' :
  framed db0 st -> pcNotifications cy st ->
  Forall (pushMatched cy db0) (st_trace st) -> Trans cy st st' ->
  Forall (pushMatched cy db0) (st_trace st').
Proof.
  intros HF HP Htrace T.
  destruct T; try (subst; done); try (by rewrite Htr);
    rewrite Htr, ?Forall_app; repeat split; try done; try (by repeat constructor).
  - unfold pcNotifications in HP. rewrite Hpc in HP.
    destruct HP as (now & code & ->).
    apply Forall_forall. intros e (s & -> & Hs)%list_elem_of_fmap.
    rewrite Hsends in Hs. apply startSends_elem in Hs as [Hsub Hn].
    apply list_elem_of_fmap in Hn as (gear & Hg & Hgear).
    injection Hg as Hp Ho. cbn. split.
    + exists (sd_subscription s). split; [by eapply subscriptions_kept|done].
    + exists gear, now. rewrite Hp, Ho. done.
  - apply Forall_forall. intros e (w & -> & _)%list_elem_of_fmap. done.
  - apply Forall_forall. intros e He.
    apply sendEvents_elem in He as [ep [-> | ->]]; done.
  - apply Forall_forall. intros e (w & -> & _)%list_elem_of_fmap. done.
Qed.

(** ** More about the handler *)

Lemma status_200 st : status st = Some 200 <-> st_pc st = Responded 200.
Proof.
  unfold status. destruct (st_pc st); split; intros E; try done; congruence.
Qed.

Lemma handler_taskUsers `{GearLoader} env req db sched :
  NoDup (t_userID <$> st_promises (handler env req db sched)).
Proof.
  destruct (handler_cases env req db sched)
    as [(cy & st0 & _ & HS & ->)|[_ (_ & Hps & _)]].
  - assert (Hnd : NoDup (taskUsers (exec cy sched st0))).
    { apply (exec_invariant cy (fun st => NoDup (taskUsers st))).
      - intros st st'. apply taskUsers_step.
      - by eapply Start_taskUsers. }
    by apply NoDup_app in Hnd as (Hnd & _).
  - rewrite Hps. constructor.
Qed.

Lemma handler_snapshotKept `{GearLoader} env req db sched :
  let st := handler env req db sched in
  ((st_pc st = CacheUpdated \/ st_pc st = Responded 200)
   /\ serverCache (st_db st) = apiRawGearData env /\ EvSnapshotStored ∈ st_trace st)
  \/ (st_pc st <> CacheUpdated /\ st_pc st <> Responded 200
      /\ serverCache (st_db st) = serverCache db /\ EvSnapshotStored ∉ st_trace st).
Proof.
  cbv zeta.
  destruct (handler_cases env req db sched)
    as [(cy & st0 & Hp & HS & ->)|[_ (Hdb & _ & _ & Htr & Hpc)]].
  - destruct (prepare_cycle env req db cy st0 Hp)
      as (cachedGear & fetched & fetchedGear & _ & _ & _ & Hapi & _ & _ & Hf & _).
    assert (HK : snapshotKept cy db (exec cy sched st0)).
    { apply (exec_invariant cy (snapshotKept cy db)).
      - intros st st'. apply snapshotKept_step.
      - by eapply Start_snapshotKept. }
    destruct HK as [(Hpc & Hc & Hin)|HK]; [left|by right].
    split; [done|]. split; [|done]. by rewrite Hc, Hf, Hapi.
  - right. unfold committing in Hpc. rewrite Hdb.
    split; [tauto|]. split; [tauto|]. split; [done|].
    destruct Htr as [-> | ->]; [apply not_elem_of_nil|].
    by intros ?%list_elem_of_singleton.
Qed.

(** X18: the cache entry and the write of the snapshot.  When the
    request has answered 200, the cache holds the data fetched from the
    API and the write is in the trace.  When the write is in the trace,
    the cache holds the fetched data and the request has answered 200 or
    is between the write and the answer.  When it is not, the cache holds
    what it held when the request started and the request has not
    answered 200.  A request answered with another status has not
    written. *)
Theorem X18_snapshot_stored_with_200 `{GearLoader}
    (env : Env) (req : Request) (db : DB) (sched : list Choice) :
  let st := handler env req db sched in
  (status st = Some 200 ->
   serverCache (st_db st) = apiRawGearData env /\ EvSnapshotStored ∈ st_trace st)
  /\ (EvSnapshotStored ∈ st_trace st ->
      serverCache (st_db st) = apiRawGearData env
      /\ (st_pc st = CacheUpdated \/ status st = Some 200))
  /\ (EvSnapshotStored ∉ st_trace st ->
      serverCache (st_db st) = serverCache db /\ status st <> Some 200)
  /\ (forall code, status st = Some code -> code <> 200 ->
      EvSnapshotStored ∉ st_trace st).
Proof.
  cbv zeta. rewrite status_200.
  destruct (handler_snapshotKept env req db sched)
    as [(Hpc & Hc & Hin)|(Hpc1 & Hpc2 & Hc & Hno)].
  - split; [done|]. split; [done|]. split; [done|].
    intros code Hcode Hne. unfold status in Hcode.
    destruct Hpc as [Hpc|Hpc]; rewrite Hpc in Hcode; congruence.
  - split; [done|]. split; [done|]. split; [done|]. done.
Qed.

Lemma Start_earned cy db st : Start cy db st -> earned db st.
Proof.
  intros (Hdb & _ & Hus & Htr & _) u. rewrite Hdb, Hus, Htr.
  intros [Hne|[Hin|Hex]]; [done|by apply elem_of_nil in Hin|].
  apply Exists_cons in Hex as [Hex|Hex]; [done|by apply Exists_nil in Hex].
Qed.

Lemma handler_earned `{GearLoader} env req db sched :
  let st := handler env req db sched in
  earned db st.
Proof.
  cbv zeta. destruct (handler_cases env req db sched)
    as [(cy & st0 & Hp & HS & ->)|[_ (Hdb & _ & Hus & Htr & _)]].
  - apply (exec_invariant cy (earned db)).
    + intros st st'. apply earned_step.
    + by eapply Start_earned.
  - intros u. rewrite Hdb, Hus.
    intros [Hne|[Hin|Hex]]; [done|by apply elem_of_nil in Hin|].
    destruct Htr as [Htr|Htr]; rewrite Htr in Hex.
    + by apply Exists_nil in Hex.
    + apply Exists_cons in Hex as [Hex|Hex]; [done|by apply Exists_nil in Hex].
Qed.

Lemma handler_settled `{GearLoader} env req db sched :
  settled (handler env req db sched).
Proof.
  destruct (handler_cases env req db sched)
    as [(cy & st0 & Hp & HS & ->)|[_ (_ & Hps & _ & _ & Hpc)]].
  - by apply (reachable_settled env req db).
  - unfold settled. rewrite Hps. split; [|constructor].
    intros Hc. by destruct Hpc.
Qed.

(** X19: if, at any point of a request, the stored expiration of a user
    differs from the one at the start, or an UPDATE for the user is in
    flight, or one was issued or stored, then the user has a task all of
    whose sends have returned (delivered, or given up after the
    subscription was deleted). *)
Theorem X19_expiration_written_after_all_sends `{GearLoader}
    (env : Env) (req : Request) (db : DB) (sched : list Choice) (userID : Z) :
  let st := handler env req db sched in
  getLastNotifiedExpiration (st_db st) userID <> getLastNotifiedExpiration db userID
  \/ userID ∈ (st_updates st).*1
  \/ Exists (isWatermarkOf userID) (st_trace st) ->
  exists t,
    t ∈ st_promises st /\ t_userID t = userID /\ t_state t = Resolved
    /\ Forall (fun s => isReturned s = true) (t_sends t).
Proof.
  cbv zeta. intros Hu.
  apply (handler_earned env req db sched) in Hu.
  apply Exists_exists in Hu as (t & Hin & Hid & Hst).
  exists t. repeat split; try done.
  destruct (handler_settled env req db sched) as [_ Hret].
  rewrite Forall_forall in Hret. by apply Hret.
Qed.

Lemma no_resolved_task_of_rejected j u st :
  NoDup (t_userID <$> st_promises st) -> rejectedTask j u st -> ~ hasResolvedTask u st.
Proof.
  intros Hnd (t & Hj & Hu & Hst) (t1 & Hin & Hu1 & Hst1)%Exists_exists.
  apply list_elem_of_lookup_1 in Hin as [j1 Hj1].
  assert (j = j1).
  { eapply NoDup_lookup; [exact Hnd| |].
    - by rewrite list_lookup_fmap, Hj.
    - rewrite list_lookup_fmap, Hj1. cbn. congruence. }
  subst j1. congruence.
Qed.

(** X20: when the push service answers a send with an error that
    [trySendNotification] throws again (a WebPushError whose status is not
    404, 410 or 403, or any other error), the request never answers 200,
    the cache entry is not written, and the stored expiration of the user
    of the send stays as it was: no UPDATE for the user is ever issued. *)
Theorem X20_thrown_send_rejects_the_request `{GearLoader}
    (env : Env) (req : Request) (db : DB) (sched1 sched2 : list Choice)
    (j i : nat) (t : Task) (s : Send) (outcome : PushOutcome) :
  st_promises (handler env req db sched1) !! j = Some t ->
  t_sends t !! i = Some s ->
  sd_phase s = AwaitPush ->
  trySendNotification outcome = Threw ->
  let st' := handler env req db (sched1 ++ PushReplies j i outcome :: sched2) in
  status st' <> Some 200
  /\ serverCache (st_db st') = serverCache db
  /\ getLastNotifiedExpiration (st_db st') (t_userID t)
     = getLastNotifiedExpiration db (t_userID t)
  /\ ~ Exists (isWatermarkOf (t_userID t)) (st_trace st').
Proof.
  intros Hj Hi Hph Hthrew st'.
  destruct (handler_cases env req db sched1)
    as [(cy & st0 & Hp & HS & E1)|[_ (_ & Hps & _)]];
    [|by rewrite Hps in Hj].
  destruct (handler_app env req db cy st0 sched1 (PushReplies j i outcome) sched2 Hp)
    as [_ E2].
  rewrite E1 in Hj.
  destruct (reachable_settled env req db cy st0 sched1 Hp) as [Hs1 _].
  pose proof (reply_rejects cy j i t s outcome _ Hs1 Hj Hi Hph Hthrew) as HR.
  assert (HR' : rejectedTask j (t_userID t) st').
  { subst st'. rewrite E2.
    apply (exec_invariant cy (rejectedTask j (t_userID t))); [|done].
    intros st1 st2. apply rejectedTask_step. }
  pose proof (handler_settled env req db (sched1 ++ PushReplies j i outcome :: sched2))
    as Hs'. fold st' in Hs'.
  pose proof (rejectedTask_not_committing _ _ _ Hs' HR') as Hnc.
  assert (Hno200 : status st' <> Some 200).
  { rewrite status_200. intros E. apply Hnc. by right; right. }
  split; [done|]. split.
  { destruct (handler_snapshotKept env req db (sched1 ++ PushReplies j i outcome :: sched2))
      as [([Hpc|Hpc] & _)|(_ & _ & Hc & _)]; [| |done]; exfalso; apply Hnc.
    - by right; left.
    - by right; right. }
  pose proof (handler_earned env req db (sched1 ++ PushReplies j i outcome :: sched2)
                (t_userID t)) as HE. fold st' in HE.
  pose proof (no_resolved_task_of_rejected j (t_userID t) st'
                (handler_taskUsers env req db _) HR') as Hnone.
  split.
  - destruct (decide (getLastNotifiedExpiration (st_db st') (t_userID t)
                      = getLastNotifiedExpiration db (t_userID t))) as [E|Hne]; [done|].
    exfalso. apply Hnone, HE. by left.
  - intros Hex. apply Hnone, HE. by right; right.
Qed.

Lemma handler_quiet `{GearLoader} env req db sched userID :
  getUserSubscriptions db userID = [] ->
  quiet db userID (handler env req db sched).
Proof.
  intros Hsubs. destruct (handler_cases env req db sched)
    as [(cy & st0 & Hp & HS & ->)|[_ (Hdb & Hps & Hus & Htr & _)]].
  - apply (exec_invariant_step cy (quiet db userID)).
    + intros st c. apply quiet_step.
    + destruct HS as (Hdb & Hps & Hus & Htr & _). unfold quiet.
      rewrite Hdb, Hps, Hus, Htr. repeat split; try done.
      repeat constructor; cbn; tauto.
  - unfold quiet. rewrite Hdb, Hps, Hus. repeat split; try done.
    destruct Htr as [-> | ->]; repeat constructor; cbn; tauto.
Qed.

(** X21: a user without a subscription row when the request starts gets
    no push; no UPDATE of the stored expiration is issued or stored for the
    user, the stored expiration is unchanged, and no task is created for
    the user. *)
Theorem X21_user_without_subscription `{GearLoader}
    (env : Env) (req : Request) (db : DB) (sched : list Choice) (userID : Z) :
  getUserSubscriptions db userID = [] ->
  let st := handler env req db sched in
  Forall (fun e => ~ isPushTo userID e /\ ~ isWatermarkOf userID e) (st_trace st)
  /\ getLastNotifiedExpiration (st_db st) userID = getLastNotifiedExpiration db userID
  /\ Forall (fun t => t_userID t <> userID) (st_promises st).
Proof.
  intros Hsubs st.
  destruct (handler_quiet env req db sched userID Hsubs) as (_ & Hl & Htr & Hps & _).
  done.
Qed.

Lemma handler_framed `{GearLoader} env req db sched :
  framed db (handler env req db sched).
Proof.
  destruct (handler_cases env req db sched)
    as [(cy & st0 & Hp & HS & ->)|[_ (Hdb & _ & _ & Htr & _)]].
  - apply (exec_invariant cy (framed db)).
    + intros st st'. apply framed_step.
    + destruct HS as (Hdb & _ & _ & Htr & _). apply framed_initial; [done|by right].
  - by apply framed_initial.
Qed.

(** X22: a request changes neither the filters, nor the pairings, nor
    the ids and codes of the users; the subscriptions it leaves are those
    whose endpoint it has not deleted; and so [getUsersToBeNotified]
    answers after the request as it did before. *)
Theorem X22_request_leaves_the_filters `{GearLoader}
    (env : Env) (req : Request) (db : DB) (sched : list Choice) :
  let st := handler env req db sched in
  filters (st_db st) = filters db
  /\ usersToFilters (st_db st) = usersToFilters db
  /\ (fun r => (u_userid r, u_usercode r)) <$> users (st_db st)
     = (fun r => (u_userid r, u_usercode r)) <$> users db
  /\ subscriptions (st_db st)
     = filter (fun r => deletedEndpoint (endpoint (s_subscription r)) (st_trace st) = false)
         (subscriptions db)
  /\ forall gear, getUsersToBeNotified (st_db st) gear = getUsersToBeNotified db gear.
Proof.
  cbv zeta. destruct (handler_framed env req db sched) as (Hf & Hp & Hu & Hs).
  repeat split; try done. intros gear. by apply getUsersToBeNotified_frame.
Qed.

Lemma handler_pushMatched `{GearLoader} env req db sched cy st0 :
  prepare env req db = (Some cy, st0) ->
  Forall (pushMatched cy db) (st_trace (exec cy sched st0)).
Proof.
  intros Hp. pose proof (prepare_Some env req db cy st0 Hp) as HS.
  assert (HI : framed db (exec cy sched st0) /\ pcNotifications cy (exec cy sched st0)
               /\ Forall (pushMatched cy db) (st_trace (exec cy sched st0))).
  { apply (exec_invariant_step cy
             (fun st => framed db st /\ pcNotifications cy st
                        /\ Forall (pushMatched cy db) (st_trace st))).
    - intros st c (HF & HP & HT). split; [|split].
      + eapply framed_step; [done|apply step_Trans].
      + by apply pcNotifications_step.
      + eapply pushMatched_step; [done..|apply step_Trans].
    - split; [|split].
      + destruct HS as (Hdb & _ & _ & Htr & _). apply framed_initial; [done|by right].
      + destruct (prepare_cycle env req db cy st0 Hp)
          as (? & ? & ? & _ & _ & _ & _ & _ & _ & _ & ->).
        apply nextUser_pcNotifications.
      + destruct HS as (_ & _ & _ & -> & _). by repeat constructor. }
  by destruct HI as (_ & _ & HI).
Qed.

(** X23: every push of a request goes to a subscription that the user
    had when the request started, and is about an item that is new in the
    fetched data and for which the lookup on the database at the start
    returned the user; its TTL is the one computed from the item at some
    time. *)
Theorem X23_push_goes_to_a_matched_user `{GearLoader}
    (env : Env) (req : Request) (db : DB) (sched : list Choice)
    (userID : Z) (ep gearID : string) (ttl : Z) :
  EvPush userID ep gearID ttl ∈ st_trace (handler env req db sched) ->
  exists cy cachedGear fetched fetchedGear sub gear userMap now,
    cycleOf env req db = Some cy
    /\ match fetchCachedRawGearData db with
       | None => Some []
       | Some cachedRawGearData => rawGearDataToGearList cachedRawGearData
       end = Some cachedGear
    /\ apiRawGearData env = Some fetched
    /\ rawGearDataToGearList fetched = Some fetchedGear
    /\ gear ∈ getNewGearItems cachedGear fetchedGear
    /\ (gear, userMap) ∈ gearToUserMap cy
    /\ getUsersToBeNotified db gear = Fulfilled userMap
    /\ userID ∈ userMap.*1
    /\ sub ∈ getUserSubscriptions db userID /\ endpoint sub = ep
    /\ g_id gear = gearID
    /\ ttl = TTL (generateNotificationOptions now gear).
Proof.
  intros Hin.
  destruct (handler_cases env req db sched)
    as [(cy & st0 & Hp & HS & E)|[_ (_ & _ & _ & Htr & _)]].
  - rewrite E in Hin.
    pose proof (handler_pushMatched env req db sched cy st0 Hp) as HM.
    rewrite Forall_forall in HM. specialize (HM _ Hin). cbn in HM.
    destruct HM as [(sub & Hsub & Hep) (gear & now & Hgear & Hid & Httl)].
    apply getUserGear_elem in Hgear as (userMap & Hentry & Hhas).
    destruct (prepare_cycle env req db cy st0 Hp)
      as (cachedGear & fetched & fetchedGear & _ & Hc & _ & Hapi & Hf & Hn & _ & _).
    destruct (getUsersToNotify_Some _ _ _ _ Hn) as (_ & Hall & _).
    rewrite Forall_forall in Hall. destruct (Hall _ Hentry) as [Hnew Hget].
    exists cy, cachedGear, fetched, fetchedGear, sub, gear, userMap, now.
    unfold cycleOf. rewrite Hp. repeat split; try done.
    by apply JsMap_has_true.
  - destruct Htr as [Htr|Htr]; rewrite Htr in Hin.
    + by apply elem_of_nil in Hin.
    + by apply list_elem_of_singleton in Hin.
Qed.

(** *** Before the loop *)

Lemma authenticated_spec (secretKey providedKey : option string) :
  authenticated secretKey providedKey = true
  <-> secretKey = None \/ secretKey = Some ""%string \/ secretKey = providedKey.
Proof.
  unfold authenticated. destruct secretKey as [[|c key]|].
  - split; [by right; left|done].
  - rewrite bool_decide_eq_true. split.
    + intros ->. by right; right.
    + intros [?|[?|?]]; done.
  - split; [by left|done].
Qed.

Lemma Trans_not_401 cy st st' :
  st_pc st <> Responded 401 -> Trans cy st st' -> st_pc st' <> Responded 401.
Proof.
  intros Hpc T.
  assert (HN : forall rest, NextPc cy rest (st_pc st') -> st_pc st' <> Responded 401).
  { intros rest [[_ ->]|[->|(u & code & ns & l & rest' & _ & -> & _)]]; done. }
  destruct T; try (subst; done); try (by eapply HN); try (by rewrite Hpc'); congruence.
Qed.

(** X24: the request is answered 401 exactly when the authentication
    fails, and then nothing is fetched and the database is unchanged.
    The authentication succeeds exactly when no secret is configured, the
    secret is empty, or the header equals the secret. *)
Theorem X24_authentication `{GearLoader}
    (env : Env) (req : Request) (db : DB) (sched : list Choice) :
  let st := handler env req db sched in
  (status st = Some 401
   <-> authenticated (ACTION_SECRET env) (authorization req) = false)
  /\ (status st = Some 401 -> st_trace st = [] /\ st_db st = db)
  /\ (authenticated (ACTION_SECRET env) (authorization req) = true
      <-> ACTION_SECRET env = None \/ ACTION_SECRET env = Some ""%string
          \/ ACTION_SECRET env = authorization req).
Proof.
  cbv zeta. split; [|split; [|apply authenticated_spec]].
  - split.
    + intros Hst.
      destruct (authenticated _ _) eqn:Ha; [exfalso|done].
      destruct (handler_cases env req db sched)
        as [(cy & st0 & Hp & HS & E)|[Hp _]].
      * rewrite E in Hst.
        assert (Hpc : st_pc (exec cy sched st0) <> Responded 401).
        { apply (exec_invariant cy (fun st => st_pc st <> Responded 401)).
          - intros st st'. apply Trans_not_401.
          - destruct HS as (_ & _ & _ & _ & Hpc).
            destruct Hpc as [[_ ->]|[->|(u & code & ns & l & rest' & _ & -> & _)]]; done. }
        unfold status in Hst. destruct (st_pc (exec cy sched st0)); congruence.
      * revert Hp Hst. generalize (handler env req db sched). intros st.
        unfold prepare. rewrite Ha. cbn [negb].
        repeat case_match; intros [= <-]; done.
    + intros Ha. by apply (unauthenticated_401 env req db sched).
  - intros Hst.
    destruct (authenticated (ACTION_SECRET env) (authorization req)) eqn:Ha.
    + exfalso. revert Hst. unfold handler.
      destruct (prepare env req db) as [[cy|] st0] eqn:Hp.
      * intros Hst.
        assert (Hpc : st_pc (exec cy sched st0) <> Responded 401).
        { apply (exec_invariant cy (fun st => st_pc st <> Responded 401)).
          - intros st st'. apply Trans_not_401.
          - destruct (prepare_Some env req db cy st0 Hp) as (_ & _ & _ & _ & Hpc).
            destruct Hpc as [[_ ->]|[->|(u & code & ns & l & rest' & _ & -> & _)]]; done. }
        unfold status in Hst. destruct (st_pc (exec cy sched st0)); congruence.
      * revert Hp. unfold prepare. rewrite Ha. cbn [negb].
        repeat case_match; intros [= <-]; done.
    + by destruct (unauthenticated_401 env req db sched Ha) as (_ & ? & ?).
Qed.

(** X25: when the lookup of one new item rejects, the request never
    answers: on every schedule it has fetched the data and has no status,
    no task exists and the database is unchanged.  Stated for the items
    that the database is sure to refuse ([refusalCertain]): a name outside
    the allow-list, or type, brand and ability that are spliced as words,
    one of which has no column. *)
Theorem X25_rejected_lookup_never_answers `{GearLoader}
    (env : Env) (req : Request) (db : DB) (sched : list Choice)
    (cachedGear fetchedGear : list Gear) (fetched : RawGearData)
    (gear : Gear) (e : Error) :
  authenticated (ACTION_SECRET env) (authorization req) = true ->
  match fetchCachedRawGearData db with
  | None => Some []
  | Some cachedRawGearData => rawGearDataToGearList cachedRawGearData
  end = Some cachedGear ->
  cacheNotExpired (nowCheck env) cachedGear = false ->
  apiRawGearData env = Some fetched ->
  rawGearDataToGearList fetched = Some fetchedGear ->
  gear ∈ getNewGearItems cachedGear fetchedGear ->
  refusalCertain gear ->
  getUsersToBeNotified db gear = Rejected e ->
  let st := handler env req db sched in
  status st = None /\ st_trace st = [EvFetchAPI] /\ st_db st = db
  /\ st_promises st = [].
Proof.
  intros Hauth Hc Hexp Hapi Hf Hin _ Hrej. cbv zeta. unfold handler, prepare.
  rewrite Hauth. cbn [negb]. rewrite Hc, Hexp, Hapi, Hf.
  by rewrite (getUsersToNotify_rejected db _ (latency env) gear e Hin Hrej).
Qed.

(** What fails before the loop is caught: the answer is 500, nothing is
    written, and the API was asked only when the cached data could be
    read. *)
Lemma handler_failure_before_the_loop `{GearLoader}
    (env : Env) (req : Request) (db : DB) (sched : list Choice) :
  authenticated (ACTION_SECRET env) (authorization req) = true ->
  let st := handler env req db sched in
  (forall raw, fetchCachedRawGearData db = Some raw -> rawGearDataToGearList raw = None ->
     status st = Some 500 /\ st_trace st = [] /\ st_db st = db)
  /\ (forall cachedGear,
        match fetchCachedRawGearData db with
        | None => Some []
        | Some cachedRawGearData => rawGearDataToGearList cachedRawGearData
        end = Some cachedGear ->
        cacheNotExpired (nowCheck env) cachedGear = false ->
        apiRawGearData env = None
        \/ (exists fetched, apiRawGearData env = Some fetched
                            /\ rawGearDataToGearList fetched = None) ->
        status st = Some 500 /\ st_trace st = [EvFetchAPI] /\ st_db st = db).
Proof.
  intros Hauth. cbv zeta. unfold handler, prepare. rewrite Hauth. cbn [negb]. split.
  - intros raw Hraw Hnone. by rewrite Hraw, Hnone.
  - intros cachedGear Hc Hexp Hfail. rewrite Hc, Hexp.
    destruct Hfail as [->|(fetched & -> & ->)]; done.
Qed.

Lemma getUsersToNotify_nil db latency : getUsersToNotify db [] latency = Some [].
Proof. reflexivity. Qed.

(** X27: when the fetched data has no new item, no push is ever sent, and
    the handler, resumed, with the write of the cache performed and
    resumed again, has stored the fetched data in the cache and answers
    200. *)
Theorem X27_nothing_new `{GearLoader}
    (env : Env) (req : Request) (db : DB)
    (cachedGear fetchedGear : list Gear) (fetched : RawGearData) :
  authenticated (ACTION_SECRET env) (authorization req) = true ->
  match fetchCachedRawGearData db with
  | None => Some []
  | Some cachedRawGearData => rawGearDataToGearList cachedRawGearData
  end = Some cachedGear ->
  cacheNotExpired (nowCheck env) cachedGear = false ->
  apiRawGearData env = Some fetched ->
  rawGearDataToGearList fetched = Some fetchedGear ->
  getNewGearItems cachedGear fetchedGear = [] ->
  (forall sched userID,
     Forall (fun e => ~ isPushTo userID e) (st_trace (handler env req db sched)))
  /\ forall now1 now2,
       let st := handler env req db [Main now1; DbCaches; Main now2] in
       status st = Some 200
       /\ st_trace st = [EvFetchAPI; EvSnapshotIssued; EvSnapshotStored]
       /\ st_db st = updateCachedRawGearData db fetched.
Proof.
  intros Hauth Hc Hexp Hapi Hf Hnew.
  assert (Hp : prepare env req db
               = (Some {| gearToUserMap := []; fetchedRawGearData := fetched |},
                  setPc AwaitAll (logEvents [EvFetchAPI] (initial db)))).
  { unfold prepare. rewrite Hauth. cbn [negb].
    by rewrite Hc, Hexp, Hapi, Hf, Hnew, getUsersToNotify_nil. }
  split.
  - intros sched userID. unfold handler. rewrite Hp.
    pose proof (handler_pushMatched env req db sched _ _ Hp) as HM.
    eapply Forall_impl; [exact HM|]. intros [] HM' Hpush; try done.
    cbn in HM'. destruct HM' as [_ (gear & now & Hgear & _)].
    by apply elem_of_nil in Hgear.
  - intros now1 now2. cbv zeta. unfold handler. rewrite Hp. done.
Qed.

(** ** More about the matcher *)

Lemma matchingFilter_rarity (gear gear' : Gear) (row : FilterRow) :
  g_name gear' = g_name gear -> g_type gear' = g_type gear ->
  g_brand gear' = g_brand gear -> g_ability gear' = g_ability gear ->
  g_rarity gear <= g_rarity gear' ->
  matchingFilter gear row = true -> matchingFilter gear' row = true.
Proof.
  intros Hn Ht Hb Ha Hr. unfold matchingFilter. rewrite Hn, Ht, Hb, Ha.
  rewrite !andb_true_iff, !Z.leb_le. intros ((((H1 & H2) & H3) & H4) & H5).
  repeat split; try done. lia.
Qed.

(** X28: a gear item that differs from another one by a rarity at least
    as high (and possibly by id, expiration and image) is matched for at
    least the same users. *)
Theorem X28_rarer_gear_reaches_more_users (db : DB) (gear gear' : Gear)
    (userMap : JsMap.t string) :
  g_name gear' = g_name gear -> g_type gear' = g_type gear ->
  g_brand gear' = g_brand gear -> g_ability gear' = g_ability gear ->
  g_rarity gear <= g_rarity gear' ->
  getUsersToBeNotified db gear = Fulfilled userMap ->
  exists userMap',
    getUsersToBeNotified db gear' = Fulfilled userMap'
    /\ userMap.*1 ⊆ userMap'.*1.
Proof.
  intros Hn Ht Hb Ha Hr Hget.
  assert (Hname : allowedCharsPattern (g_name gear) = true).
  { unfold getUsersToBeNotified in Hget.
    by destruct (allowedCharsPattern (g_name gear)). }
  assert (Hq : queryWellFormed gear = true).
  { unfold getUsersToBeNotified in Hget. rewrite Hname in Hget. cbn [negb] in Hget.
    by destruct (queryWellFormed gear). }
  assert (Hq' : queryWellFormed gear' = true).
  { unfold queryWellFormed in *. by rewrite Ht, Hb, Ha. }
  destruct (getUsersToBeNotified_keys db gear Hname Hq) as (m & Hm & Hkeys).
  rewrite Hget in Hm. injection Hm as <-.
  destruct (getUsersToBeNotified_keys db gear') as (m' & Hm' & Hkeys');
    [by rewrite Hn|done|].
  exists m'. split; [done|]. intros u Hu.
  apply Hkeys in Hu as (Hrow & fid & frow & Hp & Hf & Hmatch).
  apply Hkeys'. split; [done|]. exists fid, frow. repeat split; try done.
  by eapply matchingFilter_rarity.
Qed.

Lemma JsMap_set_elem {V} (k : Z) (v : V) (m : JsMap.t V) (e : Z * V) :
  e ∈ JsMap.set k v m -> e = (k, v) \/ e ∈ m.
Proof.
  induction m as [|[k' v'] m IH]; cbn [JsMap.set].
  - intros ->%list_elem_of_singleton. by left.
  - destruct (decide (k = k')) as [->|Hne].
    + intros [->|Hin]%elem_of_cons; [by left|right; by right].
    + intros [->|Hin]%elem_of_cons; [right; left|].
      destruct (IH Hin) as [->|Hm]; [by left|right; by right].
Qed.

Lemma JsMap_fold_set_elem (rows : list UserRow) (m : JsMap.t string) (e : Z * string) :
  e ∈ foldl (fun m r => JsMap.set (u_userid r) (u_usercode r) m) m rows ->
  e ∈ m \/ exists r, r ∈ rows /\ e = (u_userid r, u_usercode r).
Proof.
  revert m. induction rows as [|r rows IH]; intros m; cbn [foldl]; [by left|].
  intros [Hin|(r' & Hr' & ->)]%IH.
  - apply JsMap_set_elem in Hin as [->|Hin]; [|by left].
    right. exists r. split; [left|done].
  - right. exists r'. split; [by right|done].
Qed.

Lemma JsMap_fold_set_NoDup (rows : list UserRow) (m : JsMap.t string) :
  NoDup m.*1 ->
  NoDup (foldl (fun m r => JsMap.set (u_userid r) (u_usercode r) m) m rows).*1.
Proof.
  revert m. induction rows as [|r rows IH]; intros m Hm; cbn [foldl]; [done|].
  apply IH. by apply JsMap_set_NoDup.
Qed.

Lemma getUsersToBeNotified_rows (db : DB) (gear : Gear) (userMap : JsMap.t string) :
  getUsersToBeNotified db gear = Fulfilled userMap ->
  NoDup userMap.*1
  /\ forall userID userCode,
       (userID, userCode) ∈ userMap ->
       exists row, row ∈ users db /\ u_userid row = userID /\ u_usercode row = userCode.
Proof.
  unfold getUsersToBeNotified.
  destruct (negb (allowedCharsPattern (g_name gear))); [done|].
  destruct (negb (queryWellFormed gear)); [done|]. cbv zeta.
  intros [= <-]. split.
  - apply JsMap_fold_set_NoDup. constructor.
  - intros userID userCode [Hin|(r & Hr & E)]%JsMap_fold_set_elem.
    + by apply elem_of_nil in Hin.
    + injection E as -> ->. exists r. split; [|done].
      apply (proj1 (sortByUserid_elem _ _)) in Hr.
      by apply list_elem_of_filter in Hr as [_ Hr].
Qed.

(** ** What a task sends *)

Lemma sendData_insert (sends : list Send) (i : nat) (s : Send) (ph : SendPhase) :
  sends !! i = Some s ->
  sendData <$> <[i := withPhase s ph]> sends = sendData <$> sends.
Proof. intros Hi. by apply (fmap_insert_same sendData _ i s). Qed.

Lemma sendData_startSends subs ns :
  sendData <$> startSends subs ns
  = subs ≫= (fun sub => (fun n => (sub, n.1, n.2)) <$> ns).
Proof.
  unfold startSends. induction subs as [|sub subs IH]; [done|].
  cbn [mbind list_bind]. rewrite fmap_app, IH. f_equal.
  rewrite <- list_fmap_compose. done.
Qed.

Lemma taskShape_step cy db0 c st :
  framed db0 st -> pcNotifications cy st -> coherent cy st ->
  Forall (taskShape cy db0) (st_promises st) ->
  Forall (taskShape cy db0) (st_promises (step cy c st)).
Proof.
  intros HF HP HC Hps0.
  pose proof (step_Trans cy c st) as T.
  destruct T as [->|u' ns l rest Hpc Hpc' Hdb Hps Hus Htr|u' ns l rest Hpc Hlt Hpc' Hdb Hps Hus Htr
                |u' ns l rest sends t' us Hpc Hsends Hsettle Hpc' Hdb Hps Hus Htr
                |Hpc Hex Hpc' Hdb Hps Hus Htr|Hpc Hall Hpc' Hdb Hps Hus Htr
                |Hpc Hpc' Hdb Hps Hus Htr|Hpc Hpc' Hdb Hps Hus Htr
                |j i t s ph t' us Hj Hi Hph Hsettle Hpc' Hps Hus Htr
                |k u' x Hk Hpc' Hdb Hps Hus Htr]; try (by rewrite Hps); try done.
  - rewrite Hps. apply Forall_app. split; [done|]. constructor; [|constructor].
    destruct (step_task_started cy c st t' Hps) as (u2 & ns2 & l2 & rest2 & Hpc2 & Hne).
    assert (u2 = u') by congruence. subst u2.
    unfold pcNotifications in HP. rewrite Hpc in HP. destruct HP as (now & code & Hns).
    unfold coherent in HC. rewrite Hpc in HC.
    pose proof (settle_sends _ _ _ Hsettle) as Hsd.
    apply settle_updates in Hsettle as (Hid & Hl & _).
    cbn [t_userID t_latestExpiration t_sends] in *.
    exists (getUserSubscriptions (st_db st) u'), now, code.
    rewrite Hid, Hl, Hsd. split; [done|]. split; [|split; [|done]].
    + intros sub Hsub. by eapply subscriptions_kept.
    + rewrite Hsends, sendData_startSends, Hns.
      apply list_bind_ext; [|done]. intros sub.
      by rewrite <- list_fmap_compose.
  - rewrite Hps. apply Forall_insert; [done|].
    rewrite Forall_forall in Hps0.
    assert (Ht : taskShape cy db0 t) by (apply Hps0; by eapply list_elem_of_lookup_2).
    destruct Ht as (subs & now & code & Hne & Hsub & Hdata & Hlatest).
    pose proof (settle_sends _ _ _ Hsettle) as Hsd.
    apply settle_updates in Hsettle as (Hid & Hl & _).
    cbn [t_userID t_latestExpiration t_sends withSends] in *.
    exists subs, now, code. rewrite Hid, Hl, Hsd.
    by rewrite sendData_insert.
Qed.

Lemma handler_taskShape `{GearLoader} env req db sched cy st0 :
  prepare env req db = (Some cy, st0) ->
  Forall (taskShape cy db) (st_promises (exec cy sched st0)).
Proof.
  intros Hp. pose proof (prepare_Some env req db cy st0 Hp) as HS.
  assert (HI : framed db (exec cy sched st0) /\ pcNotifications cy (exec cy sched st0)
               /\ coherent cy (exec cy sched st0)
               /\ Forall (taskShape cy db) (st_promises (exec cy sched st0))).
  { apply (exec_invariant_step cy
             (fun st => framed db st /\ pcNotifications cy st /\ coherent cy st
                        /\ Forall (taskShape cy db) (st_promises st))).
    - intros st c (HF & HP & HC & HT). split; [|split; [|split]].
      + eapply framed_step; [done|apply step_Trans].
      + by apply pcNotifications_step.
      + eapply coherent_step; [done|apply step_Trans].
      + by apply taskShape_step.
    - split; [|split; [|split]].
      + destruct HS as (Hdb & _ & _ & Htr & _). apply framed_initial; [done|by right].
      + destruct (prepare_cycle env req db cy st0 Hp)
          as (? & ? & ? & _ & _ & _ & _ & _ & _ & _ & ->).
        apply nextUser_pcNotifications.
      + by eapply Start_coherent.
      + destruct HS as (_ & -> & _). constructor. }
  by destruct HI as (_ & _ & _ & HI).
Qed.

(** X30: every task of a request carries, for a non-empty list of
    subscriptions that the user had when the request started, one send per
    subscription and per item matched for the user, with the payload and
    the options of that item; the expiration kept with the task is that of
    the last item matched for the user. *)
Theorem X30_task_sends_every_item_to_every_subscription `{GearLoader}
    (env : Env) (req : Request) (db : DB) (sched : list Choice) (t : Task) :
  t ∈ st_promises (handler env req db sched) ->
  exists cy subs now userCode,
    cycleOf env req db = Some cy
    /\ subs <> []
    /\ subs ⊆ getUserSubscriptions db (t_userID t)
    /\ sendData <$> t_sends t
       = subs ≫= (fun sub =>
           (fun gear => (sub, generateNotificationPayload userCode gear,
                         generateNotificationOptions now gear))
             <$> getUserGear (gearToUserMap cy) (t_userID t))
    /\ latestExpiration cy (t_userID t) = Some (t_latestExpiration t).
Proof.
  intros Hin.
  destruct (handler_cases env req db sched)
    as [(cy & st0 & Hp & HS & E)|[_ (_ & Hps & _)]].
  - rewrite E in Hin.
    pose proof (handler_taskShape env req db sched cy st0 Hp) as HT.
    rewrite Forall_forall in HT.
    destruct (HT t Hin) as (subs & now & code & Hshape).
    exists cy, subs, now, code. split; [|done]. unfold cycleOf. by rewrite Hp.
  - rewrite Hps in Hin. by apply elem_of_nil in Hin.
Qed.

(** ** The expiration that ends up in the database *)

Lemma taskUsers_shrink cy st st' :
  Trans cy st st' -> taskUsers st' ⊆+ taskUsers st.
Proof.
  unfold taskUsers. intros T. destruct T.
  - by subst.
  - rewrite Hps. apply submseteq_skips_l.
    apply waiting_NextPc in Hpc'.
    destruct Hpc as [[-> _]|[-> _]]; cbn [waiting]; by apply submseteq_cons.
  - by rewrite Hps, Hpc', Hpc.
  - rewrite Hps, Hpc. cbn [waiting].
    apply settle_updates in Hsettle as (Hu & _ & _). cbn [t_userID] in Hu.
    rewrite fmap_app. cbn [fmap list_fmap]. rewrite Hu, <- app_assoc. cbn [app].
    apply submseteq_skips_l, submseteq_skip. by apply waiting_NextPc in Hpc'.
  - by rewrite Hps, Hpc', Hpc.
  - by rewrite Hps, Hpc', Hpc.
  - by rewrite Hps, Hpc', Hpc.
  - by rewrite Hps, Hpc', Hpc.
  - rewrite Hps, Hpc'.
    apply settle_updates in Hsettle as (Hu & _ & _). cbn [t_userID withSends] in Hu.
    by rewrite (fmap_insert_same t_userID _ j t t').
  - by rewrite Hps, Hpc'.
Qed.

Lemma hasUser_step cy st st' u :
  Trans cy st st' -> hasUser (st_db st') u = hasUser (st_db st) u.
Proof.
  intros T. unfold hasUser.
  destruct (Trans_db cy st st' T) as [E|[[sub E]|[(v & x & _ & E)|E]]]; rewrite E; try done.
  by rewrite userids_update.
Qed.

Lemma updates_key_unique (us : list (Z * Z)) (u x y : Z) :
  NoDup us.*1 -> (u, x) ∈ us -> (u, y) ∈ us -> x = y.
Proof.
  intros Hnd [i Hi]%list_elem_of_lookup_1 [j Hj]%list_elem_of_lookup_1.
  assert (i = j).
  { eapply NoDup_lookup; [exact Hnd| |]; by rewrite list_lookup_fmap, ?Hi, ?Hj. }
  subst j. congruence.
Qed.

Lemma delete_other_elem {A} (l : list A) (k : nat) (a b : A) :
  l !! k = Some a -> b ∈ l -> b <> a -> b ∈ delete k l.
Proof.
  intros Hk [i Hi]%list_elem_of_lookup_1 Hne.
  assert (i <> k) by (intros ->; congruence).
  destruct (decide (i < k)%nat).
  - apply list_elem_of_lookup_2 with i. by rewrite list_lookup_delete_lt.
  - apply list_elem_of_lookup_2 with (pred i).
    rewrite list_lookup_delete_ge by lia. replace (S (pred i)) with i by lia. done.
Qed.

Lemma fmap_delete_notin (us : list (Z * Z)) (k : nat) (u x : Z) :
  NoDup us.*1 -> us !! k = Some (u, x) -> u ∉ (delete k us).*1.
Proof.
  intros Hnd Hk. rewrite list_fmap_delete.
  apply NoDup_delete_lookup; [done|]. by rewrite list_lookup_fmap, Hk.
Qed.

Lemma written_step cy st st' :
  fresh st -> NoDup (taskUsers st) ->
  Forall (fun u => hasUser (st_db st) u = true) (taskUsers st) ->
  Forall (fun t => t_state t = Resolved -> written st t) (st_promises st) ->
  Trans cy st st' ->
  Forall (fun t => t_state t = Resolved -> written st' t) (st_promises st').
Proof.
  intros (Htick & _) Hnd Hrows Hw T.
  assert (Hkeep : st_updates st' = st_updates st ->
                  (forall u, getLastNotifiedExpiration (st_db st') u
                             = getLastNotifiedExpiration (st_db st) u) ->
                  forall t, written st t -> written st' t).
  { intros Hus Hg t. unfold written. by rewrite Hus, Hg. }
  destruct T.
  - by subst.
  - rewrite Hps. eapply Forall_impl; [exact Hw|]. intros t Ht Hst.
    apply Hkeep; [done|by intros; rewrite Hdb|by apply Ht].
  - rewrite Hps. eapply Forall_impl; [exact Hw|]. intros t Ht Hst.
    apply Hkeep; [done|by intros; rewrite Hdb|by apply Ht].
  - (* the sends of a user start *)
    pose proof (settle_resolves _ _ _ u Hsettle) as Hres.
    pose proof (settle_updates _ _ _ Hsettle) as (Hid & Hl & Hus').
    cbn [t_userID t_latestExpiration] in Hid, Hl.
    rewrite Hps. apply Forall_app. split.
    + apply Forall_forall. intros t Hin Hst.
      rewrite Forall_forall in Hw. specialize (Hw t Hin Hst).
      assert (Hne : t_userID t <> u).
      { unfold taskUsers in Hnd. rewrite Hpc in Hnd. cbn [waiting] in Hnd.
        apply NoDup_app in Hnd as (_ & Hdisj & _). intros E.
        apply (Hdisj u); [rewrite <- E; by apply list_elem_of_fmap_2|left]. }
      unfold written in *. rewrite Hus, Hdb, fmap_app, !elem_of_app.
      destruct Hw as [Hw|[Hw1 Hw2]]; [by left; left|]. right. split; [|done].
      intros [?|Hin']; [done|].
      destruct Hus' as [-> | ->]; [by apply elem_of_nil in Hin'|].
      cbn in Hin'. apply list_elem_of_singleton in Hin'. done.
    + constructor; [|constructor]. intros Hst. left. rewrite Hus.
      apply elem_of_app. right.
      destruct (settle_spec {| t_userID := u; t_latestExpiration := l;
                               t_sends := sends; t_state := Pending |})
        as (t'' & us'' & Hs' & _ & _ & _ & Hcase).
      rewrite Hsettle in Hs'. injection Hs' as <- <-.
      destruct Hcase as [(_ & [E|[_ E]])|(-> & _)]; cbn [t_state] in *; try congruence.
      rewrite Hid, Hl. left.
  - rewrite Hps. eapply Forall_impl; [exact Hw|]. intros t Ht Hst.
    apply Hkeep; [done|by intros; rewrite Hdb|by apply Ht].
  - rewrite Hps. eapply Forall_impl; [exact Hw|]. intros t Ht Hst.
    apply Hkeep; [done|by intros; rewrite Hdb|by apply Ht].
  - rewrite Hps. eapply Forall_impl; [exact Hw|]. intros t Ht Hst.
    apply Hkeep; [done|by intros; rewrite Hdb|by apply Ht].
  - rewrite Hps. eapply Forall_impl; [exact Hw|]. intros t Ht Hst.
    apply Hkeep; [done|by intros; rewrite Hdb|by apply Ht].
  - (* a send moves on *)
    assert (Hg : forall v, getLastNotifiedExpiration (st_db st') v
                           = getLastNotifiedExpiration (st_db st) v).
    { intros v. destruct Hph as [(_ & _ & ->)|(_ & _ & ->)]; done. }
    pose proof (settle_updates _ _ _ Hsettle) as (Hid & Hl & Hus').
    cbn [t_userID t_latestExpiration withSends] in Hid, Hl.
    rewrite Hps. apply Forall_forall. intros t2 Hin Hst.
    apply list_elem_of_lookup_1 in Hin as [j2 Hj2].
    destruct (decide (j2 = j)) as [->|Hne].
    + rewrite list_lookup_insert_eq in Hj2 by by eapply lookup_lt_Some.
      injection Hj2 as <-.
      destruct (settle_spec (withSends t (<[i:=withPhase s ph]> (t_sends t))))
        as (t'' & us'' & Hs' & _ & _ & _ & Hcase).
      rewrite Hsettle in Hs'. injection Hs' as <- <-.
      cbn [t_state t_userID t_latestExpiration withSends] in Hcase.
      destruct Hcase as [(-> & [E|[_ E]])|(-> & _)]; try congruence.
      * rewrite Forall_forall in Hw.
        assert (Hwt : written st t).
        { apply Hw; [by eapply list_elem_of_lookup_2|congruence]. }
        unfold written in *. rewrite Hus, app_nil_r, Hg, Hid, Hl. done.
      * left. rewrite Hus, Hid, Hl. apply elem_of_app. right. left.
    + rewrite list_lookup_insert_ne in Hj2 by done.
      rewrite Forall_forall in Hw.
      assert (Hwt : written st t2).
      { apply Hw; [by eapply list_elem_of_lookup_2|done]. }
      assert (Hne' : t_userID t2 <> t_userID t).
      { intros E. apply Hne.
        unfold taskUsers in Hnd. apply NoDup_app in Hnd as (Hnd & _).
        eapply NoDup_lookup; [exact Hnd| |]; rewrite list_lookup_fmap.
        - by rewrite Hj2.
        - rewrite Hj. cbn. by rewrite E. }
      unfold written in *. rewrite Hus, Hg, fmap_app, !elem_of_app.
      destruct Hwt as [Hwt|[Hw1 Hw2]]; [by left; left|]. right. split; [|done].
      intros [?|Hin']; [done|].
      destruct Hus' as [-> | ->]; [by apply elem_of_nil in Hin'|].
      cbn in Hin'. apply list_elem_of_singleton in Hin'. done.
  - (* an UPDATE is performed *)
    assert (Hndu : NoDup (st_updates st).*1).
    { unfold tickets in Htick. by apply NoDup_app in Htick as (Htick & _). }
    assert (Hin : (u, x) ∈ st_updates st) by by eapply list_elem_of_lookup_2.
    rewrite Hps. apply Forall_forall. intros t Ht Hst.
    rewrite Forall_forall in Hw. specialize (Hw t Ht Hst).
    unfold written in *. rewrite Hus, Hdb.
    destruct Hw as [Hw|[Hw1 Hw2]].
    + destruct (decide (t_userID t = u)) as [E|Hne].
      * right. rewrite E in *.
        assert (t_latestExpiration t = x) by by eapply updates_key_unique.
        subst x. split; [by eapply fmap_delete_notin|].
        apply getLast_update_hasUser.
        rewrite Forall_forall in Hrows. apply Hrows.
        unfold taskUsers. apply elem_of_app. left. rewrite <- E.
        by apply list_elem_of_fmap_2.
      * left. eapply delete_other_elem; [done..|]. congruence.
    + right. assert (Hne : t_userID t <> u).
      { intros E. apply Hw1. rewrite E. by apply (list_elem_of_fmap_2 fst) in Hin. }
      rewrite getLast_update_other by done. split; [|done].
      intros (w & E & Hw')%list_elem_of_fmap. apply Hw1.
      apply list_elem_of_fmap. exists w. split; [done|].
      by eapply list_elem_of_delete_inv.
Qed.

(** The users that the loop is to deal with have a row. *)
Lemma aggregateUsers_rows `{GearLoader} env req db cy st0 u :
  prepare env req db = (Some cy, st0) ->
  u ∈ (aggregateUsers (gearToUserMap cy)).*1 -> hasUser db u = true.
Proof.
  intros Hp Hu.
  destruct (prepare_cycle env req db cy st0 Hp)
    as (cachedGear & fetched & fetchedGear & _ & _ & _ & _ & _ & Hn & _ & _).
  apply aggregateUsers_keys in Hu as (gear & userMap & Hentry & Hhas).
  destruct (getUsersToNotify_Some _ _ _ _ Hn) as (_ & Hall & _).
  rewrite Forall_forall in Hall. destruct (Hall _ Hentry) as [_ Hget].
  apply JsMap_has_true, list_elem_of_fmap in Hhas as ([u' code] & -> & Hin).
  destruct (getUsersToBeNotified_rows _ _ _ Hget) as [_ Hrows].
  destruct (Hrows _ _ Hin) as (row & Hrow & Hid & _).
  unfold hasUser. apply bool_decide_eq_true. cbn. rewrite <- Hid.
  by apply list_elem_of_fmap_2.
Qed.

Lemma handler_written `{GearLoader} env req db sched :
  Forall (fun t => t_state t = Resolved -> written (handler env req db sched) t)
    (st_promises (handler env req db sched)).
Proof.
  destruct (handler_cases env req db sched)
    as [(cy & st0 & Hp & HS & ->)|[_ (_ & Hps & _)]]; [|rewrite Hps; constructor].
  assert (HI : fresh (exec cy sched st0) /\ NoDup (taskUsers (exec cy sched st0))
               /\ Forall (fun u => hasUser (st_db (exec cy sched st0)) u = true)
                    (taskUsers (exec cy sched st0))
               /\ Forall (fun t => t_state t = Resolved -> written (exec cy sched st0) t)
                    (st_promises (exec cy sched st0))).
  { apply (exec_invariant cy
             (fun st => fresh st /\ NoDup (taskUsers st)
                        /\ Forall (fun u => hasUser (st_db st) u = true) (taskUsers st)
                        /\ Forall (fun t => t_state t = Resolved -> written st t)
                             (st_promises st))).
    - intros st st' (HF & HN & HR & HW) T. split; [|split; [|split]].
      + by eapply fresh_step.
      + by eapply taskUsers_step.
      + apply Forall_forall. intros u Hu. rewrite (hasUser_step cy st st' u T).
        rewrite Forall_forall in HR. apply HR.
        eapply elem_of_submseteq; [exact Hu|]. by eapply taskUsers_shrink.
      + by eapply written_step.
    - split; [by eapply Start_fresh|]. split; [by eapply Start_taskUsers|].
      destruct HS as (Hdb & Hps & _ & _ & Hpc). split; [|rewrite Hps; constructor].
      unfold taskUsers. rewrite Hps, Hdb. cbn [fmap list_fmap app].
      apply Forall_forall. intros u Hu.
      eapply (aggregateUsers_rows env req db cy st0); [done|].
      eapply elem_of_submseteq; [exact Hu|]. by eapply waiting_NextPc. }
  by destruct HI as (_ & _ & _ & HI).
Qed.

(** X26: once the task of a user has resolved, the UPDATE of the user's
    stored expiration is in flight or the stored expiration is the one kept
    with the task; so when the request has answered 200 and no UPDATE is in
    flight, the stored expiration of every user with a task is the one of
    the task. *)
Theorem X26_resolved_task_writes_its_expiration `{GearLoader}
    (env : Env) (req : Request) (db : DB) (sched : list Choice) :
  let st := handler env req db sched in
  (forall t, t ∈ st_promises st -> t_state t = Resolved ->
     (t_userID t, t_latestExpiration t) ∈ st_updates st
     \/ getLastNotifiedExpiration (st_db st) (t_userID t) = t_latestExpiration t)
  /\ (status st = Some 200 -> st_updates st = [] ->
      forall t, t ∈ st_promises st ->
        getLastNotifiedExpiration (st_db st) (t_userID t) = t_latestExpiration t).
Proof.
  cbv zeta. pose proof (handler_written env req db sched) as HW.
  rewrite Forall_forall in HW. split.
  - intros t Hin Hst. destruct (HW t Hin Hst) as [Hw|[_ Hw]]; [by left|by right].
  - intros H200 Hus t Hin.
    destruct (handler_settled env req db sched) as [Hall _].
    apply status_200 in H200.
    assert (Hst : t_state t = Resolved).
    { specialize (Hall (or_intror (or_intror H200))). rewrite Forall_forall in Hall. by apply Hall. }
    destruct (HW t Hin Hst) as [Hw|[_ Hw]]; [|done].
    rewrite Hus in Hw. by apply elem_of_nil in Hw.
Qed.

(** ** The request after a request that failed *)

Lemma getUsersToNotify_frame (db db' : DB) (newGear : list Gear) (latency : nat -> nat) :
  (forall gear, getUsersToBeNotified db' gear = getUsersToBeNotified db gear) ->
  getUsersToNotify db' newGear latency = getUsersToNotify db newGear latency.
Proof.
  intros Hget. unfold getUsersToNotify. cbv zeta. do 2 f_equal.
  apply imap_ext. intros i gear _. by rewrite Hget.
Qed.

(** What [prepare] reads of the database: the cache entry and the answers
    of the matcher. *)
Lemma cycleOf_frame `{GearLoader} (env : Env) (req : Request) (db db' : DB) :
  serverCache db' = serverCache db ->
  (forall gear, getUsersToBeNotified db' gear = getUsersToBeNotified db gear) ->
  cycleOf env req db' = cycleOf env req db.
Proof.
  intros Hc Hget. unfold cycleOf, prepare, fetchCachedRawGearData. rewrite Hc.
  destruct (negb (authenticated _ _)); [done|].
  destruct (match serverCache db with
            | Some raw => rawGearDataToGearList raw
            | None => Some []
            end) as [cachedGear|]; [|done].
  destruct (cacheNotExpired _ _); [done|].
  destruct (apiRawGearData env) as [fetched|]; [|done].
  destruct (rawGearDataToGearList fetched) as [fetchedGear|]; [|done].
  rewrite (getUsersToNotify_frame db db') by done.
  by destruct (getUsersToNotify db _ _).
Qed.


(** ** A request that is served *)

Lemma exec_app cy sched1 sched2 st :
  exec cy (sched1 ++ sched2) st = exec cy sched2 (exec cy sched1 st).
Proof. unfold exec. by rewrite foldl_app. Qed.

Lemma exec_cons cy c sched st :
  exec cy (c :: sched) st = exec cy sched (step cy c st).
Proof. reflexivity. Qed.

(** *** The loop reaches its end *)

Lemma startSends_AwaitPush subs ns :
  Forall (fun s => sd_phase s = AwaitPush) (startSends subs ns).
Proof.
  apply Forall_forall. intros s (sub & Hs & _)%list_elem_of_bind.
  by apply list_elem_of_fmap in Hs as (n & -> & _).
Qed.

Lemma existsb_isThrew_false (sends : list Send) :
  Forall (fun s => sd_phase s = AwaitPush \/ sd_phase s = Returned true) sends ->
  existsb isThrew sends = false.
Proof.
  induction 1 as [|s sends Hs _ IH]; [done|]. cbn [existsb]. rewrite IH, orb_false_r.
  unfold isThrew. by destruct Hs as [-> | ->].
Qed.

Lemma forallb_isReturned_false (sends : list Send) (s : Send) :
  s ∈ sends -> sd_phase s = AwaitPush -> forallb isReturned sends = false.
Proof.
  intros Hin Hph. destruct (forallb isReturned sends) eqn:E; [|done].
  rewrite forallb_forall in E. specialize (E s (proj1 (list_elem_of_In _ _) Hin)).
  unfold isReturned in E. by rewrite Hph in E.
Qed.

Lemma forallb_isReturned_true (sends : list Send) :
  Forall (fun s => sd_phase s = Returned true) sends -> forallb isReturned sends = true.
Proof.
  induction 1 as [|s sends Hs _ IH]; [done|]. cbn [forallb]. rewrite IH, andb_true_r.
  unfold isReturned. by rewrite Hs.
Qed.

Lemma settle_started u l sends :
  Forall (fun s => sd_phase s = AwaitPush) sends ->
  inFlight (settle {| t_userID := u; t_latestExpiration := l; t_sends := sends;
                      t_state := Pending |}).1.
Proof.
  intros Hall. unfold settle. cbn [t_state t_sends].
  rewrite existsb_isThrew_false
    by (eapply Forall_impl; [exact Hall|]; by intros; left).
  destruct sends as [|s sends]; [by right|].
  rewrite (forallb_isReturned_false (s :: sends) s);
    [|left|by apply Forall_inv in Hall].
  left. by repeat split.
Qed.

Lemma main_already_notified cy now st u ns l rest :
  st_pc st = AwaitLastNotified u ns l rest ->
  l <= getLastNotifiedExpiration (st_db st) u ->
  main cy now st = nextUser cy now rest (setCounters (alreadyNotified (st_counters st)) st).
Proof. intros Hpc Hle%Z.leb_le. unfold main. by rewrite Hpc, Hle. Qed.

Lemma main_newer cy now st u ns l rest :
  st_pc st = AwaitLastNotified u ns l rest ->
  getLastNotifiedExpiration (st_db st) u < l ->
  main cy now st = setPc (AwaitSubscriptions u ns l rest) st.
Proof. intros Hpc Hlt%Z.leb_gt. unfold main. by rewrite Hpc, Hlt. Qed.

Lemma main_sends cy now st u ns l rest sub subs :
  st_pc st = AwaitSubscriptions u ns l rest ->
  getUserSubscriptions (st_db st) u = sub :: subs ->
  main cy now st =
  let sends := startSends (sub :: subs) ns in
  let task := {| t_userID := u; t_latestExpiration := l;
                 t_sends := sends; t_state := Pending |} in
  nextUser cy now rest
    (updateTask (length (st_promises st)) task sends
       (setCounters (notified (length (sub :: subs)) (st_counters st))
          (logEvents (pushed u sends) (setPromises (st_promises st ++ [task]) st)))).
Proof. intros Hpc Hsubs. unfold main. by rewrite Hpc, Hsubs. Qed.

Lemma settle_userID (t : Task) : t_userID (settle t).1 = t_userID t.
Proof. unfold settle. by repeat case_match. Qed.

(** One turn of the loop, from the head of the loop to the next head. *)
Lemma loop_iteration cy now u code (rest : list (Z * string)) st :
  getUserGear (gearToUserMap cy) u <> [] ->
  Forall inFlight (st_promises st) ->
  exists pre stm,
    Forall delivering pre
    /\ exec cy pre (nextUser cy now ((u, code) :: rest) st) = nextUser cy now rest stm
    /\ Forall inFlight (st_promises stm)
    /\ st_db stm = st_db st
    /\ (forall v, v ∈ t_userID <$> st_promises st -> v ∈ t_userID <$> st_promises stm)
    /\ (forall l, latestExpiration cy u = Some l ->
          getUserSubscriptions (st_db st) u <> [] ->
          getLastNotifiedExpiration (st_db st) u < l ->
          u ∈ t_userID <$> st_promises stm).
Proof.
  intros [gear Hlast]%last_is_Some HJ.
  unfold nextUser at 1. unfold latestExpiration. rewrite Hlast. cbn [fmap option_fmap option_map].
  set (ns := (fun gear0 => (generateNotificationPayload code gear0,
                            generateNotificationOptions now gear0))
               <$> getUserGear (gearToUserMap cy) u).
  set (l := g_expiration gear).
  set (st1 := setPc (AwaitLastNotified u ns l rest) st).
  assert (Hpc1 : st_pc st1 = AwaitLastNotified u ns l rest) by done.
  destruct (Z_le_gt_dec l (getLastNotifiedExpiration (st_db st1) u)) as [Hle|Hlt].
  - (* already notified *)
    exists [Main now], (setCounters (alreadyNotified (st_counters st1)) st1).
    split; [by repeat constructor|].
    rewrite exec_cons. cbn [step exec foldl].
    rewrite (main_already_notified _ _ _ _ _ _ _ Hpc1 Hle).
    repeat split; [done|done|]. intros l' [= <-] _ Hl. cbn in Hle. lia.
  - set (st2 := setPc (AwaitSubscriptions u ns l rest) st1).
    assert (Hpc2 : st_pc st2 = AwaitSubscriptions u ns l rest) by done.
    assert (Hstep1 : step cy (Main now) st1 = st2).
    { cbn [step]. apply (main_newer _ _ _ _ _ _ _ Hpc1). lia. }
    destruct (getUserSubscriptions (st_db st2) u) as [|sub subs] eqn:Hsubs.
    + (* no subscription *)
      exists [Main now; Main now], (setCounters (noSubscriber (st_counters st2)) st2).
      split; [by repeat constructor|].
      rewrite !exec_cons, Hstep1. cbn [step exec foldl].
      rewrite (main_no_subscriber _ _ _ _ _ _ _ Hpc2 Hsubs).
      repeat split; [done|done|]. by intros l' _ Hne _.
    + (* the sends start *)
      pose proof (main_sends cy now _ _ _ _ _ _ _ Hpc2 Hsubs) as Hmain.
      cbv zeta in Hmain.
      set (sends := startSends (sub :: subs) ns) in Hmain.
      set (task := {| t_userID := u; t_latestExpiration := l;
                      t_sends := sends; t_state := Pending |}) in Hmain.
      set (st3 := setCounters _ _) in Hmain.
      exists [Main now; Main now], (updateTask (length (st_promises st2)) task sends st3).
      split; [by repeat constructor|].
      rewrite !exec_cons, Hstep1. cbn [step exec foldl]. split; [exact Hmain|].
      destruct (updateTask_spec (length (st_promises st2)) task sends st3)
        as (t' & us & Hs & Hdb & _ & Hps & _).
      change (withSends task sends) with task in Hs.
      assert (Hps' : st_promises (updateTask (length (st_promises st2)) task sends st3)
                     = st_promises st ++ [t']).
      { rewrite Hps. subst st3. cbn [st_promises setCounters logEvents setPromises].
        rewrite insert_app_r_alt by done. by rewrite Nat.sub_diag. }
      rewrite Hps', Hdb. repeat split.
      * apply Forall_app. split; [exact HJ|]. constructor; [|constructor].
        pose proof (settle_started u l sends (startSends_AwaitPush _ _)) as Hfl.
        fold task in Hfl. by rewrite Hs in Hfl.
      * intros v Hv. rewrite fmap_app. apply elem_of_app. by left.
      * intros _ _ _ _. rewrite fmap_app. apply elem_of_app. right.
        pose proof (settle_userID task) as Hu. rewrite Hs in Hu. cbn in Hu.
        cbn [fmap list_fmap]. rewrite Hu. by left.
Qed.

Lemma loop_reaches_its_end cy now (rest : list (Z * string)) :
  Forall (fun p => getUserGear (gearToUserMap cy) p.1 <> []) rest ->
  forall st,
    Forall inFlight (st_promises st) ->
    exists sched,
      Forall delivering sched
      /\ let st' := exec cy sched (nextUser cy now rest st) in
      st_pc st' = AwaitAll /\ Forall inFlight (st_promises st')
      /\ st_db st' = st_db st
      /\ (forall v, v ∈ t_userID <$> st_promises st -> v ∈ t_userID <$> st_promises st')
      /\ (forall u l, u ∈ rest.*1 -> latestExpiration cy u = Some l ->
            getUserSubscriptions (st_db st) u <> [] ->
            getLastNotifiedExpiration (st_db st) u < l ->
            u ∈ t_userID <$> st_promises st').
Proof.
  induction 1 as [|[u code] rest Hgear Hrest IH]; intros st HJ.
  - exists []. split; [constructor|]. cbv zeta. cbn [exec foldl nextUser].
    split; [done|]. split; [done|]. split; [done|]. split; [done|].
    by intros u l Hu%elem_of_nil.
  - destruct (loop_iteration cy now u code rest st Hgear HJ)
      as (pre & stm & Hdl & Hpre & HJm & Hdbm & Hkeepm & Hum).
    destruct (IH stm HJm) as (sched & Hdl' & Hpc & HJ' & Hdb' & Hkeep' & Hserved').
    exists (pre ++ sched). split; [by apply Forall_app|]. cbv zeta. rewrite exec_app, Hpre.
    split; [done|]. split; [done|]. split; [by rewrite Hdb'|]. split; [by auto|].
    intros v l Hv Hl Hsubs Hlt. rewrite fmap_cons in Hv.
    apply elem_of_cons in Hv as [->|Hv].
    + apply Hkeep'. by eapply Hum.
    + apply (Hserved' v l Hv Hl); by rewrite Hdbm.
Qed.

(** *** Every send is delivered *)

Lemma step_delivered cy j i st t s :
  st_promises st !! j = Some t -> t_sends t !! i = Some s -> sd_phase s = AwaitPush ->
  step cy (PushReplies j i Delivered) st
  = updateTask j t (<[i := withPhase s (Returned true)]> (t_sends t)) (logEvents [] st).
Proof. intros Hj Hi Hph. unfold step. by rewrite Hj, Hi, Hph. Qed.

Lemma deliveredUpTo_next i sends s :
  sends !! i = Some s -> deliveredUpTo i sends ->
  deliveredUpTo (S i) (<[i := withPhase s (Returned true)]> sends).
Proof.
  intros Hi Hup i' s' Hs'. destruct (decide (i' = i)) as [->|Hne].
  - rewrite list_lookup_insert_eq in Hs' by (by eapply lookup_lt_Some).
    injection Hs' as <-. cbn. by rewrite decide_True by lia.
  - rewrite list_lookup_insert_ne in Hs' by done. rewrite (Hup _ _ Hs').
    destruct (decide (i' < i)%nat), (decide (i' < S i)%nat); (done || lia).
Qed.

Lemma deliver_sends cy j (n : nat) :
  forall i st t,
    st_promises st !! j = Some t -> t_state t = Pending ->
    length (t_sends t) = (i + S n)%nat -> deliveredUpTo i (t_sends t) ->
    let st' := exec cy ((fun i => PushReplies j i Delivered) <$> seq i (S n)) st in
    st_pc st' = st_pc st
    /\ exists t', st_promises st' = <[j := t']> (st_promises st) /\ t_state t' = Resolved
                  /\ t_userID t' = t_userID t.
Proof.
  induction n as [|n IH]; intros i st t Hj Hpend Hlen Hup.
  all: destruct (lookup_lt_is_Some_2 (t_sends t) i ltac:(lia)) as [s Hi].
  all: pose proof (Hup _ _ Hi) as Hph; rewrite decide_False in Hph by lia.
  all: pose proof (step_delivered cy j i st t s Hj Hi Hph) as Hstep.
  all: pose proof (deliveredUpTo_next _ _ _ Hi Hup) as Hup'.
  all: set (sends' := <[i := withPhase s (Returned true)]> (t_sends t)) in *.
  all: destruct (updateTask_spec j t sends' (logEvents [] st))
         as (t' & us & Hs & _ & Hpc & Hps & _).
  all: rewrite <- Hstep in Hpc, Hps.
  all: unfold settle in Hs; cbn [withSends t_state t_sends] in Hs; rewrite Hpend in Hs.
  all: rewrite existsb_isThrew_false in Hs
         by (apply Forall_lookup; intros i' s' Hs'; rewrite (Hup' _ _ Hs');
             by destruct (decide _); [right|left]).
  - rewrite forallb_isReturned_true in Hs.
    2:{ apply Forall_lookup. intros i' s' Hs'. rewrite (Hup' _ _ Hs').
        apply lookup_lt_Some in Hs'. unfold sends' in Hs'.
        rewrite length_insert in Hs'. by rewrite decide_True by lia. }
    injection Hs as <- <-. cbn [seq fmap list_fmap]. cbv zeta. rewrite exec_cons.
    cbn [exec foldl]. split; [exact Hpc|]. eexists. split; [exact Hps|done].
  - destruct (lookup_lt_is_Some_2 sends' (S i)) as [s2 Hs2].
    { unfold sends'. rewrite length_insert. lia. }
    rewrite (forallb_isReturned_false sends' s2) in Hs.
    2:{ by eapply list_elem_of_lookup_2. }
    2:{ rewrite (Hup' _ _ Hs2). by rewrite decide_False by lia. }
    injection Hs as <- <-.
    assert (Hj' : st_promises (step cy (PushReplies j i Delivered) st) !! j
                  = Some (withSends t sends')).
    { rewrite Hps. apply list_lookup_insert_eq. by eapply lookup_lt_Some. }
    destruct (IH (S i) _ _ Hj' Hpend) as (Hpc2 & t2 & Hps2 & Hres & Hu2).
    { cbn [withSends t_sends]. unfold sends'. rewrite length_insert. lia. }
    { exact Hup'. }
    change (seq i (S (S n))) with (i :: seq (S i) (S n)). rewrite fmap_cons.
    cbv zeta. rewrite exec_cons. split; [by rewrite Hpc2|].
    exists t2. split; [|done]. rewrite Hps2, Hps. apply list_insert_insert_eq.
Qed.

Lemma deliver_tasks cy (k : nat) :
  forall m st,
    length (st_promises st) = (m + k)%nat ->
    (forall j t, (j < m)%nat -> st_promises st !! j = Some t -> t_state t = Resolved) ->
    Forall inFlight (st_promises st) ->
    exists sched,
      Forall delivering sched
      /\ let st' := exec cy sched st in
      st_pc st' = st_pc st
      /\ t_userID <$> st_promises st' = t_userID <$> st_promises st
      /\ Forall (fun t => t_state t = Resolved) (st_promises st').
Proof.
  induction k as [|k IH]; intros m st Hlen Hbefore HJ.
  - exists []. split; [constructor|]. split; [done|]. split; [done|].
    apply Forall_lookup. intros j t Hj.
    apply (Hbefore j t); [|done]. apply lookup_lt_Some in Hj. cbn in Hj. lia.
  - destruct (lookup_lt_is_Some_2 (st_promises st) m ltac:(lia)) as [t Hm].
    pose proof (proj1 (Forall_lookup _ _) HJ _ _ Hm) as [(Hpend & Hne & Hall)|Hres].
    + destruct (t_sends t) as [|s0 sends] eqn:Hsends; [done|].
      destruct (deliver_sends cy m (length sends) 0 st t Hm Hpend)
        as (Hpc & t' & Hps & Hres & Hu).
      { by rewrite Hsends. }
      { intros i' s Hs. rewrite decide_False by lia.
        rewrite Hsends in Hs.
        by apply (proj1 (Forall_lookup _ _) Hall i' s). }
      set (sched1 := (fun i => PushReplies m i Delivered) <$> seq 0 (S (length sends))) in *.
      destruct (IH (S m) (exec cy sched1 st)) as (sched2 & Hdl2 & Hpc2 & Hus2 & Hall2).
      { rewrite Hps, length_insert. lia. }
      { intros j t2 Hj. rewrite Hps. destruct (decide (j = m)) as [->|Hjm].
        - rewrite list_lookup_insert_eq by (by eapply lookup_lt_Some). by intros [= <-].
        - rewrite list_lookup_insert_ne by done. apply Hbefore. lia. }
      { rewrite Hps. apply Forall_insert; [done|by right]. }
      exists (sched1 ++ sched2). split.
      { apply Forall_app. split; [|done]. unfold sched1. apply Forall_fmap.
        by apply Forall_true. }
      cbv zeta. rewrite exec_app.
      split; [by rewrite Hpc2|]. split; [|done].
      rewrite Hus2, Hps, list_fmap_insert, Hu. apply list_insert_id.
      by rewrite list_lookup_fmap, Hm.
    + apply (IH (S m) st); [lia| |done].
      intros j t2 Hj Hlook. destruct (decide (j = m)) as [->|Hjm].
      * by simplify_eq.
      * apply (Hbefore j); [lia|done].
Qed.

(** *** Every UPDATE is performed *)

Lemma updates_performed cy (n : nat) :
  forall st,
    length (st_updates st) = n ->
    exists sched,
      Forall delivering sched
      /\ let st' := exec cy sched st in
      st_pc st' = st_pc st /\ st_promises st' = st_promises st /\ st_updates st' = [].
Proof.
  induction n as [|n IH]; intros st Hlen.
  - exists []. split; [constructor|]. repeat split. by apply nil_length_inv.
  - destruct (st_updates st) as [|[u l] us] eqn:Hus; [done|].
    destruct (IH (step cy (DbUpdates 0) st)) as (sched & Hdl & Hpc & Hps & Hnil).
    { unfold step. rewrite Hus. cbn. cbn in Hlen. lia. }
    exists (DbUpdates 0 :: sched). split; [by constructor|]. cbv zeta. rewrite exec_cons.
    rewrite Hpc, Hps, Hnil. unfold step. by rewrite Hus.
Qed.

(** *** The answer *)

Lemma main_all_resolved cy now st :
  st_pc st = AwaitAll ->
  Forall (fun t => t_state t = Resolved) (st_promises st) ->
  main cy now st = setPc AwaitCacheUpdate (logEvents [EvSnapshotIssued] st).
Proof.
  intros Hpc Hall. unfold main. rewrite Hpc.
  assert (existsb isFailed (st_promises st) = false) as ->.
  { induction Hall as [|t ts Ht _ IH]; [done|]. cbn [existsb]. rewrite IH.
    unfold isFailed. by rewrite Ht. }
  assert (forallb isResolved (st_promises st) = true) as ->; [|done].
  induction Hall as [|t ts Ht _ IH]; [done|]. cbn [forallb]. rewrite IH.
  unfold isResolved. by rewrite Ht.
Qed.

Lemma prepare_enters_the_loop `{GearLoader} env req db cy st0 :
  prepare env req db = (Some cy, st0) ->
  exists now st,
    st0 = nextUser cy now (aggregateUsers (gearToUserMap cy)) st
    /\ st_promises st = [].
Proof.
  unfold prepare. intros Hp. repeat case_match; simplify_eq.
  all: by eexists _, _.
Qed.

Lemma aggregateUsers_have_gear (gtm : GearToUsers) :
  Forall (fun p => getUserGear gtm p.1 <> []) (aggregateUsers gtm).
Proof.
  apply Forall_forall. intros [u code] Hin. cbn [fst].
  assert (Hu : u ∈ (aggregateUsers gtm).*1).
  { apply list_elem_of_fmap. by exists (u, code). }
  apply aggregateUsers_keys in Hu as (g & users & Hg & Hk).
  intros Hnil. assert (Hel : g ∈ getUserGear gtm u); [|rewrite Hnil in Hel; by inversion Hel].
  apply getUserGear_elem. eauto.
Qed.

(** X29: a request that enters the loop can be served.  There is a
    schedule on which the handler only resumes, every push is delivered
    and the UPDATEs and the write of the cache are performed, such that
    the request answers 200 with no UPDATE in flight, and the stored
    expiration of every user who has matched items and, at the start, a
    subscription is the larger of the expiration of the user's last
    matched item and what was stored at the start. *)
Theorem X29_request_is_served `{GearLoader}
    (env : Env) (req : Request) (db : DB) (cy : Cycle) :
  cycleOf env req db = Some cy ->
  exists sched,
    Forall delivering sched
    /\ let st := handler env req db sched in
    status st = Some 200
    /\ st_updates st = []
    /\ forall u l,
         latestExpiration cy u = Some l -> getUserSubscriptions db u <> [] ->
         getLastNotifiedExpiration (st_db st) u
         = Z.max l (getLastNotifiedExpiration db u).
Proof.
  unfold cycleOf. destruct (prepare env req db) as [o st0] eqn:Hp. cbn [fst].
  intros ->. pose proof (prepare_Some _ _ _ _ _ Hp) as HS.
  destruct (prepare_enters_the_loop _ _ _ _ _ Hp) as (now & st1 & -> & Hps1).
  assert (Hdb1 : st_db st1 = db).
  { destruct HS as (Hdb & _).
    by destruct (nextUser_spec cy now (aggregateUsers (gearToUserMap cy)) st1) as (<- & _). }
  destruct (loop_reaches_its_end cy now _ (aggregateUsers_have_gear _) st1)
    as (sched1 & Hdl1 & Hpc1 & HJ1 & _ & _ & Hserved); [by rewrite Hps1|].
  set (st0 := nextUser cy now (aggregateUsers (gearToUserMap cy)) st1) in *.
  destruct (deliver_tasks cy (length (st_promises (exec cy sched1 st0))) 0
              (exec cy sched1 st0)) as (sched2 & Hdl2 & Hpc2 & Hus2 & Hall2);
    [done|intros; lia|done|].
  cbv zeta in Hpc2, Hus2, Hall2.
  destruct (updates_performed cy _ (exec cy sched2 (exec cy sched1 st0)) eq_refl)
    as (sched3 & Hdl3 & Hpc3 & Hps3 & Hnil3).
  cbv zeta in Hpc3, Hps3, Hnil3.
  set (st3 := exec cy sched3 (exec cy sched2 (exec cy sched1 st0))) in *.
  exists (sched1 ++ sched2 ++ sched3 ++ [Main now; DbCaches; Main now]).
  split; [by rewrite !Forall_app; repeat split; [..|repeat constructor]|].
  assert (Hrun : handler env req db (sched1 ++ sched2 ++ sched3 ++ [Main now; DbCaches; Main now])
                 = step cy (Main now) (step cy DbCaches (step cy (Main now) st3))).
  { unfold handler. rewrite Hp. by rewrite !exec_app. }
  pose proof (handler_written env req db
                (sched1 ++ sched2 ++ sched3 ++ [Main now; DbCaches; Main now])) as Hw.
  destruct (exec_advancing cy db (sched1 ++ sched2 ++ sched3 ++ [Main now; DbCaches; Main now]) st0)
    as (Hadv & _ & Htasks & _); [by eapply Start_coherent|by eapply Start_advancing|].
  assert (Hex : exec cy (sched1 ++ sched2 ++ sched3 ++ [Main now; DbCaches; Main now]) st0
                = step cy (Main now) (step cy DbCaches (step cy (Main now) st3))) by (by rewrite !exec_app).
  rewrite Hex in Hadv, Htasks. cbv zeta. rewrite Hrun in *. clear Hrun Hex.
  assert (Hpc : st_pc st3 = AwaitAll) by (by rewrite Hpc3, Hpc2).
  assert (Hall : Forall (fun t => t_state t = Resolved) (st_promises st3))
    by (by rewrite Hps3).
  cbn [step] in *. rewrite (main_all_resolved cy now st3 Hpc Hall) in *.
  set (st4 := setPc AwaitCacheUpdate (logEvents [EvSnapshotIssued] st3)) in *.
  unfold main in *. cbn [st_pc st4 setPc logEvents setDb] in *.
  split; [done|]. split; [exact Hnil3|].
  intros u l Hl Hsubs.
  destruct (Z_le_gt_dec l (getLastNotifiedExpiration db u)) as [Hle|Hgt].
  - rewrite Z.max_r by done.
    pose proof (Hadv u) as HA.
    set (x := getLastNotifiedExpiration (st_db _) u) in HA |- *.
    destruct HA as [E|(E1 & E2)]; [exact E|].
    assert (l = x) by congruence. lia.
  - rewrite Z.max_l by lia.
    assert (Hu : u ∈ t_userID <$> st_promises st3).
    { rewrite Hps3, Hus2. apply (Hserved u l); rewrite ?Hdb1; [|done|done|lia].
      apply aggregateUsers_keys. unfold latestExpiration in Hl.
      destruct (last (getUserGear (gearToUserMap cy) u)) as [g|] eqn:Hlast; [|done].
      assert (Hg : g ∈ getUserGear (gearToUserMap cy) u).
      { apply last_Some in Hlast as [l' ->]. apply elem_of_app. right. by left. }
      apply getUserGear_elem in Hg as (um & Hin & Hhas). eauto. }
    apply list_elem_of_fmap in Hu as (t & -> & Ht).
    change (st_promises st3) with
      (st_promises
         (setPc (Responded 200)
            (setPc CacheUpdated
               (logEvents [EvSnapshotStored]
                  (setDb (updateCachedRawGearData (st_db st4) (fetchedRawGearData cy))
                     st4)))))
      in Ht.
    pose proof (proj1 (Forall_forall _ _) Hw _ Ht) as Hwt.
    pose proof (proj1 (Forall_forall _ _) Htasks _ Ht) as (Hlt & _).
    rewrite Hl in Hlt. injection Hlt as Hlt.
    destruct Hwt as [Hin|(_ & E)].
    + apply (proj1 (Forall_forall _ _) Hall). exact Ht.
    + change (st_updates _) with (st_updates st3) in Hin. rewrite Hnil3 in Hin.
      by apply elem_of_nil in Hin.
    + by rewrite E.
Qed.

(** ** Runs of the examples *)

#[local] Existing Instance Ex.loader.

(** The matcher refuses a name outside the allow-list. *)
Example matcher_refuses_name :
  getUsersToBeNotified Ex.db Ex.jersey = Rejected IllegalArgumentError.
Proof. reflexivity. Qed.

Example wrong_key_is_401 :
  status (handler (Ex.env "hat+hoodie") Ex.reqWrongKey Ex.dbCached Ex.lateUpdate) = Some 401.
Proof. vm_compute. reflexivity. Qed.



(** C1 as stated fails: the request answers 200 and the snapshot is stored
    while the UPDATE of user 1 is still in flight. *)
Lemma C1_snapshot_stored_before_watermark :
  let st := handler (Ex.env "hat+hoodie") Ex.req Ex.db Ex.lateUpdate in
  status st = Some 200
  /\ st_trace st
     = [EvFetchAPI;
        EvPush 1 "https://push.example/a" "hat-1" 98;
        EvPush 1 "https://push.example/a" "hoodie-1" 198;
        EvWatermarkIssued 1 200000;
        EvSnapshotIssued; EvSnapshotStored;
        EvWatermarkStored 1 200000]
  /\ ~ allBefore isWatermarkStored EvSnapshotStored (st_trace st).
Proof.
  assert (Htr : st_trace (handler (Ex.env "hat+hoodie") Ex.req Ex.db Ex.lateUpdate)
     = [EvFetchAPI;
        EvPush 1 "https://push.example/a" "hat-1" 98;
        EvPush 1 "https://push.example/a" "hoodie-1" 198;
        EvWatermarkIssued 1 200000;
        EvSnapshotIssued; EvSnapshotStored;
        EvWatermarkStored 1 200000]) by (vm_compute; reflexivity).
  cbv zeta. split; [vm_compute; reflexivity|]. split; [exact Htr|].
  rewrite Htr. intros Hb.
  specialize (Hb [EvFetchAPI;
        EvPush 1 "https://push.example/a" "hat-1" 98;
        EvPush 1 "https://push.example/a" "hoodie-1" 198;
        EvWatermarkIssued 1 200000;
        EvSnapshotIssued] [EvWatermarkStored 1 200000] eq_refl).
  apply Forall_inv in Hb. by apply Hb.
Qed.





Lemma C6_too_early_witness :
  let st := handler (Ex.env "hat+hoodie") Ex.req Ex.dbCached Ex.lateUpdate in
  status st = Some 425 /\ st_trace st = [] /\ st_db st = Ex.dbCached
  /\ st_promises st = [] /\ st_updates st = [].
Proof.
  apply (C6_too_early (Ex.env "hat+hoodie") Ex.req Ex.dbCached Ex.lateUpdate
           "hat" [Ex.hat] 100000).
  - reflexivity.
  - reflexivity.
  - reflexivity.
  - reflexivity.
  - vm_compute. reflexivity.
Defined.

Lemma C8_permanent_failure_prunes_witness :
  let st' := handler (Ex.env "hat+hoodie") Ex.req Ex.db
               (Ex.firstSends ++ PushReplies 0 0 (WebPushError 410) :: Ex.afterGone) in
  EvDeleteIssued (endpoint Ex.subA) ∈ st_trace st'
  /\ pruning 0 0 (endpoint Ex.subA) st'
  /\ unsubscribed (endpoint Ex.subA) (st_db st')
  /\ forall sys moves userID,
       sys_db sys = st_db st' ->
       Forall (fun sub => endpoint sub <> endpoint Ex.subA)
         (getUserSubscriptions (sys_db (run moves sys)) userID).
Proof.
  destruct (C8_permanent_failure_prunes (Ex.env "hat+hoodie") Ex.req Ex.db
           Ex.firstSends Ex.afterGone 0 0
           {| t_userID := 1; t_latestExpiration := 200000;
              t_sends := startSends [Ex.subA]
                           [(generateNotificationPayload "code-1" Ex.hat,
                             generateNotificationOptions 1200 Ex.hat);
                            (generateNotificationPayload "code-1" Ex.hoodie,
                             generateNotificationOptions 1200 Ex.hoodie)];
              t_state := Pending |}
           {| sd_subscription := Ex.subA;
              sd_notification := generateNotificationPayload "code-1" Ex.hat;
              sd_options := generateNotificationOptions 1200 Ex.hat;
              sd_phase := AwaitPush |}
           410) as (Hissued & Hpruning & Hdeleted & _ & Hlater).
  - vm_compute. reflexivity.
  - reflexivity.
  - reflexivity.
  - reflexivity.
  - assert (Hin : DbDeletes 0 0 ∈ Ex.afterGone) by (unfold Ex.afterGone; left).
    exact (conj Hissued (conj Hpruning (conj (Hdeleted Hin) (Hlater (Hdeleted Hin))))).
Defined.

(** C8 as stated fails when the request fails.  The first send of user 1
    gets a 410 and the DELETE is issued; the other send gets a 500, so the
    task is rejected and the request answers 500 while the DELETE is
    still in flight: the row of the subscription is still there.  The next
    request arrives before the DELETE is performed, finds the subscription
    in the list of user 1 and pushes to it again. *)
Lemma C8_delete_in_flight_at_500 :
  let st := handler (Ex.env "hat+hoodie") Ex.req Ex.db
              (Ex.firstSends ++ PushReplies 0 0 (WebPushError 410) :: Ex.afterGoneError) in
  let sys := run Ex.retryAfterGone (boot Ex.db) in
  status st = Some 500
  /\ st_trace st
     = [EvFetchAPI;
        EvPush 1 "https://push.example/a" "hat-1" 98;
        EvPush 1 "https://push.example/a" "hoodie-1" 198;
        EvDeleteIssued "https://push.example/a"]
  /\ getUserSubscriptions (st_db st) 1 = [Ex.subA]
  /\ ((fun r => status r.2) <$> sys_requests sys) = [Some 500; None]
  /\ getUserSubscriptions (sys_db sys) 1 = [Ex.subA]
  /\ (st_trace <$> (snd <$> sys_requests sys)) !! 1%nat
     = Some [EvFetchAPI;
             EvPush 1 "https://push.example/a" "hat-1" 98;
             EvPush 1 "https://push.example/a" "hoodie-1" 198].
Proof. cbv zeta. repeat split; vm_compute; reflexivity. Qed.



(** C4 fails on the code.  With the hat and a gear item whose name is
    outside the allow-list in the batch, the lookup of that item rejects,
    its wrapper promise never settles, and the request never answers:
    there is no status, nothing is pushed (the hat has two users waiting
    for it) and the cache is not written. *)
Theorem C4_malformed_name_no_answer (sched : list Choice) :
  let st := handler (Ex.env "hat+jersey") Ex.req Ex.db sched in
  rawGearDataToGearList "hat+jersey" = Some [Ex.hat; Ex.jersey]
  /\ allowedCharsPattern (g_name Ex.hat) = true
  /\ allowedCharsPattern (g_name Ex.jersey) = false
  /\ getUsersToBeNotified Ex.db Ex.hat = Fulfilled [(1, "code-1"); (2, "code-2")]%string
  /\ status st = None
  /\ st_trace st = [EvFetchAPI]
  /\ st_db st = Ex.db.
Proof.
  cbv zeta. repeat split; vm_compute; reflexivity.
Qed.

(** ** Runs of the further examples *)

Lemma X1_formatCol_idempotent_witness :
  formatCol (formatCol "Last-Ditch Effort") = formatCol "Last-Ditch Effort"
  /\ Str.all columnChar (formatCol "Last-Ditch Effort") = true
  /\ Str.all Str.isAscii (formatCol "Last-Ditch Effort") = true.
Proof.
  apply (X1_formatCol_idempotent "Last-Ditch Effort"). reflexivity.
Defined.

Lemma X2_rowDataToFilter_stored_witness :
  rowDataToFilter (storedRow ExMore.annakiHoodie)
  = {| gearName := f_name (storedRow ExMore.annakiHoodie);
       minimumRarity := minimumRarity ExMore.annakiHoodie;
       gearTypes := base.filter (fun x => x ∈ gearTypes ExMore.annakiHoodie) GEAR_TYPES;
       gearBrands := base.filter (fun x => x ∈ gearBrands ExMore.annakiHoodie) GEAR_BRANDS;
       gearAbilities :=
         base.filter (fun x => x ∈ gearAbilities ExMore.annakiHoodie) GEAR_ABILITIES |}
  /\ varchar255 (gearName ExMore.annakiHoodie) = Some (f_name (storedRow ExMore.annakiHoodie))
  /\ ((String.length (gearName ExMore.annakiHoodie) <= 255)%nat ->
      f_name (storedRow ExMore.annakiHoodie) = gearName ExMore.annakiHoodie)
  /\ gearName (rowDataToFilter (filterToTableData ExMore.annakiHoodie))
     = sqlQuote (gearName ExMore.annakiHoodie).
Proof.
  apply (X2_rowDataToFilter_stored ExMore.annakiHoodie (storedRow ExMore.annakiHoodie)).
  vm_compute. reflexivity.
Defined.

Lemma X3_filter_round_trip_witness :
  rowDataToFilter (storedRow Ex.rareHats) = Ex.rareHats.
Proof.
  apply (X3_filter_round_trip Ex.rareHats (storedRow Ex.rareHats)).
  - vm_compute. reflexivity.
  - cbn. lia.
  - repeat constructor.
  - repeat constructor.
  - repeat constructor.
Defined.

Lemma X4_stored_again_witness :
  insertedRow (filterToTableData (rowDataToFilter (storedRow Ex.rareHats)))
  = Some (storedRow Ex.rareHats)
  <-> storable GEAR_TYPES (gearTypes Ex.rareHats)
      /\ storable GEAR_BRANDS (gearBrands Ex.rareHats)
      /\ storable GEAR_ABILITIES (gearAbilities Ex.rareHats).
Proof.
  apply (X4_stored_again Ex.rareHats (storedRow Ex.rareHats)).
  vm_compute. reflexivity.
Defined.

Lemma X5_tryAddFilter_idempotent_witness :
  exists r,
    tryAddFilter Ex.db 12 ExMore.annakiHoodie = Done r
    /\ tryAddFilter r.1 13 ExMore.annakiHoodie = Done r
    /\ hasFilterID r.1 r.2 = true
    /\ getMatchingFilterID r.1 ExMore.annakiHoodie = Done r.2
    /\ (getMatchingFilterID Ex.db ExMore.annakiHoodie <> Done (-1) -> r.1 = Ex.db).
Proof.
  apply (X5_tryAddFilter_idempotent Ex.db 12 13 ExMore.annakiHoodie).
  - reflexivity.
  - reflexivity.
  - cbn. lia.
  - apply (bool_decide_unpack _). vm_compute. reflexivity.
  - lia.
  - apply (bool_decide_unpack _). vm_compute. reflexivity.
Defined.

Lemma X6_tryAddFilter_no_duplicate_witness :
  ((String.length (gearName ExMore.annakiHoodie) <= 255)%nat ->
   forall r, tryAddFilter Ex.db 12 ExMore.annakiHoodie = Done r ->
     NoDup (filters r.1).*2
     /\ (NoDup (filters Ex.db).*1 -> NoDup (filters r.1).*1))
  /\ (getMatchingFilterID Ex.db ExMore.annakiHoodie = Done (-1) ->
      int2 (minimumRarity ExMore.annakiHoodie) = false \/ 12 ∈ (filters Ex.db).*1 ->
      tryAddFilter Ex.db 12 ExMore.annakiHoodie = Thrown DatabaseError).
Proof.
  apply (X6_tryAddFilter_no_duplicate Ex.db 12 ExMore.annakiHoodie).
  - reflexivity.
  - apply (bool_decide_unpack _). vm_compute. reflexivity.
  - cbn [Ex.db filters fmap list_fmap snd]. apply NoDup_cons. split.
    + intros Hin. apply list_elem_of_singleton in Hin.
      apply (f_equal f_rarity) in Hin. vm_compute in Hin. discriminate.
    + apply NoDup_singleton.
Defined.


Lemma X9_subscribed_filter_notifies_witness :
  exists r db' userMap,
    tryAddFilter Ex.db 12 ExMore.annakiHoodie = Done r
    /\ addFilterToUser r.1 1 r.2 = Done db'
    /\ getUsersToBeNotified db' Ex.hoodie = Fulfilled userMap
    /\ 1 ∈ userMap.*1.
Proof.
  apply (X9_subscribed_filter_notifies Ex.db 12 1 ExMore.annakiHoodie Ex.hoodie).
  - vm_compute. reflexivity.
  - reflexivity.
  - reflexivity.
  - cbn. lia.
  - apply (bool_decide_unpack _). vm_compute. reflexivity.
  - vm_compute. reflexivity.
  - apply (bool_decide_unpack _). vm_compute. reflexivity.
  - apply (bool_decide_unpack _). vm_compute. reflexivity.
  - apply (bool_decide_unpack _). vm_compute. reflexivity.
  - unfold filterAdmits. cbn. split; [lia|]. split; [by right|]. split; [by left|].
    split; [right; left|by left].
Defined.

Lemma X10_getUserFilters_lists_subscription_witness :
  exists r db' fs,
    tryAddFilter Ex.db 12 ExMore.annakiHoodie = Done r
    /\ addFilterToUser r.1 1 r.2 = Done db'
    /\ getUserFilters db' 1 = Done fs
    /\ rowDataToFilter (storedRow ExMore.annakiHoodie) ∈ fs
    /\ forall f, f ∈ fs ->
          exists filterID row,
            (1, filterID) ∈ usersToFilters db'
            /\ (filterID, row) ∈ filters db'
            /\ f = rowDataToFilter row.
Proof.
  apply (X10_getUserFilters_lists_subscription Ex.db 12 1 ExMore.annakiHoodie).
  - vm_compute. reflexivity.
  - reflexivity.
  - reflexivity.
  - cbn. lia.
  - apply (bool_decide_unpack _). vm_compute. reflexivity.
Defined.


Lemma X19_expiration_written_after_all_sends_witness :
  let st := handler (Ex.env "hat+hoodie") Ex.req Ex.db Ex.lateUpdate in
  exists t,
    t ∈ st_promises st /\ t_userID t = 1 /\ t_state t = Resolved
    /\ Forall (fun s => isReturned s = true) (t_sends t).
Proof.
  apply (X19_expiration_written_after_all_sends (Ex.env "hat+hoodie") Ex.req Ex.db
           Ex.lateUpdate 1).
  left. vm_compute. discriminate.
Defined.

Lemma X20_thrown_send_rejects_the_request_witness :
  let st' := handler (Ex.env "hat+hoodie") Ex.req Ex.db
               (Ex.firstSends ++ PushReplies 0 0 (WebPushError 500) :: ExMore.afterError) in
  status st' <> Some 200
  /\ serverCache (st_db st') = serverCache Ex.db
  /\ getLastNotifiedExpiration (st_db st') 1 = getLastNotifiedExpiration Ex.db 1
  /\ ~ Exists (isWatermarkOf 1) (st_trace st').
Proof.
  apply (X20_thrown_send_rejects_the_request (Ex.env "hat+hoodie") Ex.req Ex.db
           Ex.firstSends ExMore.afterError 0 0 ExMore.firstTask ExMore.firstSend
           (WebPushError 500)).
  - vm_compute. reflexivity.
  - reflexivity.
  - reflexivity.
  - reflexivity.
Defined.

Lemma X21_user_without_subscription_witness :
  let st := handler (Ex.env "hat+hoodie") Ex.req ExMore.dbNoDevice Ex.lateUpdate in
  Forall (fun e => ~ isPushTo 1 e /\ ~ isWatermarkOf 1 e) (st_trace st)
  /\ getLastNotifiedExpiration (st_db st) 1
     = getLastNotifiedExpiration ExMore.dbNoDevice 1
  /\ Forall (fun t => t_userID t <> 1) (st_promises st).
Proof.
  apply (X21_user_without_subscription (Ex.env "hat+hoodie") Ex.req ExMore.dbNoDevice
           Ex.lateUpdate 1).
  vm_compute. reflexivity.
Defined.

Lemma X23_push_goes_to_a_matched_user_witness :
  exists cy cachedGear fetched fetchedGear sub gear userMap now,
    cycleOf (Ex.env "hat+hoodie") Ex.req Ex.db = Some cy
    /\ match fetchCachedRawGearData Ex.db with
       | None => Some []
       | Some cachedRawGearData => rawGearDataToGearList cachedRawGearData
       end = Some cachedGear
    /\ apiRawGearData (Ex.env "hat+hoodie") = Some fetched
    /\ rawGearDataToGearList fetched = Some fetchedGear
    /\ gear ∈ getNewGearItems cachedGear fetchedGear
    /\ (gear, userMap) ∈ gearToUserMap cy
    /\ getUsersToBeNotified Ex.db gear = Fulfilled userMap
    /\ 1 ∈ userMap.*1
    /\ sub ∈ getUserSubscriptions Ex.db 1
    /\ endpoint sub = "https://push.example/a"%string
    /\ g_id gear = "hat-1"%string
    /\ 98 = TTL (generateNotificationOptions now gear).
Proof.
  apply (X23_push_goes_to_a_matched_user (Ex.env "hat+hoodie") Ex.req Ex.db
           Ex.firstSends 1 "https://push.example/a" "hat-1" 98).
  assert (E : st_trace (handler (Ex.env "hat+hoodie") Ex.req Ex.db Ex.firstSends)
      = [EvFetchAPI; EvPush 1 "https://push.example/a" "hat-1" 98;
         EvPush 1 "https://push.example/a" "hoodie-1" 198])
      by (vm_compute; reflexivity).
  rewrite E. apply elem_of_cons. right. apply elem_of_cons. by left.
Defined.

Lemma X25_rejected_lookup_never_answers_witness :
  let st := handler (Ex.env "hat+jersey") Ex.req Ex.db Ex.lateUpdate in
  status st = None /\ st_trace st = [EvFetchAPI] /\ st_db st = Ex.db
  /\ st_promises st = [].
Proof.
  apply (X25_rejected_lookup_never_answers (Ex.env "hat+jersey") Ex.req Ex.db
           Ex.lateUpdate [] [Ex.hat; Ex.jersey] "hat+jersey" Ex.jersey
           IllegalArgumentError).
  - reflexivity.
  - reflexivity.
  - reflexivity.
  - reflexivity.
  - reflexivity.
  - assert (E : getNewGearItems [] [Ex.hat; Ex.jersey] = [Ex.hat; Ex.jersey])
      by (vm_compute; reflexivity).
    rewrite E. apply elem_of_cons. right. apply elem_of_cons. by left.
  - left. reflexivity.
  - reflexivity.
Defined.

Lemma X27_nothing_new_witness :
  (forall sched userID,
     Forall (fun e => ~ isPushTo userID e)
       (st_trace (handler ExMore.envLate Ex.req Ex.dbCached sched)))
  /\ forall now1 now2,
       let st := handler ExMore.envLate Ex.req Ex.dbCached [Main now1; DbCaches; Main now2] in
       status st = Some 200
       /\ st_trace st = [EvFetchAPI; EvSnapshotIssued; EvSnapshotStored]
       /\ st_db st = updateCachedRawGearData Ex.dbCached "hat".
Proof.
  apply (X27_nothing_new ExMore.envLate Ex.req Ex.dbCached [Ex.hat] [Ex.hat] "hat").
  - reflexivity.
  - reflexivity.
  - reflexivity.
  - reflexivity.
  - reflexivity.
  - vm_compute. reflexivity.
Defined.

Lemma X28_rarer_gear_reaches_more_users_witness :
  exists userMap',
    getUsersToBeNotified Ex.db ExMore.rarerHat = Fulfilled userMap'
    /\ [(1, "code-1"); (2, "code-2")]%string.*1 ⊆ userMap'.*1.
Proof.
  apply (X28_rarer_gear_reaches_more_users Ex.db Ex.hat ExMore.rarerHat).
  - reflexivity.
  - reflexivity.
  - reflexivity.
  - reflexivity.
  - vm_compute. discriminate.
  - vm_compute. reflexivity.
Defined.

Lemma X30_task_sends_every_item_to_every_subscription_witness :
  exists cy subs now userCode,
    cycleOf (Ex.env "hat+hoodie") Ex.req Ex.db = Some cy
    /\ subs <> []
    /\ subs ⊆ getUserSubscriptions Ex.db (t_userID ExMore.firstTask)
    /\ sendData <$> t_sends ExMore.firstTask
       = subs ≫= (fun sub =>
           (fun gear => (sub, generateNotificationPayload userCode gear,
                         generateNotificationOptions now gear))
             <$> getUserGear (gearToUserMap cy) (t_userID ExMore.firstTask))
    /\ latestExpiration cy (t_userID ExMore.firstTask)
       = Some (t_latestExpiration ExMore.firstTask).
Proof.
  apply (X30_task_sends_every_item_to_every_subscription (Ex.env "hat+hoodie") Ex.req
           Ex.db Ex.firstSends ExMore.firstTask).
  assert (E : st_promises (handler (Ex.env "hat+hoodie") Ex.req Ex.db Ex.firstSends)
              = [ExMore.firstTask]) by (vm_compute; reflexivity).
  rewrite E. by left.
Defined.


Lemma X29_request_is_served_witness :
  exists sched,
    Forall delivering sched
    /\ let st := handler (Ex.env "hat+hoodie") Ex.req Ex.db sched in
    status st = Some 200
    /\ st_updates st = []
    /\ forall u l,
         latestExpiration Ex.cycle u = Some l -> getUserSubscriptions Ex.db u <> [] ->
         getLastNotifiedExpiration (st_db st) u
         = Z.max l (getLastNotifiedExpiration Ex.db u).
Proof.
  apply (X29_request_is_served (Ex.env "hat+hoodie") Ex.req Ex.db Ex.cycle).
  vm_compute. reflexivity.
Defined.
